(** * Quadtree for 2-D spatial indexing: a shallow embedding of [quadtree.py]

    The development follows the Python module function by function.  The
    module is embedded twice, with the same names and the same control flow.

    - In the first embedding a Python [float] coordinate is an exact
      rational ([Q]): comparisons, midpoints and the 1% padding are computed
      without rounding, and the special values (infinities, NaN) are outside
      the model.  The literals [1e-10], [0.01] and [2] are the rationals
      1/10^10, 1/100 and 2.  It carries the properties that rest on the
      control flow, the depth counters, the capacity test and the exceptions:
      the depth bound, coincident points, rejected points, the root region,
      the bounds tests and termination.
    - In the second embedding (module [F64]) a coordinate is an IEEE
      binary64 value with the arithmetic and the comparisons of Python,
      overflow to an infinity and NaN included.  It carries the properties
      that depend on the computed midpoints and on the computed padding: the
      coverage of the full region, the containment of range queries, the two
      states of a node and the acceptance of contained points.

    Modelling conventions common to both.
    - Python [int]s ([capacity], [depth], [max_depth], record identifiers,
      [size], column numbers) are [Z].
    - A point stored in a node is the tuple [(x, y, index, full_data)].
    - A node is the record of the attributes set by [QuadtreeNode.__init__];
      the four children are optional ([None] until [subdivide] sets them).
    - Methods that mutate [self] return the new value of [self]; a Python
      exception is a [Raise] result.  [insert] is recursive through freshly
      created children, so it takes a recursion budget [fuel]: the number of
      nested [insert] frames allowed ([OutOfFuel] when exhausted).  The
      interpreter's own recursion limit is not modelled. *)

From Stdlib Require Import QArith Qabs ZArith List Bool Lia Lqa Permutation.
Import ListNotations.

Local Open Scope Q_scope.

(** ** Results of fallible, fuel-bounded computations *)

Inductive exn : Type := AttributeError | IndexError | ValueError.

Inductive result (A : Type) : Type :=
| Ok (a : A)
| Raise (e : exn)
| OutOfFuel.

Arguments Ok {A} a.
Arguments Raise {A} e.
Arguments OutOfFuel {A}.

Definition bind {A B : Type} (m : result A) (k : A -> result B) : result B :=
  match m with
  | Ok a => k a
  | Raise e => Raise e
  | OutOfFuel => OutOfFuel
  end.

Notation "x <- m ;; k" := (bind m (fun x => k))
  (at level 61, m at next level, right associativity).
Notation "' pat <- m ;; k" := (bind m (fun x => match x with pat => k end))
  (at level 61, pat pattern, m at next level, right associativity).

(** ** Coordinates *)

(** Python's [a < b] on coordinates; [a <= b] is [Qle_bool]. *)
Definition Qlt_bool (a b : Q) : bool :=
  (Qnum a * QDen b <? Qnum b * QDen a)%Z.

(** The literal [1e-10] of [subdivide]. *)
Definition eps : Q := 1 # 10000000000.

(** The literal [0.01] of [Quadtree.build]. *)
Definition pad_ratio : Q := 1 # 100.

(** ** Nodes *)

(** The tuple [(x, y, index, full_data)] kept in [points]. *)
Definition Point : Type := Q * Q * Z * option (list Q).

Definition point_x (p : Point) : Q := fst (fst (fst p)).
Definition point_y (p : Point) : Q := snd (fst (fst p)).
Definition point_idx (p : Point) : Z := snd (fst p).

#[local] Set Warnings "-register-all".

Inductive QuadtreeNode : Type := mkNode {
  x_min : Q;
  x_max : Q;
  y_min : Q;
  y_max : Q;
  capacity : Z;
  depth : Z;
  max_depth : Z;
  points : list Point;
  is_divided : bool;
  nw : option QuadtreeNode;
  ne : option QuadtreeNode;
  sw : option QuadtreeNode;
  se : option QuadtreeNode
}.

(** [QuadtreeNode.__init__] *)
Definition new_node (xmin xmax ymin ymax : Q) (cap d maxd : Z) : QuadtreeNode :=
  mkNode xmin xmax ymin ymax cap d maxd [] false None None None None.

(** Attribute updates. *)
Definition set_points (self : QuadtreeNode) (ps : list Point) : QuadtreeNode :=
  mkNode (x_min self) (x_max self) (y_min self) (y_max self)
         (capacity self) (depth self) (max_depth self)
         ps (is_divided self) (nw self) (ne self) (sw self) (se self).

Definition set_nw (self : QuadtreeNode) (c : QuadtreeNode) : QuadtreeNode :=
  mkNode (x_min self) (x_max self) (y_min self) (y_max self)
         (capacity self) (depth self) (max_depth self)
         (points self) (is_divided self) (Some c) (ne self) (sw self) (se self).

Definition set_ne (self : QuadtreeNode) (c : QuadtreeNode) : QuadtreeNode :=
  mkNode (x_min self) (x_max self) (y_min self) (y_max self)
         (capacity self) (depth self) (max_depth self)
         (points self) (is_divided self) (nw self) (Some c) (sw self) (se self).

Definition set_sw (self : QuadtreeNode) (c : QuadtreeNode) : QuadtreeNode :=
  mkNode (x_min self) (x_max self) (y_min self) (y_max self)
         (capacity self) (depth self) (max_depth self)
         (points self) (is_divided self) (nw self) (ne self) (Some c) (se self).

Definition set_se (self : QuadtreeNode) (c : QuadtreeNode) : QuadtreeNode :=
  mkNode (x_min self) (x_max self) (y_min self) (y_max self)
         (capacity self) (depth self) (max_depth self)
         (points self) (is_divided self) (nw self) (ne self) (sw self) (Some c).

(** [self.attr] on an optional child: [None] has no attributes. *)
Definition child (c : option QuadtreeNode) : result QuadtreeNode :=
  match c with
  | Some n => Ok n
  | None => Raise AttributeError
  end.

(** [QuadtreeNode.contains] *)
Definition contains (self : QuadtreeNode) (x y : Q) : bool :=
  (Qle_bool (x_min self) x && Qle_bool x (x_max self)) &&
  (Qle_bool (y_min self) y && Qle_bool y (y_max self)).

(** [QuadtreeNode.intersects] *)
Definition intersects (self : QuadtreeNode) (qx_min qx_max qy_min qy_max : Q) : bool :=
  negb (Qlt_bool qx_max (x_min self) || Qlt_bool (x_max self) qx_min ||
        Qlt_bool qy_max (y_min self) || Qlt_bool (y_max self) qy_min).

(** The test [all(abs(p[0] - first_x) < 1e-10 and abs(p[1] - first_y) < 1e-10
    for p in self.points)] of [subdivide]. *)
Definition all_same (first_x first_y : Q) (ps : list Point) : bool :=
  forallb (fun p => Qlt_bool (Qabs (point_x p - first_x)) eps &&
                    Qlt_bool (Qabs (point_y p - first_y)) eps) ps.

(** The guard of [subdivide] on coincident points: true when the node holds
    more than one point and all of them are within [eps] of the first. *)
Definition coincident (ps : list Point) : bool :=
  match ps with
  | p0 :: _ :: _ => all_same (point_x p0) (point_y p0) ps
  | _ => false
  end.

(** The four children created by [subdivide], in the order NW, NE, SW, SE. *)
Definition x_mid (self : QuadtreeNode) : Q := (x_min self + x_max self) / 2.
Definition y_mid (self : QuadtreeNode) : Q := (y_min self + y_max self) / 2.

Definition fresh_nw (self : QuadtreeNode) : QuadtreeNode :=
  new_node (x_min self) (x_mid self) (y_mid self) (y_max self)
           (capacity self) (depth self + 1) (max_depth self).
Definition fresh_ne (self : QuadtreeNode) : QuadtreeNode :=
  new_node (x_mid self) (x_max self) (y_mid self) (y_max self)
           (capacity self) (depth self + 1) (max_depth self).
Definition fresh_sw (self : QuadtreeNode) : QuadtreeNode :=
  new_node (x_min self) (x_mid self) (y_min self) (y_mid self)
           (capacity self) (depth self + 1) (max_depth self).
Definition fresh_se (self : QuadtreeNode) : QuadtreeNode :=
  new_node (x_mid self) (x_max self) (y_min self) (y_mid self)
           (capacity self) (depth self + 1) (max_depth self).

(** [subdivide], [_insert_to_child] and the body of [insert] call [insert]
    on children; they are written over the recursive call [rec]. *)
Section Bodies.

Variable rec : QuadtreeNode -> Q -> Q -> Z -> option (list Q) ->
               result (bool * QuadtreeNode).

(** [QuadtreeNode._insert_to_child] *)
Definition insert_to_child_body (self : QuadtreeNode) (point : Point)
  : result (bool * QuadtreeNode) :=
  let '(x, y, idx, full_data) := point in
  c_nw <- child (nw self) ;;
  if contains c_nw x y then
    '(r, c') <- rec c_nw x y idx full_data ;; Ok (r, set_nw self c')
  else
  c_ne <- child (ne self) ;;
  if contains c_ne x y then
    '(r, c') <- rec c_ne x y idx full_data ;; Ok (r, set_ne self c')
  else
  c_sw <- child (sw self) ;;
  if contains c_sw x y then
    '(r, c') <- rec c_sw x y idx full_data ;; Ok (r, set_sw self c')
  else
  c_se <- child (se self) ;;
  if contains c_se x y then
    '(r, c') <- rec c_se x y idx full_data ;; Ok (r, set_se self c')
  else Ok (false, self).

(** The loop [for point in self.points: self._insert_to_child(point)];
    the results of the calls are dropped. *)
Fixpoint redistribute (self : QuadtreeNode) (ps : list Point)
  : result QuadtreeNode :=
  match ps with
  | [] => Ok self
  | p :: ps' =>
      '(_, self') <- insert_to_child_body self p ;;
      redistribute self' ps'
  end.

(** [QuadtreeNode.subdivide] *)
Definition subdivide_body (self : QuadtreeNode) : result QuadtreeNode :=
  if (max_depth self <=? depth self)%Z then Ok self
  else if coincident (points self) then Ok self
  else
    let divided :=
      mkNode (x_min self) (x_max self) (y_min self) (y_max self)
             (capacity self) (depth self) (max_depth self)
             (points self) true
             (Some (fresh_nw self)) (Some (fresh_ne self))
             (Some (fresh_sw self)) (Some (fresh_se self)) in
    self' <- redistribute divided (points self) ;;
    Ok (set_points self' []).

(** [QuadtreeNode.insert] *)
Definition insert_body (self : QuadtreeNode) (x y : Q) (index : Z)
           (full_data : option (list Q)) : result (bool * QuadtreeNode) :=
  if negb (contains self x y) then Ok (false, self)
  else if negb (is_divided self) then
    if (Z.of_nat (length (points self)) <? capacity self)%Z then
      Ok (true, set_points self (points self ++ [(x, y, index, full_data)]))
    else if (max_depth self <=? depth self)%Z then
      Ok (true, set_points self (points self ++ [(x, y, index, full_data)]))
    else
      self' <- subdivide_body self ;;
      if negb (is_divided self') then
        Ok (true, set_points self' (points self' ++ [(x, y, index, full_data)]))
      else insert_to_child_body self' (x, y, index, full_data)
  else insert_to_child_body self (x, y, index, full_data).

End Bodies.

Fixpoint insert (fuel : nat) (self : QuadtreeNode) (x y : Q) (index : Z)
         (full_data : option (list Q)) : result (bool * QuadtreeNode) :=
  match fuel with
  | O => OutOfFuel
  | S fuel' => insert_body (insert fuel') self x y index full_data
  end.

(** The methods as seen from a caller whose own frame has budget [fuel]
    for the [insert] calls it makes. *)
Definition _insert_to_child (fuel : nat) := insert_to_child_body (insert fuel).
Definition subdivide (fuel : nat) := subdivide_body (insert fuel).

(** [QuadtreeNode.query_range] *)
Definition in_range (qx_min qx_max qy_min qy_max : Q) (p : Point) : bool :=
  (Qle_bool qx_min (point_x p) && Qle_bool (point_x p) qx_max) &&
  (Qle_bool qy_min (point_y p) && Qle_bool (point_y p) qy_max).

Definition scan (qx_min qx_max qy_min qy_max : Q) (ps : list Point) : list Z :=
  map point_idx (filter (in_range qx_min qx_max qy_min qy_max) ps).

Fixpoint query_range (self : QuadtreeNode) (qx_min qx_max qy_min qy_max : Q)
  : result (list Z) :=
  if negb (intersects self qx_min qx_max qy_min qy_max) then Ok []
  else
    let results := scan qx_min qx_max qy_min qy_max (points self) in
    if is_divided self then
      let q (c : option QuadtreeNode) : result (list Z) :=
        match c with
        | Some n => query_range n qx_min qx_max qy_min qy_max
        | None => Raise AttributeError
        end in
      r_nw <- q (nw self) ;;
      r_ne <- q (ne self) ;;
      r_sw <- q (sw self) ;;
      r_se <- q (se self) ;;
      Ok (results ++ r_nw ++ r_ne ++ r_sw ++ r_se)
    else Ok results.

(** ** The index *)

(** A two-dimensional numpy array of floats, as the list of its rows. *)
Definition ndarray : Type := list (list Q).

(** [points.shape[1]] *)
Definition shape1 (points : ndarray) : nat :=
  match points with
  | [] => O
  | row :: _ => length row
  end.

(** numpy's index along an axis of length [n]: negative indices count from
    the end, anything else out of range raises. *)
Definition norm_index (n : nat) (i : Z) : result nat :=
  if ((0 <=? i) && (i <? Z.of_nat n))%Z then Ok (Z.to_nat i)
  else if ((- Z.of_nat n <=? i) && (i <? 0))%Z then Ok (Z.to_nat (Z.of_nat n + i))
  else Raise IndexError.

Definition getitem {A : Type} (xs : list A) (i : nat) : result A :=
  match nth_error xs i with
  | Some a => Ok a
  | None => Raise IndexError
  end.

Fixpoint mapM {A B : Type} (f : A -> result B) (xs : list A) : result (list B) :=
  match xs with
  | [] => Ok []
  | a :: xs' => b <- f a ;; bs <- mapM f xs' ;; Ok (b :: bs)
  end.

(** [points[:, d]] *)
Definition column (points : ndarray) (d : Z) : result (list Q) :=
  j <- norm_index (shape1 points) d ;;
  mapM (fun row => getitem row j) points.

(** [a.min()] and [a.max()]; both raise on an empty array. *)
Definition array_min (xs : list Q) : result Q :=
  match xs with
  | [] => Raise ValueError
  | x :: xs' => Ok (fold_left (fun m v => if Qlt_bool v m then v else m) xs' x)
  end.

Definition array_max (xs : list Q) : result Q :=
  match xs with
  | [] => Raise ValueError
  | x :: xs' => Ok (fold_left (fun m v => if Qlt_bool m v then v else m) xs' x)
  end.

(** [np.arange(n)] *)
Definition arange (n : nat) : list Z := map Z.of_nat (seq 0 n).

Record Quadtree : Type := mkQuadtree {
  x_dim : Z;
  y_dim : Z;
  tree_capacity : Z;
  tree_max_depth : Z;
  root : option QuadtreeNode;
  size : Z
}.

(** [Quadtree.__init__]; the defaults of the source are
    [new_quadtree 0 1 50 25]. *)
Definition new_quadtree (xd yd cap maxd : Z) : Quadtree :=
  mkQuadtree xd yd cap maxd None 0.

(** The loop [for i, idx in enumerate(indices)] of [build], from position
    [i] on; the result of each [insert] is dropped. *)
Fixpoint build_loop (fuel : nat) (points : ndarray) (x_coords y_coords : list Q)
         (node : QuadtreeNode) (sz : Z) (i : nat) (indices : list Z)
  : result (QuadtreeNode * Z) :=
  match indices with
  | [] => Ok (node, sz)
  | idx :: rest =>
      full_data <- (if (2 <? shape1 points)%nat
                    then row <- getitem points i ;; Ok (Some row)
                    else Ok None) ;;
      x <- getitem x_coords i ;;
      y <- getitem y_coords i ;;
      '(_, node') <- insert fuel node x y idx full_data ;;
      build_loop fuel points x_coords y_coords node' (sz + 1)%Z (S i) rest
  end.

(** The root region computed by [build]: the bounding box of the two
    coordinate columns, padded by [pad_ratio] of the extent on each side. *)
Definition build_root (self : Quadtree) (x_coords y_coords : list Q)
  : result QuadtreeNode :=
  xmin <- array_min x_coords ;;
  xmax <- array_max x_coords ;;
  ymin <- array_min y_coords ;;
  ymax <- array_max y_coords ;;
  let x_padding := (xmax - xmin) * pad_ratio in
  let y_padding := (ymax - ymin) * pad_ratio in
  Ok (new_node (xmin - x_padding) (xmax + x_padding)
               (ymin - y_padding) (ymax + y_padding)
               (tree_capacity self) 0 (tree_max_depth self)).

(** [Quadtree.build] *)
Definition build (fuel : nat) (self : Quadtree) (points : ndarray)
           (indices : option (list Z)) : result Quadtree :=
  let indices :=
    match indices with
    | None => arange (length points)
    | Some l => l
    end in
  x_coords <- column points (x_dim self) ;;
  y_coords <- column points (y_dim self) ;;
  node <- build_root self x_coords y_coords ;;
  '(node', sz) <- build_loop fuel points x_coords y_coords node (size self) 0 indices ;;
  Ok (mkQuadtree (x_dim self) (y_dim self) (tree_capacity self)
                 (tree_max_depth self) (Some node') sz).

(** [Quadtree.query_range] *)
Definition tree_query_range (self : Quadtree) (x_range y_range : Q * Q)
  : result (list Z) :=
  match root self with
  | None => Ok []
  | Some r => query_range r (fst x_range) (snd x_range) (fst y_range) (snd y_range)
  end.

(** [Quadtree._get_depth_recursive] on a node that is not [None]. *)
Fixpoint node_levels (node : QuadtreeNode) : Z :=
  if negb (is_divided node) then 1%Z
  else
    let d (c : option QuadtreeNode) : Z :=
      match c with
      | Some n => node_levels n
      | None => 1%Z
      end in
    (1 + Z.max (Z.max (Z.max (d (nw node)) (d (ne node))) (d (sw node))) (d (se node)))%Z.

(** [Quadtree._get_depth_recursive] *)
Definition _get_depth_recursive (node : option QuadtreeNode) : Z :=
  match node with
  | Some n => node_levels n
  | None => 1%Z
  end.

(** [Quadtree.get_depth] *)
Definition get_depth (self : Quadtree) : Z := _get_depth_recursive (root self).

(** ** Invariants of the tree *)

(** The attributes of a node that no method changes after [__init__]. *)
Definition frame (n : QuadtreeNode) : Q * Q * Q * Q * Z * Z * Z :=
  (x_min n, x_max n, y_min n, y_max n, capacity n, depth n, max_depth n).

(** A point lies in a query box, bounds included. *)
Definition within (qx_min qx_max qy_min qy_max : Q) (x y : Q) : Prop :=
  qx_min <= x /\ x <= qx_max /\ qy_min <= y /\ y <= qy_max.

(** The state of the four children of a divided node: all present, each on
    the quadrant [subdivide] gave it, each satisfying [P]. *)
Definition children_ok (P : QuadtreeNode -> Prop) (n : QuadtreeNode) : Prop :=
  match nw n, ne n, sw n, se n with
  | Some a, Some b, Some c, Some d =>
      (frame a = frame (fresh_nw n) /\ frame b = frame (fresh_ne n) /\
       frame c = frame (fresh_sw n) /\ frame d = frame (fresh_se n)) /\
      (P a /\ P b /\ P c /\ P d)
  | _, _, _, _ => False
  end.

Definition no_children (n : QuadtreeNode) : Prop :=
  nw n = None /\ ne n = None /\ sw n = None /\ se n = None.

(** The partition invariant: a node is a leaf without children, or a divided
    node without points of its own, below the maximum depth, whose four
    children are the midpoint quadrants and satisfy the invariant. *)
Fixpoint partition_inv (n : QuadtreeNode) : Prop :=
  if is_divided n then
    points n = [] /\ (depth n < max_depth n)%Z /\ children_ok partition_inv n
  else no_children n.

(** Everything stored in a node and below it, in the order [query_range]
    visits it. *)
Fixpoint contents (n : QuadtreeNode) : list Point :=
  let oc (c : option QuadtreeNode) : list Point :=
    match c with
    | Some m => contents m
    | None => []
    end in
  points n ++ oc (nw n) ++ oc (ne n) ++ oc (sw n) ++ oc (se n).

Definition child_contents (c : option QuadtreeNode) : list Point :=
  match c with
  | Some m => contents m
  | None => []
  end.

Definition sub_contents (n : QuadtreeNode) : list Point :=
  child_contents (nw n) ++ child_contents (ne n) ++
  child_contents (sw n) ++ child_contents (se n).

Definition holds (n : QuadtreeNode) (p : Point) : Prop :=
  contains n (point_x p) (point_y p) = true.

Definition opt_all (P : QuadtreeNode -> Prop) (c : option QuadtreeNode) : Prop :=
  match c with
  | Some m => P m
  | None => True
  end.

(** Every point stored in or below a node lies in the node's region, and
    so on for each child. *)
Fixpoint inside_inv (n : QuadtreeNode) : Prop :=
  Forall (holds n) (contents n) /\
  opt_all inside_inv (nw n) /\ opt_all inside_inv (ne n) /\
  opt_all inside_inv (sw n) /\ opt_all inside_inv (se n).

(** The recursion budget that [insert] needs on a node. *)
Definition fits (fuel : nat) (n : QuadtreeNode) : Prop :=
  (Z.to_nat (max_depth n - depth n) < fuel)%nat.

(** Nodes obtained from [QuadtreeNode.__init__] or as the root left by
    [Quadtree.build], and then by calls of [insert]. *)
Inductive reachable : QuadtreeNode -> Prop :=
| reach_new : forall xmin xmax ymin ymax cap d maxd,
    reachable (new_node xmin xmax ymin ymax cap d maxd)
| reach_build : forall fuel self pts indices t r,
    build fuel self pts indices = Ok t -> root t = Some r -> reachable r
| reach_insert : forall fuel n x y idx fd b n',
    reachable n -> insert fuel n x y idx fd = Ok (b, n') -> reachable n'.

(** [m] is [n] or a node below [n]. *)
Inductive subnode (m : QuadtreeNode) : QuadtreeNode -> Prop :=
| sub_refl : subnode m m
| sub_nw : forall n c, nw n = Some c -> subnode m c -> subnode m n
| sub_ne : forall n c, ne n = Some c -> subnode m c -> subnode m n
| sub_sw : forall n c, sw n = Some c -> subnode m c -> subnode m n
| sub_se : forall n c, se n = Some c -> subnode m c -> subnode m n.


Definition children_inside (n : QuadtreeNode) : Prop :=
  opt_all inside_inv (nw n) /\ opt_all inside_inv (ne n) /\
  opt_all inside_inv (sw n) /\ opt_all inside_inv (se n).

(** What a call [insert(x, y, idx, fd)] on [n] returns: the answer of
    [contains], a node on the same region that satisfies the partition
    invariant, unchanged on failure and one point richer on success. *)
Definition insert_post (n : QuadtreeNode) (x y : Q) (idx : Z)
           (fd : option (list Q)) (r : result (bool * QuadtreeNode)) : Prop :=
  exists n',
    r = Ok (contains n x y, n') /\
    frame n' = frame n /\
    partition_inv n' /\
    (contains n x y = false -> n' = n) /\
    (inside_inv n -> contains n x y = true ->
     inside_inv n' /\ Permutation (contents n') ((x, y, idx, fd) :: contents n)).

(** ** Sequences of calls *)

(** A sequence of [insert] calls on one node, one per point of [ps], with
    the list of their return values. *)
Fixpoint insert_all (fuel : nat) (n : QuadtreeNode) (ps : list Point)
  : result (list bool * QuadtreeNode) :=
  match ps with
  | [] => Ok ([], n)
  | p :: ps' =>
      let '(x, y, idx, fd) := p in
      '(b, n1) <- insert fuel n x y idx fd ;;
      '(bs, n2) <- insert_all fuel n1 ps' ;;
      Ok (b :: bs, n2)
  end.

Definition holdsb (n : QuadtreeNode) (p : Point) : bool :=
  contains n (point_x p) (point_y p).

(** The arguments of the [insert] calls that the loop of [build] makes from
    position [i] on. *)
Fixpoint loop_points (points : ndarray) (x_coords y_coords : list Q)
         (i : nat) (indices : list Z) : list Point :=
  match indices with
  | [] => []
  | idx :: rest =>
      (nth i x_coords 0, nth i y_coords 0, idx,
       if (2 <? shape1 points)%nat then Some (nth i points []) else None)
      :: loop_points points x_coords y_coords (S i) rest
  end.

(** The identifiers [build] uses: [indices], or [np.arange(len(points))]. *)
Definition build_indices (points : ndarray) (indices : option (list Z)) : list Z :=
  match indices with
  | None => arange (length points)
  | Some l => l
  end.

Definition row2 (x y : Z) : list Q := [inject_Z x; inject_Z y].

(** The unit square with the default capacity and depth limit, used in the
    sample runs. *)
Definition unit_node : QuadtreeNode := new_node 0 1 0 1 50 0 25.

(** A square of capacity one after two inserts: a divided node. *)
Definition two_point_node : QuadtreeNode :=
  match insert_all 2 (new_node 0 1 0 1 1 0 25)
                   [(0, 0, 0%Z, None); (1, 1, 1%Z, None)] with
  | Ok (_, n) => n
  | _ => unit_node
  end.

(** ** Regions and children *)

Definition region (n : QuadtreeNode) : Q * Q * Q * Q :=
  (x_min n, x_max n, y_min n, y_max n).

Definition has_children (m : QuadtreeNode) : Prop :=
  nw m <> None \/ ne m <> None \/ sw m <> None \/ se m <> None.

Definition one_point_node : QuadtreeNode :=
  set_points (new_node 0 1 0 1 1 0 25) [(0, 0, 0%Z, None)].

(** The children of a node that are present. *)
Definition children (m : QuadtreeNode) : list (option QuadtreeNode) :=
  [nw m; ne m; sw m; se m].

(** A recursion budget that suffices for [insert] on any node, whatever
    its shape: one frame per level already present, and below a leaf one
    frame per level that [subdivide] may still create. *)
Fixpoint budget (n : QuadtreeNode) : nat :=
  let ob (c : option QuadtreeNode) : nat :=
    match c with
    | Some m => budget m
    | None => O
    end in
  S (Nat.max (Z.to_nat (max_depth n - depth n))
             (Nat.max (Nat.max (ob (nw n)) (ob (ne n)))
                      (Nat.max (ob (sw n)) (ob (se n))))).

Definition returns {A : Type} (r : result A) : Prop := r <> OutOfFuel.

(** ** The bounding box of [build] *)

Definition is_min (m : Q) (xs : list Q) : Prop :=
  In m xs /\ forall x, In x xs -> m <= x.

Definition is_max (m : Q) (xs : list Q) : Prop :=
  In m xs /\ forall x, In x xs -> x <= m.

(** The region [lo - 1% (hi - lo), hi + 1% (hi - lo)] on both axes. *)
Definition padded_box (xlo xhi ylo yhi : Q) : Q * Q * Q * Q :=
  (xlo - (xhi - xlo) * pad_ratio, xhi + (xhi - xlo) * pad_ratio,
   ylo - (yhi - ylo) * pad_ratio, yhi + (yhi - ylo) * pad_ratio).

(** Two records on the diagonal of the unit square. *)
Definition two_rows : ndarray := [row2 0 0; row2 1 1].

(** The index built from [two_rows] with [capacity = 1], [max_depth = 1]. *)
Definition split_once_tree : Quadtree :=
  match build 2 (new_quadtree 0 1 1 1) two_rows None with
  | Ok t => t
  | _ => new_quadtree 0 1 1 1
  end.

(** ** Coincident points *)

(** [q] is within [eps] of [p0] on both axes: the test of [subdivide]. *)
Definition near (p0 q : Point) : Prop :=
  Qabs (point_x q - point_x p0) < eps /\ Qabs (point_y q - point_y p0) < eps.

(** Two records at the origin. *)
Definition same_rows : ndarray := [row2 0 0; row2 0 0].

(** The index built from [same_rows] with [capacity = 1] and the default
    [max_depth = 25]. *)
Definition same_rows_tree : Quadtree :=
  match build 26 (new_quadtree 0 1 1 25) same_rows None with
  | Ok t => t
  | _ => new_quadtree 0 1 1 25
  end.

(** ** Proof automation *)

Ltac unmid :=
  unfold x_mid, y_mid, Qdiv in *; change (/ 2) with (1 # 2) in *.

(** One branch of [_insert_to_child] in a hypothesis [H] about the body over
    [rec1], given [le] that transports results of [rec1] to [rec2]. *)
Ltac step_child rec1 le H :=
  match type of H with
  | context [child ?c] => destruct c; cbn [child bind] in H |- *; [|discriminate H]
  end;
  match type of H with
  | context [contains ?a ?x ?y] => destruct (contains a x y)
  end;
  [ match type of H with
    | context [rec1 ?a ?x ?y ?i ?d] =>
        let E := fresh "E" in
        destruct (rec1 a x y i d) eqn:E; cbn [bind] in H; try discriminate H;
        rewrite (le _ _ _ _ _ _ E); exact H
    end | ].


(** Five records on the diagonal, as in the end-to-end scenario. *)
Definition five_rows : ndarray :=
  [row2 0 0; row2 1 1; row2 5 5; row2 9 9; row2 10 10].

(** ** Column numbers *)

(** [d] is a valid column number for an array with [ncols] columns,
    counting from the start or, when negative, from the end. *)
Definition valid_column (ncols : nat) (d : Z) : Prop :=
  (- Z.of_nat ncols <= d < Z.of_nat ncols)%Z.

(** Two records with a single attribute. *)
Definition narrow_rows : ndarray := [[0]; [1]].

(** ** Capacity *)

(** An undivided node holds at most [capacity] points, unless it is at the
    maximum depth or all its points but the last pass the coincidence test
    of [subdivide]. *)
Definition leaf_cap (n : QuadtreeNode) : Prop :=
  is_divided n = false ->
  (Z.of_nat (length (points n)) <= Z.max 0 (capacity n))%Z \/
  (max_depth n <= depth n)%Z \/
  coincident (removelast (points n)) = true.

Fixpoint cap_inv (n : QuadtreeNode) : Prop :=
  leaf_cap n /\
  opt_all cap_inv (nw n) /\ opt_all cap_inv (ne n) /\
  opt_all cap_inv (sw n) /\ opt_all cap_inv (se n).

(** One branch of [_insert_to_child] in a hypothesis [H] about the body
    over [rec], inverted down to the result of the recursive call. *)
Ltac invert_child rec H :=
  match type of H with
  | context [child ?c] =>
      let E := fresh "Ec" in
      destruct c eqn:E; cbn [child bind] in H; [|discriminate H]
  end;
  match type of H with
  | context [contains ?a ?x ?y] => destruct (contains a x y)
  end;
  [ match type of H with
    | context [rec ?a ?x ?y ?i ?d] =>
        let E := fresh "Er" in
        destruct (rec a x y i d) as [[? ?]| |] eqn:E; cbn [bind] in H;
        try discriminate H; injection H as <- <-
    end | ].

(** A square of capacity two after three inserts at the origin. *)
Definition crowded_node : QuadtreeNode :=
  set_points (new_node 0 1 0 1 2 0 25)
             [(0, 0, 0%Z, None); (0, 0, 1%Z, None); (0, 0, 2%Z, None)].

(** ** [subdivide] on a divided node *)

(** The node [subdivide] makes of [n] before redistributing: divided, with
    four empty children. *)
Definition emptied (n : QuadtreeNode) : QuadtreeNode :=
  mkNode (x_min n) (x_max n) (y_min n) (y_max n)
         (capacity n) (depth n) (max_depth n) [] true
         (Some (fresh_nw n)) (Some (fresh_ne n))
         (Some (fresh_sw n)) (Some (fresh_se n)).

(** * The same module over IEEE binary64 coordinates

    The definitions above compute with exact rationals, which agrees with
    Python as long as a property rests on comparisons only.  Where overflow
    to an infinity or a NaN decides the outcome, the functions are embedded
    a second time with the coordinates as binary64 floats (Rocq's primitive
    floats: the arithmetic and comparisons of Python's [float] and of
    numpy's [float64], with the literals [0.01], [1e-10] and [2] rounded as
    Python reads them).  Control flow and names are those of the first
    embedding; [np.min]/[np.max] propagate NaN as numpy's reductions do. *)

From Stdlib Require Import Floats.

Module F64.

#[local] Set Warnings "-inexact-float".
#[local] Set Warnings "-register-all".
Local Open Scope float_scope.

(** The literal [1e-10] of [subdivide]. *)
Definition eps : float := 1e-10.

(** The literal [0.01] of [Quadtree.build]. *)
Definition pad_ratio : float := 0.01.

(** The tuple [(x, y, index, full_data)] kept in [points]. *)
Definition Point : Type := float * float * Z * option (list float).

Definition point_x (p : Point) : float := fst (fst (fst p)).
Definition point_y (p : Point) : float := snd (fst (fst p)).
Definition point_idx (p : Point) : Z := snd (fst p).

Inductive QuadtreeNode : Type := mkNode {
  x_min : float;
  x_max : float;
  y_min : float;
  y_max : float;
  capacity : Z;
  depth : Z;
  max_depth : Z;
  points : list Point;
  is_divided : bool;
  nw : option QuadtreeNode;
  ne : option QuadtreeNode;
  sw : option QuadtreeNode;
  se : option QuadtreeNode
}.

(** [QuadtreeNode.__init__] *)
Definition new_node (xmin xmax ymin ymax : float) (cap d maxd : Z) : QuadtreeNode :=
  mkNode xmin xmax ymin ymax cap d maxd [] false None None None None.

Definition set_points (self : QuadtreeNode) (ps : list Point) : QuadtreeNode :=
  mkNode (x_min self) (x_max self) (y_min self) (y_max self)
         (capacity self) (depth self) (max_depth self)
         ps (is_divided self) (nw self) (ne self) (sw self) (se self).

Definition set_nw (self : QuadtreeNode) (c : QuadtreeNode) : QuadtreeNode :=
  mkNode (x_min self) (x_max self) (y_min self) (y_max self)
         (capacity self) (depth self) (max_depth self)
         (points self) (is_divided self) (Some c) (ne self) (sw self) (se self).

Definition set_ne (self : QuadtreeNode) (c : QuadtreeNode) : QuadtreeNode :=
  mkNode (x_min self) (x_max self) (y_min self) (y_max self)
         (capacity self) (depth self) (max_depth self)
         (points self) (is_divided self) (nw self) (Some c) (sw self) (se self).

Definition set_sw (self : QuadtreeNode) (c : QuadtreeNode) : QuadtreeNode :=
  mkNode (x_min self) (x_max self) (y_min self) (y_max self)
         (capacity self) (depth self) (max_depth self)
         (points self) (is_divided self) (nw self) (ne self) (Some c) (se self).

Definition set_se (self : QuadtreeNode) (c : QuadtreeNode) : QuadtreeNode :=
  mkNode (x_min self) (x_max self) (y_min self) (y_max self)
         (capacity self) (depth self) (max_depth self)
         (points self) (is_divided self) (nw self) (ne self) (sw self) (Some c).

(** [self.attr] on an optional child: [None] has no attributes. *)
Definition child (c : option QuadtreeNode) : result QuadtreeNode :=
  match c with
  | Some n => Ok n
  | None => Raise AttributeError
  end.

(** [QuadtreeNode.contains] *)
Definition contains (self : QuadtreeNode) (x y : float) : bool :=
  ((x_min self <=? x) && (x <=? x_max self)) &&
  ((y_min self <=? y) && (y <=? y_max self)).

(** [QuadtreeNode.intersects] *)
Definition intersects (self : QuadtreeNode) (qx_min qx_max qy_min qy_max : float)
  : bool :=
  negb ((qx_max <? x_min self) || (x_max self <? qx_min) ||
        (qy_max <? y_min self) || (y_max self <? qy_min)).

(** The test [all(abs(p[0] - first_x) < 1e-10 and abs(p[1] - first_y) < 1e-10
    for p in self.points)] of [subdivide]. *)
Definition all_same (first_x first_y : float) (ps : list Point) : bool :=
  forallb (fun p => (abs (point_x p - first_x) <? eps) &&
                    (abs (point_y p - first_y) <? eps)) ps.

Definition coincident (ps : list Point) : bool :=
  match ps with
  | p0 :: _ :: _ => all_same (point_x p0) (point_y p0) ps
  | _ => false
  end.

Definition x_mid (self : QuadtreeNode) : float := (x_min self + x_max self) / 2.
Definition y_mid (self : QuadtreeNode) : float := (y_min self + y_max self) / 2.

Definition fresh_nw (self : QuadtreeNode) : QuadtreeNode :=
  new_node (x_min self) (x_mid self) (y_mid self) (y_max self)
           (capacity self) (depth self + 1) (max_depth self).
Definition fresh_ne (self : QuadtreeNode) : QuadtreeNode :=
  new_node (x_mid self) (x_max self) (y_mid self) (y_max self)
           (capacity self) (depth self + 1) (max_depth self).
Definition fresh_sw (self : QuadtreeNode) : QuadtreeNode :=
  new_node (x_min self) (x_mid self) (y_min self) (y_mid self)
           (capacity self) (depth self + 1) (max_depth self).
Definition fresh_se (self : QuadtreeNode) : QuadtreeNode :=
  new_node (x_mid self) (x_max self) (y_min self) (y_mid self)
           (capacity self) (depth self + 1) (max_depth self).

Section Bodies.

Variable rec : QuadtreeNode -> float -> float -> Z -> option (list float) ->
               result (bool * QuadtreeNode).

(** [QuadtreeNode._insert_to_child] *)
Definition insert_to_child_body (self : QuadtreeNode) (point : Point)
  : result (bool * QuadtreeNode) :=
  let '(x, y, idx, full_data) := point in
  c_nw <- child (nw self) ;;
  if contains c_nw x y then
    '(r, c') <- rec c_nw x y idx full_data ;; Ok (r, set_nw self c')
  else
  c_ne <- child (ne self) ;;
  if contains c_ne x y then
    '(r, c') <- rec c_ne x y idx full_data ;; Ok (r, set_ne self c')
  else
  c_sw <- child (sw self) ;;
  if contains c_sw x y then
    '(r, c') <- rec c_sw x y idx full_data ;; Ok (r, set_sw self c')
  else
  c_se <- child (se self) ;;
  if contains c_se x y then
    '(r, c') <- rec c_se x y idx full_data ;; Ok (r, set_se self c')
  else Ok (false, self).

(** The loop [for point in self.points: self._insert_to_child(point)];
    the results of the calls are dropped. *)
Fixpoint redistribute (self : QuadtreeNode) (ps : list Point)
  : result QuadtreeNode :=
  match ps with
  | [] => Ok self
  | p :: ps' =>
      '(_, self') <- insert_to_child_body self p ;;
      redistribute self' ps'
  end.

(** [QuadtreeNode.subdivide] *)
Definition subdivide_body (self : QuadtreeNode) : result QuadtreeNode :=
  if (max_depth self <=? depth self)%Z then Ok self
  else if coincident (points self) then Ok self
  else
    let divided :=
      mkNode (x_min self) (x_max self) (y_min self) (y_max self)
             (capacity self) (depth self) (max_depth self)
             (points self) true
             (Some (fresh_nw self)) (Some (fresh_ne self))
             (Some (fresh_sw self)) (Some (fresh_se self)) in
    self' <- redistribute divided (points self) ;;
    Ok (set_points self' []).

(** [QuadtreeNode.insert] *)
Definition insert_body (self : QuadtreeNode) (x y : float) (index : Z)
           (full_data : option (list float)) : result (bool * QuadtreeNode) :=
  if negb (contains self x y) then Ok (false, self)
  else if negb (is_divided self) then
    if (Z.of_nat (length (points self)) <? capacity self)%Z then
      Ok (true, set_points self (points self ++ [(x, y, index, full_data)]))
    else if (max_depth self <=? depth self)%Z then
      Ok (true, set_points self (points self ++ [(x, y, index, full_data)]))
    else
      self' <- subdivide_body self ;;
      if negb (is_divided self') then
        Ok (true, set_points self' (points self' ++ [(x, y, index, full_data)]))
      else insert_to_child_body self' (x, y, index, full_data)
  else insert_to_child_body self (x, y, index, full_data).

End Bodies.

Fixpoint insert (fuel : nat) (self : QuadtreeNode) (x y : float) (index : Z)
         (full_data : option (list float)) : result (bool * QuadtreeNode) :=
  match fuel with
  | O => OutOfFuel
  | S fuel' => insert_body (insert fuel') self x y index full_data
  end.

Definition _insert_to_child (fuel : nat) := insert_to_child_body (insert fuel).
Definition subdivide (fuel : nat) := subdivide_body (insert fuel).

(** [QuadtreeNode.query_range] *)
Definition in_range (qx_min qx_max qy_min qy_max : float) (p : Point) : bool :=
  ((qx_min <=? point_x p) && (point_x p <=? qx_max)) &&
  ((qy_min <=? point_y p) && (point_y p <=? qy_max)).

Definition scan (qx_min qx_max qy_min qy_max : float) (ps : list Point) : list Z :=
  map point_idx (filter (in_range qx_min qx_max qy_min qy_max) ps).

Fixpoint query_range (self : QuadtreeNode) (qx_min qx_max qy_min qy_max : float)
  : result (list Z) :=
  if negb (intersects self qx_min qx_max qy_min qy_max) then Ok []
  else
    let results := scan qx_min qx_max qy_min qy_max (points self) in
    if is_divided self then
      let q (c : option QuadtreeNode) : result (list Z) :=
        match c with
        | Some n => query_range n qx_min qx_max qy_min qy_max
        | None => Raise AttributeError
        end in
      r_nw <- q (nw self) ;;
      r_ne <- q (ne self) ;;
      r_sw <- q (sw self) ;;
      r_se <- q (se self) ;;
      Ok (results ++ r_nw ++ r_ne ++ r_sw ++ r_se)
    else Ok results.

(** [QuadtreeNode.query_point] *)
Definition query_point (self : QuadtreeNode) (x y tolerance : float)
  : result (list Z) :=
  query_range self (x - tolerance) (x + tolerance) (y - tolerance) (y + tolerance).

(** A two-dimensional numpy array of floats: [shape[1]] and the rows. *)
Record ndarray : Type := mkArray {
  ncols : nat;
  rows : list (list float)
}.

(** [points[:, d]] *)
Definition column (points : ndarray) (d : Z) : result (list float) :=
  j <- norm_index (ncols points) d ;;
  mapM (fun row => getitem row j) (rows points).

(** [a.min()] and [a.max()]: numpy's [minimum] and [maximum] reduced from
    the first element, which return NaN as soon as one is met; both raise
    on an empty array. *)
Definition array_min (xs : list float) : result float :=
  match xs with
  | [] => Raise ValueError
  | x :: xs' => Ok (fold_left (fun m v => if (m <? v) || is_nan m then m else v) xs' x)
  end.

Definition array_max (xs : list float) : result float :=
  match xs with
  | [] => Raise ValueError
  | x :: xs' => Ok (fold_left (fun m v => if (v <? m) || is_nan m then m else v) xs' x)
  end.

Record Quadtree : Type := mkQuadtree {
  x_dim : Z;
  y_dim : Z;
  tree_capacity : Z;
  tree_max_depth : Z;
  root : option QuadtreeNode;
  size : Z
}.

(** [Quadtree.__init__] *)
Definition new_quadtree (xd yd cap maxd : Z) : Quadtree :=
  mkQuadtree xd yd cap maxd None 0.

Fixpoint build_loop (fuel : nat) (points : ndarray) (x_coords y_coords : list float)
         (node : QuadtreeNode) (sz : Z) (i : nat) (indices : list Z)
  : result (QuadtreeNode * Z) :=
  match indices with
  | [] => Ok (node, sz)
  | idx :: rest =>
      full_data <- (if (2 <? ncols points)%nat
                    then row <- getitem (rows points) i ;; Ok (Some row)
                    else Ok None) ;;
      x <- getitem x_coords i ;;
      y <- getitem y_coords i ;;
      '(_, node') <- insert fuel node x y idx full_data ;;
      build_loop fuel points x_coords y_coords node' (sz + 1)%Z (S i) rest
  end.

(** The root that [build] creates for the two coordinate columns. *)
Definition build_root (self : Quadtree) (x_coords y_coords : list float)
  : result QuadtreeNode :=
  xmin <- array_min x_coords ;;
  xmax <- array_max x_coords ;;
  ymin <- array_min y_coords ;;
  ymax <- array_max y_coords ;;
  let x_padding := (xmax - xmin) * pad_ratio in
  let y_padding := (ymax - ymin) * pad_ratio in
  Ok (new_node (xmin - x_padding) (xmax + x_padding)
               (ymin - y_padding) (ymax + y_padding)
               (tree_capacity self) 0 (tree_max_depth self)).

(** [Quadtree.build] *)
Definition build (fuel : nat) (self : Quadtree) (points : ndarray)
           (indices : option (list Z)) : result Quadtree :=
  let indices :=
    match indices with
    | None => arange (length (rows points))
    | Some l => l
    end in
  x_coords <- column points (x_dim self) ;;
  y_coords <- column points (y_dim self) ;;
  node <- build_root self x_coords y_coords ;;
  '(node', sz) <- build_loop fuel points x_coords y_coords node (size self) 0 indices ;;
  Ok (mkQuadtree (x_dim self) (y_dim self) (tree_capacity self)
                 (tree_max_depth self) (Some node') sz).

(** [Quadtree.query_range] *)
Definition tree_query_range (self : Quadtree) (x_range y_range : float * float)
  : result (list Z) :=
  match root self with
  | None => Ok []
  | Some r => query_range r (fst x_range) (snd x_range) (fst y_range) (snd y_range)
  end.

(** [Quadtree.query_point] *)
Definition tree_query_point (self : Quadtree) (x y tolerance : float)
  : result (list Z) :=
  match root self with
  | None => Ok []
  | Some r => query_point r x y tolerance
  end.


(** ** Notions for the properties of the binary64 embedding *)

(** A key that orders the values that are not NaN as [SFcompare] does:
    class first, then exponent and mantissa. *)
Definition key (x : spec_float) : Z * Z * Z :=
  match x with
  | S754_infinity true => (0, 0, 0)%Z
  | S754_finite true m e => (1, - e, - Zpos m)%Z
  | S754_zero _ => (2, 0, 0)%Z
  | S754_finite false m e => (3, e, Zpos m)%Z
  | S754_infinity false => (4, 0, 0)%Z
  | S754_nan => (5, 0, 0)%Z
  end.

Definition key_le (k1 k2 : Z * Z * Z) : Prop :=
  let '(c1, e1, m1) := k1 in
  let '(c2, e2, m2) := k2 in
  (c1 < c2 \/ (c1 = c2 /\ (e1 < e2 \/ (e1 = e2 /\ m1 <= m2))))%Z.

Definition key_lt (k1 k2 : Z * Z * Z) : Prop :=
  let '(c1, e1, m1) := k1 in
  let '(c2, e2, m2) := k2 in
  (c1 < c2 \/ (c1 = c2 /\ (e1 < e2 \/ (e1 = e2 /\ m1 < m2))))%Z.

(** A value that is not NaN: [f <= f] in Python. *)
Definition ordered (f : float) : Prop := (f <=? f) = true.


(** The interval from [a] to [b] is the whole line: [a] is minus infinity
    and [b] is plus infinity, the one case in which the midpoint is NaN. *)
Definition unbounded_axis (a b : float) : bool :=
  (a <=? neg_infinity) && (infinity <=? b).

(** The midpoint as [subdivide] computes it. *)
Definition mid (a b : float) : float := (a + b) / 2.

(** ** Invariants of the tree *)

(** The attributes of a node that no method changes after [__init__]. *)
Definition frame (n : QuadtreeNode)
  : float * float * float * float * Z * Z * Z :=
  (x_min n, x_max n, y_min n, y_max n, capacity n, depth n, max_depth n).

(** A point lies in a query box, bounds included: the four comparisons of
    Python, all true. *)
Definition within (qx_min qx_max qy_min qy_max : float) (x y : float) : Prop :=
  (qx_min <=? x) = true /\ (x <=? qx_max) = true /\
  (qy_min <=? y) = true /\ (y <=? qy_max) = true.

(** The state of the four children of a divided node: all present, each on
    the quadrant [subdivide] gave it, each satisfying [P]. *)
Definition children_ok (P : QuadtreeNode -> Prop) (n : QuadtreeNode) : Prop :=
  match nw n, ne n, sw n, se n with
  | Some a, Some b, Some c, Some d =>
      (frame a = frame (fresh_nw n) /\ frame b = frame (fresh_ne n) /\
       frame c = frame (fresh_sw n) /\ frame d = frame (fresh_se n)) /\
      (P a /\ P b /\ P c /\ P d)
  | _, _, _, _ => False
  end.

Definition no_children (n : QuadtreeNode) : Prop :=
  nw n = None /\ ne n = None /\ sw n = None /\ se n = None.

(** The partition invariant: a node is a leaf without children, or a divided
    node without points of its own, below the maximum depth, whose four
    children are on the quadrants of the computed midpoints and satisfy the
    invariant. *)
Fixpoint partition_inv (n : QuadtreeNode) : Prop :=
  if is_divided n then
    points n = [] /\ (depth n < max_depth n)%Z /\ children_ok partition_inv n
  else no_children n.

(** Everything stored in a node and below it, in the order [query_range]
    visits it. *)
Fixpoint contents (n : QuadtreeNode) : list Point :=
  let oc (c : option QuadtreeNode) : list Point :=
    match c with
    | Some m => contents m
    | None => []
    end in
  points n ++ oc (nw n) ++ oc (ne n) ++ oc (sw n) ++ oc (se n).

Definition child_contents (c : option QuadtreeNode) : list Point :=
  match c with
  | Some m => contents m
  | None => []
  end.

Definition sub_contents (n : QuadtreeNode) : list Point :=
  child_contents (nw n) ++ child_contents (ne n) ++
  child_contents (sw n) ++ child_contents (se n).

Definition holds (n : QuadtreeNode) (p : Point) : Prop :=
  contains n (point_x p) (point_y p) = true.

Definition holdsb (n : QuadtreeNode) (p : Point) : bool :=
  contains n (point_x p) (point_y p).

Definition opt_all (P : QuadtreeNode -> Prop) (c : option QuadtreeNode) : Prop :=
  match c with
  | Some m => P m
  | None => True
  end.

(** Every point stored in or below a node lies in the node's region, and
    so on for each child. *)
Fixpoint inside_inv (n : QuadtreeNode) : Prop :=
  Forall (holds n) (contents n) /\
  opt_all inside_inv (nw n) /\ opt_all inside_inv (ne n) /\
  opt_all inside_inv (sw n) /\ opt_all inside_inv (se n).

Definition children_inside (n : QuadtreeNode) : Prop :=
  opt_all inside_inv (nw n) /\ opt_all inside_inv (ne n) /\
  opt_all inside_inv (sw n) /\ opt_all inside_inv (se n).

(** The region of a node is not the whole line on either axis: the case in
    which both midpoints of [subdivide] are numbers. *)
Definition bounded (n : QuadtreeNode) : Prop :=
  unbounded_axis (x_min n) (x_max n) = false /\
  unbounded_axis (y_min n) (y_max n) = false.

(** The recursion budget that [insert] needs on a node. *)
Definition fits (fuel : nat) (n : QuadtreeNode) : Prop :=
  (Z.to_nat (max_depth n - depth n) < fuel)%nat.

(** Nodes obtained from [QuadtreeNode.__init__] or as the root left by
    [Quadtree.build], and then by calls of [insert]. *)
Inductive reachable : QuadtreeNode -> Prop :=
| reach_new : forall xmin xmax ymin ymax cap d maxd,
    reachable (new_node xmin xmax ymin ymax cap d maxd)
| reach_build : forall fuel self pts indices t r,
    build fuel self pts indices = Ok t -> root t = Some r -> reachable r
| reach_insert : forall fuel n x y idx fd b n',
    reachable n -> insert fuel n x y idx fd = Ok (b, n') -> reachable n'.

(** [m] is [n] or a node below [n]. *)
Inductive subnode (m : QuadtreeNode) : QuadtreeNode -> Prop :=
| sub_refl : subnode m m
| sub_nw : forall n c, nw n = Some c -> subnode m c -> subnode m n
| sub_ne : forall n c, ne n = Some c -> subnode m c -> subnode m n
| sub_sw : forall n c, sw n = Some c -> subnode m c -> subnode m n
| sub_se : forall n c, se n = Some c -> subnode m c -> subnode m n.

(** What a call [insert(x, y, idx, fd)] on [n] returns: a node on the same
    region that satisfies the partition invariant; [False] and the node
    unchanged for a point outside the region; and, when the region is not
    the whole line on an axis, [True] for a point inside it, the node being
    one point richer. *)
Definition insert_post (n : QuadtreeNode) (x y : float) (idx : Z)
           (fd : option (list float)) (r : result (bool * QuadtreeNode)) : Prop :=
  exists b n',
    r = Ok (b, n') /\
    frame n' = frame n /\
    partition_inv n' /\
    (contains n x y = false -> b = false /\ n' = n) /\
    (bounded n -> contains n x y = true ->
     b = true /\
     (inside_inv n ->
      inside_inv n' /\ Permutation (contents n') ((x, y, idx, fd) :: contents n))).

(** ** Sequences of calls *)

(** A sequence of [insert] calls on one node, one per point of [ps], with
    the list of their return values. *)
Fixpoint insert_all (fuel : nat) (n : QuadtreeNode) (ps : list Point)
  : result (list bool * QuadtreeNode) :=
  match ps with
  | [] => Ok ([], n)
  | p :: ps' =>
      let '(x, y, idx, fd) := p in
      '(b, n1) <- insert fuel n x y idx fd ;;
      '(bs, n2) <- insert_all fuel n1 ps' ;;
      Ok (b :: bs, n2)
  end.

(** The points whose [insert] returned [True]. *)
Definition accepted (ps : list Point) (bs : list bool) : list Point :=
  map fst (filter snd (combine ps bs)).

(** The arguments of the [insert] calls that the loop of [build] makes from
    position [i] on. *)
Fixpoint loop_points (points : ndarray) (x_coords y_coords : list float)
         (i : nat) (indices : list Z) : list Point :=
  match indices with
  | [] => []
  | idx :: rest =>
      (nth i x_coords 0, nth i y_coords 0, idx,
       if (2 <? ncols points)%nat then Some (nth i (rows points) []) else None)
      :: loop_points points x_coords y_coords (S i) rest
  end.

(** The identifiers [build] uses: [indices], or [np.arange(len(points))]. *)
Definition build_indices (points : ndarray) (indices : option (list Z)) : list Z :=
  match indices with
  | None => arange (length (rows points))
  | Some l => l
  end.

(** ** The two states of a node *)

Definition region (n : QuadtreeNode) : float * float * float * float :=
  (x_min n, x_max n, y_min n, y_max n).





Definition has_children (m : QuadtreeNode) : Prop :=
  nw m <> None \/ ne m <> None \/ sw m <> None \/ se m <> None.

(** ** Sample data *)

(** The unit square with capacity one. *)
Definition unit_node : QuadtreeNode := new_node 0 1 0 1 1 0 25.

Definition one_point_node : QuadtreeNode :=
  set_points unit_node [(0, 0, 0%Z, None)].

(** The unit square of capacity one after two inserts: a divided node. *)
Definition two_point_node : QuadtreeNode :=
  match insert_all 2 unit_node [(0, 0, 0%Z, None); (1, 1, 1%Z, None)] with
  | Ok (_, n) => n
  | _ => unit_node
  end.

(** Two records on the diagonal of the unit square. *)
Definition two_rows : ndarray := mkArray 2 [[0; 0]; [1; 1]].

(** Two records at opposite ends of the range of binary64:
    [(-2^1023, 0)] and [(2^1023, 0)]. *)
Definition far_rows : ndarray :=
  mkArray 2 [[-0x1p1023; 0]; [0x1p1023; 0]].

(** The root [build] creates for [far_rows] with capacity one: the extent
    overflows, and so does the padding. *)
Definition far_root : QuadtreeNode := new_node neg_infinity infinity 0 0 1 0 25.

(** The index built from [far_rows] with capacity one. *)
Definition far_tree : Quadtree :=
  match build 26 (new_quadtree 0 1 1 25) far_rows None with
  | Ok t => t
  | _ => new_quadtree 0 1 1 25
  end.



Definition tree_root (t : Quadtree) : QuadtreeNode :=
  match root t with
  | Some r => r
  | None => unit_node
  end.

(** The index built from [two_rows] with the default capacity. *)
Definition two_rows_tree : Quadtree :=
  match build 26 (new_quadtree 0 1 50 25) two_rows None with
  | Ok t => t
  | _ => new_quadtree 0 1 50 25
  end.

(** ** Rows and quadrants *)

(** The tuple that [build] passes to [insert] for row [k] when the
    identifiers are the row numbers: the two coordinates, [k], and the full
    row when the array has more than two columns. *)
Definition row_point (points : ndarray) (x_coords y_coords : list float) (k : nat)
  : Point :=
  (nth k x_coords 0, nth k y_coords 0, Z.of_nat k,
   if (2 <? ncols points)%nat then Some (nth k (rows points) []) else None).

(** Three records with four attributes each. *)
Definition wide_rows : ndarray :=
  mkArray 4 [[0; 0; 7; 8]; [1; 1; 9; 10]; [1; 0; 11; 12]].

Inductive quadrant : Type := NW | NE | SW | SE.

(** The quadrant of a point by comparison with the computed midpoints:
    points on the vertical splitting line count as west, points on the
    horizontal one as north. *)
Definition quadrant_of (n : QuadtreeNode) (x y : float) : quadrant :=
  if x <=? x_mid n
  then (if y_mid n <=? y then NW else SW)
  else (if y_mid n <=? y then NE else SE).

Definition child_at (q : quadrant) (n : QuadtreeNode) : option QuadtreeNode :=
  match q with
  | NW => nw n
  | NE => ne n
  | SW => sw n
  | SE => se n
  end.

Definition set_child (q : quadrant) (n c : QuadtreeNode) : QuadtreeNode :=
  match q with
  | NW => set_nw n c
  | NE => set_ne n c
  | SW => set_sw n c
  | SE => set_se n c
  end.

(** The point has the coordinates [(x, y)]: both compare equal. *)
Definition located_at (x y : float) (p : Point) : Prop :=
  (point_x p =? x) = true /\ (point_y p =? y) = true.

End F64.
(** ** Comparisons on coordinates *)

Lemma Qlt_bool_iff (a b : Q) : Qlt_bool a b = true <-> a < b.
Proof. unfold Qlt_bool, Qlt. apply Z.ltb_lt. Qed.

Lemma Qlt_bool_false (a b : Q) : Qlt_bool a b = false <-> b <= a.
Proof. unfold Qlt_bool, Qle. rewrite Z.ltb_ge. reflexivity. Qed.

Lemma Qle_bool_false (a b : Q) : Qle_bool a b = false <-> b < a.
Proof.
  rewrite <- not_true_iff_false, Qle_bool_iff. split.
  - apply Qnot_le_lt.
  - apply Qlt_not_le.
Qed.

(** Turn boolean comparisons in the context and the goal into
    propositions on [Q]. *)
Ltac qprop :=
  repeat match goal with
  | H : _ && _ = true |- _ => apply andb_true_iff in H; destruct H
  | H : _ || _ = false |- _ => apply orb_false_iff in H; destruct H
  | H : negb _ = true |- _ => apply negb_true_iff in H
  | H : negb _ = false |- _ => apply negb_false_iff in H
  | H : Qle_bool _ _ = true |- _ => apply Qle_bool_iff in H
  | H : Qle_bool _ _ = false |- _ => apply Qle_bool_false in H
  | H : Qlt_bool _ _ = true |- _ => apply Qlt_bool_iff in H
  | H : Qlt_bool _ _ = false |- _ => apply Qlt_bool_false in H
  end.

Lemma contains_iff (n : QuadtreeNode) (x y : Q) :
  contains n x y = true <-> within (x_min n) (x_max n) (y_min n) (y_max n) x y.
Proof.
  unfold contains, within.
  rewrite !andb_true_iff, !Qle_bool_iff. tauto.
Qed.

Lemma contains_frame (n m : QuadtreeNode) (x y : Q) :
  frame n = frame m -> contains n x y = contains m x y.
Proof. unfold frame, contains. intros H. injection H as -> -> -> -> _ _ _. reflexivity. Qed.

Lemma in_range_iff (a b c d : Q) (p : Point) :
  in_range a b c d p = true <-> within a b c d (point_x p) (point_y p).
Proof.
  unfold in_range, within.
  rewrite !andb_true_iff, !Qle_bool_iff. tauto.
Qed.

(** ** Geometry of the midpoint quadrants *)

Lemma quadrants_cover (n : QuadtreeNode) (x y : Q) :
  contains n x y =
  contains (fresh_nw n) x y || contains (fresh_ne n) x y ||
  contains (fresh_sw n) x y || contains (fresh_se n) x y.
Proof.
  apply eq_true_iff_eq.
  rewrite !orb_true_iff, !contains_iff. unfold within. cbn. unmid.
  split.
  - intros (H1 & H2 & H3 & H4).
    destruct (Qlt_le_dec ((x_min n + x_max n) * (1 # 2)) x) as [Hx | Hx];
      destruct (Qlt_le_dec ((y_min n + y_max n) * (1 # 2)) y) as [Hy | Hy].
    + left. left. right. repeat split; lra.
    + right. repeat split; lra.
    + left. left. left. repeat split; lra.
    + left. right. repeat split; lra.
  - intros [[[H | H] | H] | H]; destruct H as (H1 & H2 & H3 & H4);
      repeat split; lra.
Qed.

(** ** Attribute updates and contents *)

Lemma contents_eq (n : QuadtreeNode) :
  contents n = points n ++ sub_contents n.
Proof. destruct n; reflexivity. Qed.

Lemma contents_leaf (n : QuadtreeNode) :
  no_children n -> contents n = points n.
Proof.
  intros (H1 & H2 & H3 & H4). rewrite contents_eq. unfold sub_contents.
  rewrite H1, H2, H3, H4. cbn. apply app_nil_r.
Qed.

Lemma inside_inv_eq (n : QuadtreeNode) :
  inside_inv n <->
  Forall (holds n) (contents n) /\
  opt_all inside_inv (nw n) /\ opt_all inside_inv (ne n) /\
  opt_all inside_inv (sw n) /\ opt_all inside_inv (se n).
Proof. destruct n; reflexivity. Qed.

Lemma partition_inv_eq (n : QuadtreeNode) :
  partition_inv n <->
  if is_divided n then
    points n = [] /\ (depth n < max_depth n)%Z /\ children_ok partition_inv n
  else no_children n.
Proof. destruct n; reflexivity. Qed.

Lemma holds_frame (n m : QuadtreeNode) (p : Point) :
  frame n = frame m -> holds n p <-> holds m p.
Proof. intros H. unfold holds. rewrite (contains_frame n m _ _ H). reflexivity. Qed.

Lemma fits_child (fuel : nat) (n c : QuadtreeNode) :
  (depth n < max_depth n)%Z -> fits (S fuel) n ->
  depth c = (depth n + 1)%Z -> max_depth c = max_depth n ->
  fits fuel c.
Proof. unfold fits. intros Hd Hf -> ->. lia. Qed.

Lemma fits_mono (fuel fuel' : nat) (n : QuadtreeNode) :
  (fuel <= fuel')%nat -> fits fuel n -> fits fuel' n.
Proof. unfold fits. lia. Qed.

Lemma frame_fields (n m : QuadtreeNode) :
  frame n = frame m ->
  x_min n = x_min m /\ x_max n = x_max m /\ y_min n = y_min m /\
  y_max n = y_max m /\ capacity n = capacity m /\ depth n = depth m /\
  max_depth n = max_depth m.
Proof. unfold frame. intros H. injection H. intuition. Qed.

Lemma perm_insert_mid {A : Type} (p : A) (l l' l1 l2 : list A) :
  Permutation l' (p :: l) ->
  Permutation (l1 ++ l' ++ l2) (p :: l1 ++ l ++ l2).
Proof.
  intros H.
  transitivity (l1 ++ (p :: l) ++ l2).
  - apply Permutation_app_head, Permutation_app_tail, H.
  - cbn. symmetry. apply Permutation_middle.
Qed.

Lemma fresh_children_ok (n : QuadtreeNode) (ps : list Point) (b : bool) :
  children_ok partition_inv
    (mkNode (x_min n) (x_max n) (y_min n) (y_max n)
            (capacity n) (depth n) (max_depth n) ps b
            (Some (fresh_nw n)) (Some (fresh_ne n))
            (Some (fresh_sw n)) (Some (fresh_se n))).
Proof.
  unfold children_ok. cbn.
  repeat split; reflexivity.
Qed.

(** ** The body of [insert] over a correct recursive call *)

Section InsertSpec.

Variable rec : QuadtreeNode -> Q -> Q -> Z -> option (list Q) ->
               result (bool * QuadtreeNode).
Variable fuel : nat.

Hypothesis rec_ok : forall c x y idx fd,
  partition_inv c -> fits fuel c -> insert_post c x y idx fd (rec c x y idx fd).

Lemma insert_to_child_ok (n : QuadtreeNode) (x y : Q) (idx : Z) (fd : option (list Q)) :
  children_ok partition_inv n -> (depth n < max_depth n)%Z -> fits (S fuel) n ->
  exists n',
    insert_to_child_body rec n (x, y, idx, fd) = Ok (contains n x y, n') /\
    frame n' = frame n /\ points n' = points n /\ is_divided n' = is_divided n /\
    children_ok partition_inv n' /\
    (contains n x y = false -> n' = n) /\
    (children_inside n -> contains n x y = true ->
     children_inside n' /\
     Permutation (sub_contents n') ((x, y, idx, fd) :: sub_contents n)).
Proof.
  intros Hc Hd Hf. unfold children_ok in Hc.
  destruct (nw n) as [a|] eqn:Ea; [|contradiction].
  destruct (ne n) as [b|] eqn:Eb; [|contradiction].
  destruct (sw n) as [c|] eqn:Ec; [|contradiction].
  destruct (se n) as [d|] eqn:Ed; [|contradiction].
  destruct Hc as ((Fa & Fb & Fc & Fd) & (Pa & Pb & Pc & Pd)).
  assert (Hfit : forall m q, frame m = frame q ->
            depth q = (depth n + 1)%Z -> max_depth q = max_depth n -> fits fuel m).
  { intros m q Fm Hq1 Hq2. apply frame_fields in Fm.
    apply (fits_child fuel n m Hd Hf); intuition congruence. }
  rewrite (quadrants_cover n x y).
  rewrite <- (contains_frame a _ x y Fa), <- (contains_frame b _ x y Fb),
          <- (contains_frame c _ x y Fc), <- (contains_frame d _ x y Fd).
  unfold insert_to_child_body, children_inside, sub_contents.
  rewrite Ea, Eb, Ec, Ed. cbn [child bind opt_all child_contents].
  destruct (contains a x y) eqn:Ca.
  { destruct (rec_ok a x y idx fd Pa (Hfit _ _ Fa eq_refl eq_refl))
      as (a' & Hr & Fa' & Pa' & _ & Hin).
    rewrite Hr, Ca. cbn. exists (set_nw n a').
    repeat split; try reflexivity; try discriminate.
    - unfold children_ok. cbn. rewrite Eb, Ec, Ed.
      repeat split; try assumption. rewrite Fa'. exact Fa.
    - cbn. destruct H as (Ia & _). apply Hin; auto.
    - cbn. rewrite Eb. apply H. - cbn. rewrite Ec. apply H. - cbn. rewrite Ed. apply H.
    - cbn. rewrite Eb, Ec, Ed. destruct H as (Ia & _).
      apply (perm_insert_mid _ _ _ [] _). apply Hin; auto. }
  destruct (contains b x y) eqn:Cb.
  { destruct (rec_ok b x y idx fd Pb (Hfit _ _ Fb eq_refl eq_refl))
      as (b' & Hr & Fb' & Pb' & _ & Hin).
    rewrite Hr, Cb. cbn. exists (set_ne n b').
    repeat split; try reflexivity; try discriminate.
    - unfold children_ok. cbn. rewrite Ea, Ec, Ed.
      repeat split; try assumption. rewrite Fb'. exact Fb.
    - cbn. rewrite Ea. apply H.
    - cbn. destruct H as (_ & Ib & _). apply Hin; auto.
    - cbn. rewrite Ec. apply H. - cbn. rewrite Ed. apply H.
    - cbn. rewrite Ea, Ec, Ed. destruct H as (_ & Ib & _).
      apply perm_insert_mid. apply Hin; auto. }
  destruct (contains c x y) eqn:Cc.
  { destruct (rec_ok c x y idx fd Pc (Hfit _ _ Fc eq_refl eq_refl))
      as (c' & Hr & Fc' & Pc' & _ & Hin).
    rewrite Hr, Cc. cbn. exists (set_sw n c').
    repeat split; try reflexivity; try discriminate.
    - unfold children_ok. cbn. rewrite Ea, Eb, Ed.
      repeat split; try assumption. rewrite Fc'. exact Fc.
    - cbn. rewrite Ea. apply H. - cbn. rewrite Eb. apply H.
    - cbn. destruct H as (_ & _ & Ic & _). apply Hin; auto.
    - cbn. rewrite Ed. apply H.
    - cbn. rewrite Ea, Eb, Ed. destruct H as (_ & _ & Ic & _).
      rewrite !(app_assoc (contents a)).
      apply perm_insert_mid. apply Hin; auto. }
  destruct (contains d x y) eqn:Cd.
  { destruct (rec_ok d x y idx fd Pd (Hfit _ _ Fd eq_refl eq_refl))
      as (d' & Hr & Fd' & Pd' & _ & Hin).
    rewrite Hr, Cd. cbn. exists (set_se n d').
    repeat split; try reflexivity; try discriminate.
    - unfold children_ok. cbn. rewrite Ea, Eb, Ec.
      repeat split; try assumption. rewrite Fd'. exact Fd.
    - cbn. rewrite Ea. apply H. - cbn. rewrite Eb. apply H.
    - cbn. rewrite Ec. apply H.
    - cbn. destruct H as (_ & _ & _ & Id). apply Hin; auto.
    - cbn. rewrite Ea, Eb, Ec. destruct H as (_ & _ & _ & Id).
      rewrite !(app_assoc (contents a)), !(app_assoc (contents a ++ contents b)).
      rewrite <- (app_nil_r (contents d')), <- (app_nil_r (contents d)).
      apply perm_insert_mid. apply Hin; auto. }
  cbn. exists n.
  repeat split; try reflexivity; try discriminate.
  - unfold children_ok. rewrite Ea, Eb, Ec, Ed. repeat split; assumption.
Qed.

Lemma redistribute_ok (ps : list Point) : forall n,
  children_ok partition_inv n -> (depth n < max_depth n)%Z -> fits (S fuel) n ->
  exists n',
    redistribute rec n ps = Ok n' /\
    frame n' = frame n /\ points n' = points n /\ is_divided n' = is_divided n /\
    children_ok partition_inv n' /\
    (children_inside n -> Forall (holds n) ps ->
     children_inside n' /\ Permutation (sub_contents n') (sub_contents n ++ ps)).
Proof.
  induction ps as [|p ps IH]; intros n Hc Hd Hf.
  - exists n. cbn. repeat split; auto; try apply H.
    rewrite app_nil_r. reflexivity.
  - destruct p as [[[x y] idx] fd].
    destruct (insert_to_child_ok n x y idx fd Hc Hd Hf)
      as (n1 & E1 & F1 & P1 & D1 & C1 & _ & I1).
    cbn [redistribute]. rewrite E1. cbn [bind].
    pose proof (frame_fields _ _ F1) as (_ & _ & _ & _ & _ & Hdep & Hmax).
    destruct (IH n1 C1) as (n2 & E2 & F2 & P2 & D2 & C2 & I2).
    { rewrite Hdep, Hmax. exact Hd. }
    { unfold fits in *. rewrite Hdep, Hmax. exact Hf. }
    exists n2. rewrite E2.
    split; [reflexivity|]. split; [congruence|]. split; [congruence|].
    split; [congruence|]. split; [exact C2|].
    intros Hin Hall. inversion Hall as [|? ? Hp Hps]; subst.
    destruct (I1 Hin Hp) as (Hin1 & Hperm1).
    destruct I2 as (Hin2 & Hperm2); auto.
    { eapply Forall_impl; [|exact Hps]. intros q. apply holds_frame. congruence. }
    split; [exact Hin2|].
    rewrite Hperm2, Hperm1. cbn. apply Permutation_middle.
Qed.

Lemma subdivide_ok (n : QuadtreeNode) :
  is_divided n = false -> no_children n -> fits (S fuel) n ->
  exists n',
    subdivide_body rec n = Ok n' /\
    frame n' = frame n /\ partition_inv n' /\
    (is_divided n' = false -> n' = n) /\
    (Forall (holds n) (points n) ->
     inside_inv n' /\ Permutation (contents n') (points n)).
Proof.
  intros Hleaf Hnc Hf.
  assert (Hself : partition_inv n) by (apply partition_inv_eq; rewrite Hleaf; exact Hnc).
  assert (Hkeep : Forall (holds n) (points n) ->
                  inside_inv n /\ Permutation (contents n) (points n)).
  { intros Hall. rewrite inside_inv_eq, (contents_leaf n Hnc).
    destruct Hnc as (-> & -> & -> & ->). cbn. intuition. }
  unfold subdivide_body.
  destruct (max_depth n <=? depth n)%Z eqn:Hmax.
  { exists n. auto. }
  destruct (coincident (points n)) eqn:Hco.
  { exists n. auto. }
  apply Z.leb_gt in Hmax.
  set (dn := mkNode _ _ _ _ _ _ _ _ true _ _ _ _).
  destruct (redistribute_ok (points n) dn) as (n1 & E1 & F1 & P1 & D1 & C1 & I1).
  { apply fresh_children_ok. }
  { exact Hmax. }
  { exact Hf. }
  rewrite E1. cbn [bind]. exists (set_points n1 []).
  assert (Hdiv : is_divided (set_points n1 []) = true) by (cbn; rewrite D1; reflexivity).
  pose proof (frame_fields _ _ F1) as (_ & _ & _ & _ & _ & Hdep & Hmx).
  split; [reflexivity|]. split; [exact F1|]. split; [|split].
  - apply partition_inv_eq. rewrite Hdiv.
    split; [reflexivity|]. split; [|exact C1].
    cbn. rewrite Hdep, Hmx. exact Hmax.
  - rewrite Hdiv. discriminate.
  - intros Hall. destruct I1 as (Hin & Hperm).
    { cbn. unfold children_inside. cbn. rewrite !Forall_nil_iff. tauto. }
    { exact Hall. }
    assert (Hc : Permutation (contents (set_points n1 [])) (points n)).
    { rewrite contents_eq. cbn [set_points points app].
      change (sub_contents (set_points n1 [])) with (sub_contents n1).
      rewrite Hperm. reflexivity. }
    split; [|exact Hc].
    apply inside_inv_eq. split; [|exact Hin].
    rewrite Hc. eapply Forall_impl; [|exact Hall].
    intros q. apply holds_frame. first [exact F1 | symmetry; exact F1].
Qed.

Lemma insert_divided_ok (n : QuadtreeNode) (x y : Q) (idx : Z) (fd : option (list Q)) :
  partition_inv n -> is_divided n = true -> fits (S fuel) n ->
  insert_post n x y idx fd (insert_to_child_body rec n (x, y, idx, fd)).
Proof.
  intros Hp Hdiv Hf.
  pose proof Hp as Hp'. apply partition_inv_eq in Hp'. rewrite Hdiv in Hp'.
  destruct Hp' as (Hpts & Hd & Hc).
  destruct (insert_to_child_ok n x y idx fd Hc Hd Hf)
    as (n' & E & F & P & D & C & U & I).
  pose proof (frame_fields _ _ F) as (_ & _ & _ & _ & _ & Hdep & Hmx).
  exists n'. split; [exact E|]. split; [exact F|]. split; [|split; [exact U|]].
  - apply partition_inv_eq. rewrite D, Hdiv.
    split; [congruence|]. split; [|exact C]. rewrite Hdep, Hmx. exact Hd.
  - intros Hin Hcon. apply inside_inv_eq in Hin. destruct Hin as (Hall & Hci).
    destruct (I Hci Hcon) as (Hci' & Hperm).
    assert (Hc' : Permutation (contents n') ((x, y, idx, fd) :: contents n)).
    { rewrite !contents_eq, P, Hpts. cbn. exact Hperm. }
    split; [|exact Hc'].
    apply inside_inv_eq. split; [|exact Hci'].
    rewrite Hc'. constructor.
    + unfold holds. cbn. rewrite (contains_frame _ _ _ _ F). exact Hcon.
    + eapply Forall_impl; [|exact Hall]. intros q. apply holds_frame.
      first [exact F | symmetry; exact F].
Qed.

Lemma append_ok (n : QuadtreeNode) (x y : Q) (idx : Z) (fd : option (list Q)) :
  is_divided n = false -> no_children n -> contains n x y = true ->
  insert_post n x y idx fd
    (Ok (true, set_points n (points n ++ [(x, y, idx, fd)]))).
Proof.
  intros Hdiv Hnc Hcon.
  exists (set_points n (points n ++ [(x, y, idx, fd)])).
  rewrite Hcon. split; [reflexivity|]. split; [reflexivity|].
  split; [|split; [discriminate|]].
  - apply partition_inv_eq. cbn. rewrite Hdiv. exact Hnc.
  - intros Hin _. apply inside_inv_eq in Hin. destruct Hin as (Hall & Hci).
    rewrite (contents_leaf n Hnc) in *.
    assert (Hnc' : no_children (set_points n (points n ++ [(x, y, idx, fd)])))
      by exact Hnc.
    rewrite inside_inv_eq, (contents_leaf _ Hnc'). cbn [set_points points nw ne sw se].
    split; [split; [|exact Hci]|].
    + apply Forall_app. split.
      * exact Hall.
      * constructor; [exact Hcon|constructor].
    + symmetry. apply Permutation_cons_append.
Qed.

Lemma insert_body_ok (n : QuadtreeNode) (x y : Q) (idx : Z) (fd : option (list Q)) :
  partition_inv n -> fits (S fuel) n ->
  insert_post n x y idx fd (insert_body rec n x y idx fd).
Proof.
  intros Hp Hf. unfold insert_body.
  destruct (contains n x y) eqn:Hcon; cbn [negb].
  2: { exists n. rewrite Hcon. split; [reflexivity|]. split; [reflexivity|].
       split; [exact Hp|]. split; [reflexivity|discriminate]. }
  destruct (is_divided n) eqn:Hdiv; cbn [negb].
  { apply insert_divided_ok; assumption. }
  pose proof Hp as Hnc. apply partition_inv_eq in Hnc. rewrite Hdiv in Hnc.
  destruct (Z.of_nat (length (points n)) <? capacity n)%Z.
  { apply append_ok; assumption. }
  destruct (max_depth n <=? depth n)%Z.
  { apply append_ok; assumption. }
  destruct (subdivide_ok n Hdiv Hnc Hf) as (n1 & E & F & P1 & U & I).
  rewrite E. cbn [bind].
  destruct (is_divided n1) eqn:D1; cbn [negb].
  - pose proof (frame_fields _ _ F) as (_ & _ & _ & _ & _ & Hdep & Hmx).
    assert (Hf1 : fits (S fuel) n1) by (unfold fits in *; rewrite Hdep, Hmx; exact Hf).
    destruct (insert_divided_ok n1 x y idx fd P1 D1 Hf1)
      as (n2 & E2 & F2 & P2 & U2 & I2).
    rewrite (contains_frame _ _ _ _ F) in E2, I2.
    exists n2. split; [exact E2|]. split; [congruence|]. split; [exact P2|].
    split; [rewrite Hcon; discriminate|].
    intros Hin _. pose proof Hin as Hin'.
    apply inside_inv_eq in Hin'. destruct Hin' as (Hall & _).
    rewrite (contents_leaf n Hnc) in *.
    destruct (I Hall) as (Hin1 & Hperm1).
    destruct (I2 Hin1 Hcon) as (Hin2 & Hperm2).
    split; [exact Hin2|]. rewrite Hperm2, Hperm1. reflexivity.
  - rewrite (U eq_refl). apply append_ok; assumption.
Qed.

End InsertSpec.

(** ** [insert] meets its specification *)

Lemma insert_ok (fuel : nat) : forall n x y idx fd,
  partition_inv n -> fits fuel n ->
  insert_post n x y idx fd (insert fuel n x y idx fd).
Proof.
  induction fuel as [|fuel IH]; intros n x y idx fd Hp Hf.
  - unfold fits in Hf. lia.
  - cbn [insert]. apply (insert_body_ok (insert fuel) fuel IH); assumption.
Qed.


(** ** The result of [insert] does not depend on spare budget *)

Section Monotone.

Variables rec1 rec2 : QuadtreeNode -> Q -> Q -> Z -> option (list Q) ->
                      result (bool * QuadtreeNode).

Hypothesis rec_le : forall c x y idx fd r,
  rec1 c x y idx fd = Ok r -> rec2 c x y idx fd = Ok r.

Lemma insert_to_child_mono (n : QuadtreeNode) (p : Point) r :
  insert_to_child_body rec1 n p = Ok r -> insert_to_child_body rec2 n p = Ok r.
Proof.
  unfold insert_to_child_body. destruct p as [[[x y] idx] fd]. intros H.
  do 4 step_child rec1 rec_le H. exact H.
Qed.

Lemma redistribute_mono (ps : list Point) : forall n r,
  redistribute rec1 n ps = Ok r -> redistribute rec2 n ps = Ok r.
Proof.
  induction ps as [|p ps IH]; intros n r H; cbn [redistribute] in *.
  - exact H.
  - destruct (insert_to_child_body rec1 n p) as [[b n1]| |] eqn:E;
      cbn [bind] in H; try discriminate H.
    rewrite (insert_to_child_mono _ _ _ E). cbn [bind]. apply IH, H.
Qed.

Lemma subdivide_mono (n : QuadtreeNode) r :
  subdivide_body rec1 n = Ok r -> subdivide_body rec2 n = Ok r.
Proof.
  unfold subdivide_body. intros H.
  destruct (max_depth n <=? depth n)%Z; [exact H|].
  destruct (coincident (points n)); [exact H|].
  match type of H with
  | context [redistribute rec1 ?d ?ps] =>
      destruct (redistribute rec1 d ps) eqn:E; cbn [bind] in H; try discriminate H;
      rewrite (redistribute_mono _ _ _ E); exact H
  end.
Qed.

Lemma insert_body_mono (n : QuadtreeNode) x y idx fd r :
  insert_body rec1 n x y idx fd = Ok r -> insert_body rec2 n x y idx fd = Ok r.
Proof.
  unfold insert_body. intros H.
  destruct (negb (contains n x y)); [exact H|].
  destruct (negb (is_divided n)); [|apply insert_to_child_mono, H].
  destruct (Z.of_nat (length (points n)) <? capacity n)%Z; [exact H|].
  destruct (max_depth n <=? depth n)%Z; [exact H|].
  destruct (subdivide_body rec1 n) as [n1| |] eqn:E; cbn [bind] in H; try discriminate H.
  rewrite (subdivide_mono _ _ E). cbn [bind].
  destruct (negb (is_divided n1)); [exact H|apply insert_to_child_mono, H].
Qed.

End Monotone.

Lemma insert_S (fuel : nat) : forall n x y idx fd r,
  insert fuel n x y idx fd = Ok r -> insert (S fuel) n x y idx fd = Ok r.
Proof.
  induction fuel as [|fuel IH]; intros n x y idx fd r H.
  - discriminate H.
  - cbn [insert] in *. apply (insert_body_mono (insert fuel) (insert (S fuel)) IH), H.
Qed.

Lemma insert_mono (fuel fuel' : nat) n x y idx fd r :
  (fuel <= fuel')%nat ->
  insert fuel n x y idx fd = Ok r -> insert fuel' n x y idx fd = Ok r.
Proof.
  induction 1 as [|m Hle IH]; intros H.
  - exact H.
  - apply insert_S, IH, H.
Qed.

(** Whatever budget made [insert] return, the result is the specified one. *)
Lemma insert_returns (fuel : nat) n x y idx fd b n' :
  partition_inv n -> insert fuel n x y idx fd = Ok (b, n') ->
  insert_post n x y idx fd (Ok (b, n')).
Proof.
  intros Hp H.
  set (big := Nat.max fuel (S (Z.to_nat (max_depth n - depth n)))).
  rewrite <- (insert_mono fuel big n x y idx fd (b, n') (Nat.le_max_l _ _) H).
  apply insert_ok; [exact Hp|]. unfold fits, big. lia.
Qed.

Lemma new_node_inv xmin xmax ymin ymax cap d maxd :
  let n := new_node xmin xmax ymin ymax cap d maxd in
  partition_inv n /\ inside_inv n /\ contents n = [].
Proof.
  cbn. unfold no_children. cbn. rewrite Forall_nil_iff. tauto.
Qed.

Lemma build_loop_inv (fuel : nat) (points : ndarray) (xs ys : list Q)
      (indices : list Z) : forall node sz i n' sz',
  partition_inv node -> inside_inv node ->
  build_loop fuel points xs ys node sz i indices = Ok (n', sz') ->
  partition_inv n' /\ inside_inv n' /\ frame n' = frame node.
Proof.
  induction indices as [|idx rest IH]; intros node sz i n' sz' Hp Hi E;
    cbn [build_loop] in E.
  - injection E as <- <-. auto.
  - destruct (if (2 <? shape1 points)%nat then _ else _) as [fd| |];
      cbn [bind] in E; try discriminate E.
    destruct (getitem xs i) as [x| |]; cbn [bind] in E; try discriminate E.
    destruct (getitem ys i) as [y| |]; cbn [bind] in E; try discriminate E.
    destruct (insert fuel node x y idx fd) as [[b n1]| |] eqn:E1; cbn [bind] in E;
      try discriminate E.
    destruct (insert_returns _ _ _ _ _ _ _ _ Hp E1) as (m & Em & F1 & P1 & U1 & I1).
    injection Em as Hb <-.
    assert (Hi1 : inside_inv n1).
    { destruct (contains node x y) eqn:Hcon.
      - apply I1; auto.
      - rewrite (U1 eq_refl). exact Hi. }
    destruct (IH _ _ _ _ _ P1 Hi1 E) as (P2 & I2 & F2).
    split; [exact P2|]. split; [exact I2|congruence].
Qed.

Lemma build_inv (fuel : nat) (self : Quadtree) (points : ndarray)
      (indices : option (list Z)) (t : Quadtree) :
  build fuel self points indices = Ok t ->
  tree_max_depth t = tree_max_depth self /\
  exists r, root t = Some r /\ partition_inv r /\ inside_inv r /\
            depth r = 0%Z /\ max_depth r = tree_max_depth self.
Proof.
  unfold build. intros E.
  destruct (column points (x_dim self)) as [xs| |]; cbn [bind] in E; try discriminate E.
  destruct (column points (y_dim self)) as [ys| |]; cbn [bind] in E; try discriminate E.
  destruct (build_root self xs ys) as [r0| |] eqn:Er; cbn [bind] in E; try discriminate E.
  destruct (build_loop fuel points xs ys r0 (size self) 0 _) as [[r sz]| |] eqn:El;
    cbn [bind] in E; try discriminate E.
  injection E as <-. split; [reflexivity|].
  exists r. split; [reflexivity|].
  unfold build_root in Er.
  destruct (array_min xs) as [q| |]; cbn [bind] in Er; try discriminate Er.
  destruct (array_max xs) as [q0| |]; cbn [bind] in Er; try discriminate Er.
  destruct (array_min ys) as [q1| |]; cbn [bind] in Er; try discriminate Er.
  destruct (array_max ys) as [q2| |]; cbn [bind] in Er; try discriminate Er.
  injection Er as <-.
  destruct (new_node_inv (q - (q0 - q) * pad_ratio) (q0 + (q0 - q) * pad_ratio)
              (q1 - (q2 - q1) * pad_ratio) (q2 + (q2 - q1) * pad_ratio)
              (tree_capacity self) 0 (tree_max_depth self)) as (Hp0 & Hi0 & _).
  destruct (build_loop_inv _ _ _ _ _ _ _ _ _ _ Hp0 Hi0 El) as (Hp & Hi & F).
  apply frame_fields in F. cbn in F.
  split; [exact Hp|]. split; [exact Hi|]. split; apply F.
Qed.

Lemma reachable_inv (n : QuadtreeNode) :
  reachable n -> partition_inv n /\ inside_inv n.
Proof.
  induction 1 as [xmin xmax ymin ymax cap d maxd
                 | fuel self pts indices t r Hb Hroot
                 | fuel n x y idx fd b n' Hr [IHp IHi] Hins].
  - cbn. unfold no_children. cbn. rewrite Forall_nil_iff. tauto.
  - destruct (build_inv _ _ _ _ _ Hb) as (_ & r' & Er & Hp & Hi & _).
    rewrite Er in Hroot. injection Hroot as <-. auto.
  - destruct (insert_returns _ _ _ _ _ _ _ _ IHp Hins) as (m & E & F & P & U & I).
    injection E as -> <-. split; [exact P|].
    destruct (contains n x y) eqn:Hcon.
    + apply I; auto.
    + rewrite (U eq_refl). exact IHi.
Qed.

(** ** [query_range] returns the stored points of the box *)

Lemma node_ind' (P : QuadtreeNode -> Prop) :
  (forall n, opt_all P (nw n) -> opt_all P (ne n) ->
             opt_all P (sw n) -> opt_all P (se n) -> P n) ->
  forall n, P n.
Proof.
  intros step. fix IH 1. intros n. apply step.
  - destruct (nw n) as [m|]; [apply IH|exact I].
  - destruct (ne n) as [m|]; [apply IH|exact I].
  - destruct (sw n) as [m|]; [apply IH|exact I].
  - destruct (se n) as [m|]; [apply IH|exact I].
Qed.

Lemma query_range_eq (n : QuadtreeNode) (a b c d : Q) :
  query_range n a b c d =
  if negb (intersects n a b c d) then Ok []
  else if is_divided n then
    r_nw <- match nw n with Some m => query_range m a b c d | None => Raise AttributeError end ;;
    r_ne <- match ne n with Some m => query_range m a b c d | None => Raise AttributeError end ;;
    r_sw <- match sw n with Some m => query_range m a b c d | None => Raise AttributeError end ;;
    r_se <- match se n with Some m => query_range m a b c d | None => Raise AttributeError end ;;
    Ok (scan a b c d (points n) ++ r_nw ++ r_ne ++ r_sw ++ r_se)
  else Ok (scan a b c d (points n)).
Proof. destruct n; reflexivity. Qed.

Lemma scan_app (a b c d : Q) (l1 l2 : list Point) :
  scan a b c d (l1 ++ l2) = scan a b c d l1 ++ scan a b c d l2.
Proof. unfold scan. rewrite filter_app, map_app. reflexivity. Qed.

(** Pruning is safe: a box that misses the region of a node misses every
    point of that region. *)
Lemma scan_disjoint (n : QuadtreeNode) (a b c d : Q) (l : list Point) :
  intersects n a b c d = false -> Forall (holds n) l -> scan a b c d l = [].
Proof.
  intros Hint Hall. unfold scan.
  induction Hall as [|p l Hp _ IH]; [reflexivity|].
  cbn [filter]. destruct (in_range a b c d p) eqn:Hin; [|exact IH].
  exfalso. apply in_range_iff in Hin. apply contains_iff in Hp.
  unfold within in *. unfold intersects in Hint.
  apply negb_false_iff in Hint. rewrite !orb_true_iff, !Qlt_bool_iff in Hint.
  destruct Hin as (? & ? & ? & ?), Hp as (? & ? & ? & ?).
  destruct Hint as [[[H' | H'] | H'] | H']; lra.
Qed.

Lemma query_range_contents : forall n a b c d,
  partition_inv n -> inside_inv n ->
  query_range n a b c d = Ok (scan a b c d (contents n)).
Proof.
  induction n as [n IHa IHb IHc IHd] using node_ind'.
  intros a b c d Hp Hi.
  rewrite query_range_eq.
  apply inside_inv_eq in Hi. destruct Hi as (Hall & Ia & Ib & Ic & Id).
  destruct (intersects n a b c d) eqn:Hint; cbn [negb].
  2: { rewrite (scan_disjoint n a b c d _ Hint Hall). reflexivity. }
  apply partition_inv_eq in Hp. rewrite contents_eq. unfold sub_contents.
  destruct (is_divided n).
  - destruct Hp as (Hpts & _ & Hc). unfold children_ok in Hc.
    destruct (nw n) as [ca|]; [|contradiction].
    destruct (ne n) as [cb|]; [|contradiction].
    destruct (sw n) as [cc|]; [|contradiction].
    destruct (se n) as [cd|]; [|contradiction].
    destruct Hc as (_ & Pa & Pb & Pc & Pd). cbn [opt_all child_contents] in *.
    rewrite (IHa a b c d Pa Ia), (IHb a b c d Pb Ib),
            (IHc a b c d Pc Ic), (IHd a b c d Pd Id).
    cbn [bind]. rewrite !scan_app. reflexivity.
  - destruct Hp as (-> & -> & -> & ->). cbn [child_contents].
    rewrite !app_nil_r. reflexivity.
Qed.

(** ** Sequences of [insert] calls *)


Lemma insert_all_runs (fuel : nat) (ps : list Point) : forall n,
  partition_inv n -> fits fuel n ->
  exists bs n', insert_all fuel n ps = Ok (bs, n').
Proof.
  induction ps as [|p ps IH]; intros n Hp Hf; cbn [insert_all].
  - eauto.
  - destruct p as [[[x y] idx] fd].
    destruct (insert_ok fuel n x y idx fd Hp Hf) as (n1 & E1 & F1 & P1 & _).
    rewrite E1. cbn [bind].
    pose proof (frame_fields _ _ F1) as (_ & _ & _ & _ & _ & Hdep & Hmx).
    destruct (IH n1 P1) as (bs & n2 & E2).
    { unfold fits in *. rewrite Hdep, Hmx. exact Hf. }
    rewrite E2. cbn [bind]. eauto.
Qed.

Lemma insert_all_reachable (fuel : nat) (ps : list Point) : forall n bs n',
  reachable n -> insert_all fuel n ps = Ok (bs, n') -> reachable n'.
Proof.
  induction ps as [|p ps IH]; intros n bs n' Hr H; cbn [insert_all] in H.
  - injection H as <- <-. exact Hr.
  - destruct p as [[[x y] idx] fd].
    destruct (insert fuel n x y idx fd) as [[b n1]| |] eqn:E1; cbn [bind] in H;
      try discriminate H.
    destruct (insert_all fuel n1 ps) as [[bs2 n2]| |] eqn:E2; cbn [bind] in H;
      try discriminate H.
    injection H as <- <-.
    eapply IH; [|exact E2]. eapply reach_insert; eassumption.
Qed.

(** ** Bounds tests *)

(** C8: [contains(x, y)] is true exactly when [x] and [y] lie within the
    node's bounds, both ends included; [intersects] is true exactly when on
    neither axis the query rectangle lies entirely to one side of the node's
    bounds, so that rectangles meeting the node only on a boundary intersect
    it; for well-formed rectangles this is the existence of a common point.
    Both are total functions to [bool]: no state, no exception. *)
Theorem C8_contains_intersects (n : QuadtreeNode) :
  (forall x y,
      contains n x y = true <->
      (x_min n <= x <= x_max n) /\ (y_min n <= y <= y_max n)) /\
  (forall a b c d,
      intersects n a b c d = true <->
      ~ (b < x_min n \/ x_max n < a) /\ ~ (d < y_min n \/ y_max n < c)) /\
  (forall a c, x_min n <= x_max n -> y_min n <= y_max n ->
      a <= x_min n -> c <= y_min n ->
      intersects n a (x_min n) c (y_min n) = true) /\
  (forall a b c d, a <= b -> c <= d -> x_min n <= x_max n -> y_min n <= y_max n ->
      (intersects n a b c d = true <->
       exists x y, within a b c d x y /\ contains n x y = true)).
Proof.
  assert (Hint : forall a b c d,
             intersects n a b c d = true <->
             ~ (b < x_min n \/ x_max n < a) /\ ~ (d < y_min n \/ y_max n < c)).
  { intros a b c d. unfold intersects.
    rewrite negb_true_iff, <- not_true_iff_false, !orb_true_iff, !Qlt_bool_iff.
    tauto. }
  split; [|split; [exact Hint|split]].
  - intros x y. rewrite contains_iff. unfold within. tauto.
  - intros a c Hx Hy Ha Hc. apply Hint. split; intros [H | H]; lra.
  - intros a b c d Hab Hcd Hx Hy. rewrite Hint. split.
    + intros (H1 & H2).
      assert (Hb : x_min n <= b) by (apply Qnot_lt_le; tauto).
      assert (Ha : a <= x_max n) by (apply Qnot_lt_le; tauto).
      assert (Hd : y_min n <= d) by (apply Qnot_lt_le; tauto).
      assert (Hc : c <= y_max n) by (apply Qnot_lt_le; tauto).
      exists (if Qle_bool a (x_min n) then x_min n else a),
             (if Qle_bool c (y_min n) then y_min n else c).
      rewrite contains_iff. unfold within.
      destruct (Qle_bool a (x_min n)) eqn:E1; destruct (Qle_bool c (y_min n)) eqn:E2;
        qprop; repeat split; lra.
    + intros (x & y & Hw & Hc). apply contains_iff in Hc. unfold within in *.
      split; intros [H | H]; lra.
Qed.

Lemma C8_contains_intersects_witness :
  contains unit_node (1 # 2) 1 = true /\ intersects unit_node 1 2 (-1) 0 = true.
Proof.
  destruct (C8_contains_intersects unit_node) as (Hc & Hi & _).
  split.
  - apply Hc. cbn. split; split; discriminate.
  - apply Hi. cbn. split; intros [H | H]; discriminate H.
Defined.

(** ** Rejected points *)

(** C6: on every node, [insert] of a point outside the node's region returns
    [False] without raising and leaves the node as it was; the inserts that
    follow proceed as if the rejected call had not been made. *)
Theorem C6_insert_outside (fuel : nat) (n : QuadtreeNode) (x y : Q) (idx : Z)
        (fd : option (list Q)) :
  contains n x y = false ->
  insert (S fuel) n x y idx fd = Ok (false, n) /\
  forall ps,
    insert_all (S fuel) n ((x, y, idx, fd) :: ps) =
    ('(bs, n') <- insert_all (S fuel) n ps ;; Ok (false :: bs, n')).
Proof.
  intros Hout.
  assert (H : insert (S fuel) n x y idx fd = Ok (false, n)).
  { cbn [insert]. unfold insert_body. rewrite Hout. reflexivity. }
  split; [exact H|].
  intros ps. cbn [insert_all]. rewrite H. reflexivity.
Qed.

Lemma C6_insert_outside_witness :
  contains unit_node 2 2 = false /\
  insert 1 unit_node 2 2 7 None = Ok (false, unit_node).
Proof.
  split; [reflexivity|].
  apply (C6_insert_outside 0 unit_node 2 2 7 None). reflexivity.
Defined.

(** ** A divided sample node *)

Lemma two_point_node_inv : partition_inv two_point_node.
Proof.
  vm_compute. repeat split; reflexivity.
Qed.

(** ** Lists without duplicates *)


(** ** Leaves and internal nodes *)

Lemma subnode_inv (m n : QuadtreeNode) :
  subnode m n -> partition_inv n -> partition_inv m.
Proof.
  induction 1 as [|n c E _ IH|n c E _ IH|n c E _ IH|n c E _ IH]; intros Hp;
    [exact Hp| | | |];
    apply IH; apply partition_inv_eq in Hp;
    (destruct (is_divided n);
     [ destruct Hp as (_ & _ & Hc); unfold children_ok in Hc;
       destruct (nw n); [|contradiction]; destruct (ne n); [|contradiction];
       destruct (sw n); [|contradiction]; destruct (se n); [|contradiction];
       injection E as <-; apply Hc
     | destruct Hp as (H1 & H2 & H3 & H4); congruence ]).
Qed.


Lemma two_point_node_reachable : reachable two_point_node.
Proof.
  apply (reach_insert 2 one_point_node 1 1 1%Z None true two_point_node).
  - apply (reach_insert 1 (new_node 0 1 0 1 1 0 25) 0 0 0%Z None true one_point_node).
    + apply reach_new.
    + reflexivity.
  - reflexivity.
Qed.

(** ** Termination *)

Lemma query_range_runs : forall n a b c d,
  partition_inv n -> exists ids, query_range n a b c d = Ok ids.
Proof.
  induction n as [n IHa IHb IHc IHd] using node_ind'.
  intros a b c d Hp. rewrite query_range_eq.
  destruct (negb (intersects n a b c d)); [eauto|].
  apply partition_inv_eq in Hp.
  destruct (is_divided n); [|eauto].
  destruct Hp as (_ & _ & Hc). unfold children_ok in Hc.
  destruct (nw n) as [ca|]; [|contradiction].
  destruct (ne n) as [cb|]; [|contradiction].
  destruct (sw n) as [cc|]; [|contradiction].
  destruct (se n) as [cd|]; [|contradiction].
  destruct Hc as (_ & Pa & Pb & Pc & Pd). cbn [opt_all] in *.
  destruct (IHa a b c d Pa) as (ra & ->), (IHb a b c d Pb) as (rb & ->),
           (IHc a b c d Pc) as (rc & ->), (IHd a b c d Pd) as (rd & ->).
  cbn [bind]. eauto.
Qed.

Lemma divided_children (m c : QuadtreeNode) :
  partition_inv m -> is_divided m = true -> In (Some c) (children m) ->
  (depth m < max_depth m)%Z /\
  depth c = (depth m + 1)%Z /\ max_depth c = max_depth m.
Proof.
  intros Hp Hdiv Hin. apply partition_inv_eq in Hp. rewrite Hdiv in Hp.
  destruct Hp as (_ & Hd & Hc). split; [exact Hd|].
  unfold children_ok in Hc. unfold children in Hin.
  destruct (nw m) as [ca|]; [|contradiction].
  destruct (ne m) as [cb|]; [|contradiction].
  destruct (sw m) as [cc|]; [|contradiction].
  destruct (se m) as [cd|]; [|contradiction].
  destruct Hc as ((Fa & Fb & Fc & Fd) & _).
  apply frame_fields in Fa, Fb, Fc, Fd. cbn in Fa, Fb, Fc, Fd.
  cbn [In] in Hin.
  destruct Hin as [H | [H | [H | [H | []]]]]; injection H as <-; intuition.
Qed.

Lemma budget_eq (n : QuadtreeNode) :
  budget n =
  S (Nat.max (Z.to_nat (max_depth n - depth n))
       (Nat.max (Nat.max (match nw n with Some m => budget m | None => O end)
                         (match ne n with Some m => budget m | None => O end))
                (Nat.max (match sw n with Some m => budget m | None => O end)
                         (match se n with Some m => budget m | None => O end)))).
Proof. destruct n; reflexivity. Qed.

(** On a node that is not divided, whatever else it holds, [insert]
    returns within the budget of the levels below it. *)
Lemma insert_leaf_runs (fuel : nat) (n : QuadtreeNode) x y idx fd :
  is_divided n = false -> fits (S fuel) n ->
  exists r, insert (S fuel) n x y idx fd = Ok r.
Proof.
  intros Hdiv Hf. cbn [insert]. unfold insert_body.
  destruct (contains n x y) eqn:Hcon; cbn [negb]; [|eauto].
  rewrite Hdiv. cbn [negb].
  destruct (Z.of_nat (length (points n)) <? capacity n)%Z; [eauto|].
  destruct (max_depth n <=? depth n)%Z eqn:Hmax; [eauto|].
  unfold subdivide_body. rewrite Hmax.
  destruct (coincident (points n)); cbn [bind].
  { rewrite Hdiv. cbn [negb]. eauto. }
  apply Z.leb_gt in Hmax.
  set (dn := mkNode _ _ _ _ _ _ _ _ true _ _ _ _).
  destruct (redistribute_ok (insert fuel) fuel (insert_ok fuel) (points n) dn)
    as (n1 & E1 & F1 & P1 & D1 & C1 & _).
  { apply fresh_children_ok. }
  { exact Hmax. }
  { exact Hf. }
  rewrite E1. cbn [bind].
  change (is_divided (set_points n1 [])) with (is_divided n1).
  rewrite D1. cbn [negb is_divided dn].
  pose proof (frame_fields _ _ F1) as (_ & _ & _ & _ & _ & Hdep & Hmx).
  destruct (insert_to_child_ok (insert fuel) fuel (insert_ok fuel)
              (set_points n1 []) x y idx fd) as (n2 & E2 & _).
  { exact C1. }
  { cbn. rewrite Hdep, Hmx. exact Hmax. }
  { unfold fits in *. cbn. rewrite Hdep, Hmx. exact Hf. }
  rewrite E2. eauto.
Qed.

Lemma insert_budget : forall n fuel x y idx fd,
  (budget n <= fuel)%nat -> returns (insert fuel n x y idx fd).
Proof.
  induction n as [n IHa IHb IHc IHd] using node_ind'.
  intros fuel x y idx fd Hb. rewrite budget_eq in Hb.
  destruct fuel as [|fuel]; [lia|].
  destruct (is_divided n) eqn:Hdiv.
  2: { destruct (insert_leaf_runs fuel n x y idx fd Hdiv) as (r & ->);
         [unfold fits; lia|discriminate]. }
  cbn [insert]. unfold insert_body, returns.
  destruct (contains n x y); cbn [negb]; [|discriminate].
  rewrite Hdiv. cbn [negb]. unfold insert_to_child_body.
  destruct (nw n) as [a|]; cbn [child bind opt_all] in *; [|discriminate].
  destruct (contains a x y).
  { specialize (IHa fuel x y idx fd ltac:(lia)). unfold returns in IHa.
    destruct (insert fuel a x y idx fd) as [[? ?]| |]; cbn; congruence. }
  destruct (ne n) as [b|]; cbn [child bind opt_all] in *; [|discriminate].
  destruct (contains b x y).
  { specialize (IHb fuel x y idx fd ltac:(lia)). unfold returns in IHb.
    destruct (insert fuel b x y idx fd) as [[? ?]| |]; cbn; congruence. }
  destruct (sw n) as [c|]; cbn [child bind opt_all] in *; [|discriminate].
  destruct (contains c x y).
  { specialize (IHc fuel x y idx fd ltac:(lia)). unfold returns in IHc.
    destruct (insert fuel c x y idx fd) as [[? ?]| |]; cbn; congruence. }
  destruct (se n) as [d|]; cbn [child bind opt_all] in *; [|discriminate].
  destruct (contains d x y).
  { specialize (IHd fuel x y idx fd ltac:(lia)). unfold returns in IHd.
    destruct (insert fuel d x y idx fd) as [[? ?]| |]; cbn; congruence. }
  discriminate.
Qed.

Lemma query_range_returns : forall n a b c d, returns (query_range n a b c d).
Proof.
  induction n as [n IHa IHb IHc IHd] using node_ind'.
  intros a b c d. rewrite query_range_eq. unfold returns in *.
  destruct (negb (intersects n a b c d)); [discriminate|].
  destruct (is_divided n); [|discriminate].
  destruct (nw n) as [ca|]; cbn [opt_all] in *; [|discriminate].
  specialize (IHa a b c d).
  destruct (query_range ca a b c d); cbn [bind]; try congruence.
  destruct (ne n) as [cb|]; cbn [opt_all] in *; [|discriminate].
  specialize (IHb a b c d).
  destruct (query_range cb a b c d); cbn [bind]; try congruence.
  destruct (sw n) as [cc|]; cbn [opt_all] in *; [|discriminate].
  specialize (IHc a b c d).
  destruct (query_range cc a b c d); cbn [bind]; try congruence.
  destruct (se n) as [cd|]; cbn [opt_all] in *; [|discriminate].
  specialize (IHd a b c d).
  destruct (query_range cd a b c d); cbn [bind]; congruence.
Qed.

(** C10: [insert] and [query_range] terminate.  On every node, of any
    shape, [query_range] returns (it follows the children that exist) and
    [insert] returns within the budget [budget n].  On a node satisfying
    the partition invariant, in particular on every node built by [insert]
    calls, a divided node lies strictly below the maximum depth and its
    children are one level deeper, so [insert] returns a result within
    [max_depth - depth + 1] nested calls, for every sequence of inserts,
    and [query_range] returns a list. *)
Theorem C10_termination (n : QuadtreeNode) :
  (forall a b c d, returns (query_range n a b c d)) /\
  (forall fuel x y idx fd, (budget n <= fuel)%nat -> returns (insert fuel n x y idx fd)) /\
  (partition_inv n ->
   (forall m c, subnode m n -> is_divided m = true -> In (Some c) (children m) ->
      (depth m < max_depth m)%Z /\
      depth c = (depth m + 1)%Z /\ max_depth c = max_depth m) /\
   (forall fuel ps, fits fuel n ->
      exists bs n', insert_all fuel n ps = Ok (bs, n') /\ partition_inv n') /\
   (forall a b c d, exists ids, query_range n a b c d = Ok ids)).
Proof.
  split; [apply query_range_returns|].
  split; [intros; apply insert_budget; assumption|].
  intros Hp. split; [|split].
  - intros m c Hm Hdiv Hin.
    apply (divided_children m c (subnode_inv m n Hm Hp) Hdiv Hin).
  - intros fuel ps Hf.
    destruct (insert_all_runs fuel ps n Hp Hf) as (bs & n' & E).
    exists bs, n'. split; [exact E|].
    clear Hf. revert n bs n' Hp E.
    induction ps as [|p ps IH]; intros n bs n' Hp E; cbn [insert_all] in E.
    + injection E as <- <-. exact Hp.
    + destruct p as [[[x y] idx] fd].
      destruct (insert fuel n x y idx fd) as [[b n1]| |] eqn:E1; cbn [bind] in E;
        try discriminate E.
      destruct (insert_all fuel n1 ps) as [[bs2 n2]| |] eqn:E2; cbn [bind] in E;
        try discriminate E.
      injection E as <- <-.
      destruct (insert_returns _ _ _ _ _ _ _ _ Hp E1) as (m & Em & _ & P1 & _).
      injection Em as _ <-. exact (IH n1 bs2 n2 P1 E2).
  - intros a b c d. apply query_range_runs, Hp.
Qed.

Lemma C10_termination_witness :
  exists bs n',
    insert_all 26 two_point_node [((1 # 4), (1 # 4), 2%Z, None)] = Ok (bs, n') /\
    partition_inv n'.
Proof.
  destruct (C10_termination two_point_node) as (_ & _ & H).
  destruct (H two_point_node_inv) as (_ & Hrun & _).
  apply Hrun. unfold fits. vm_compute. lia.
Defined.

(** ** Building the index *)

Lemma mapM_length {A B : Type} (f : A -> result B) (xs : list A) : forall ys,
  mapM f xs = Ok ys -> length ys = length xs.
Proof.
  induction xs as [|a xs IH]; intros ys H; cbn [mapM] in H.
  - injection H as <-. reflexivity.
  - destruct (f a) as [b| |]; cbn [bind] in H; try discriminate H.
    destruct (mapM f xs) as [bs| |]; cbn [bind] in H; try discriminate H.
    injection H as <-. cbn. f_equal. apply IH. reflexivity.
Qed.

Lemma column_length (points : ndarray) (d : Z) (xs : list Q) :
  column points d = Ok xs -> length xs = length points.
Proof.
  unfold column. destruct (norm_index (shape1 points) d); cbn [bind]; try discriminate.
  apply mapM_length.
Qed.

Lemma getitem_nth {A : Type} (xs : list A) (i : nat) (dflt : A) :
  (i < length xs)%nat -> getitem xs i = Ok (nth i xs dflt).
Proof.
  intros H. unfold getitem.
  destruct (nth_error xs i) as [a|] eqn:E.
  - rewrite (nth_error_nth _ _ dflt E). reflexivity.
  - apply nth_error_None in E. lia.
Qed.

Lemma fold_min_spec (xs : list Q) : forall m,
  let r := fold_left (fun m v => if Qlt_bool v m then v else m) xs m in
  (r = m \/ In r xs) /\ r <= m /\ forall x, In x xs -> r <= x.
Proof.
  induction xs as [|v xs IH]; intros m; cbn [fold_left].
  - cbn. split; [auto|]. split; [lra|]. intros x [].
  - destruct (Qlt_bool v m) eqn:E; qprop.
    + destruct (IH v) as (H1 & H2 & H3). cbv zeta in *. split; [|split].
      * cbn [In]. destruct H1 as [-> | H1]; auto.
      * lra.
      * intros x [<- | Hx]; [exact H2|apply H3, Hx].
    + destruct (IH m) as (H1 & H2 & H3). cbv zeta in *. split; [|split].
      * cbn [In]. tauto.
      * exact H2.
      * intros x [<- | Hx]; [lra|apply H3, Hx].
Qed.

Lemma fold_max_spec (xs : list Q) : forall m,
  let r := fold_left (fun m v => if Qlt_bool m v then v else m) xs m in
  (r = m \/ In r xs) /\ m <= r /\ forall x, In x xs -> x <= r.
Proof.
  induction xs as [|v xs IH]; intros m; cbn [fold_left].
  - cbn. split; [auto|]. split; [lra|]. intros x [].
  - destruct (Qlt_bool m v) eqn:E; qprop.
    + destruct (IH v) as (H1 & H2 & H3). cbv zeta in *. split; [|split].
      * cbn [In]. destruct H1 as [-> | H1]; auto.
      * lra.
      * intros x [<- | Hx]; [exact H2|apply H3, Hx].
    + destruct (IH m) as (H1 & H2 & H3). cbv zeta in *. split; [|split].
      * cbn [In]. tauto.
      * exact H2.
      * intros x [<- | Hx]; [lra|apply H3, Hx].
Qed.

Lemma array_min_spec (xs : list Q) :
  xs <> [] -> exists m, array_min xs = Ok m /\ is_min m xs.
Proof.
  destruct xs as [|x xs]; [congruence|]. intros _. cbn [array_min].
  eexists. split; [reflexivity|].
  destruct (fold_min_spec xs x) as (H1 & H2 & H3). cbv zeta in *.
  split.
  - cbn [In]. destruct H1 as [-> | H1]; auto.
  - intros v [<- | Hv]; [exact H2|apply H3, Hv].
Qed.

Lemma array_max_spec (xs : list Q) :
  xs <> [] -> exists m, array_max xs = Ok m /\ is_max m xs.
Proof.
  destruct xs as [|x xs]; [congruence|]. intros _. cbn [array_max].
  eexists. split; [reflexivity|].
  destruct (fold_max_spec xs x) as (H1 & H2 & H3). cbv zeta in *.
  split.
  - cbn [In]. destruct H1 as [-> | H1]; auto.
  - intros v [<- | Hv]; [exact H2|apply H3, Hv].
Qed.

(** The padded bounding box contains every pair of coordinates. *)
Lemma padded_box_contains (xlo xhi ylo yhi x y : Q) (n : QuadtreeNode) :
  region n = padded_box xlo xhi ylo yhi ->
  xlo <= x -> x <= xhi -> ylo <= y -> y <= yhi ->
  contains n x y = true.
Proof.
  unfold region, padded_box, pad_ratio. intros H.
  injection H as H1 H2 H3 H4. intros.
  apply contains_iff. unfold within. rewrite H1, H2, H3, H4.
  repeat split; lra.
Qed.

Lemma build_root_spec (self : Quadtree) (xs ys : list Q) :
  xs <> [] -> ys <> [] ->
  exists xlo xhi ylo yhi,
    is_min xlo xs /\ is_max xhi xs /\ is_min ylo ys /\ is_max yhi ys /\
    build_root self xs ys =
    Ok (new_node (xlo - (xhi - xlo) * pad_ratio) (xhi + (xhi - xlo) * pad_ratio)
                 (ylo - (yhi - ylo) * pad_ratio) (yhi + (yhi - ylo) * pad_ratio)
                 (tree_capacity self) 0 (tree_max_depth self)).
Proof.
  intros Hx Hy.
  destruct (array_min_spec xs Hx) as (xlo & E1 & H1).
  destruct (array_max_spec xs Hx) as (xhi & E2 & H2).
  destruct (array_min_spec ys Hy) as (ylo & E3 & H3).
  destruct (array_max_spec ys Hy) as (yhi & E4 & H4).
  exists xlo, xhi, ylo, yhi. unfold build_root.
  rewrite E1, E2, E3, E4. cbn [bind]. auto.
Qed.

Lemma build_loop_insert_all (fuel : nat) (points : ndarray) (xs ys : list Q)
      (indices : list Z) : forall node sz i,
  length xs = length points -> length ys = length points ->
  (i + length indices <= length points)%nat ->
  build_loop fuel points xs ys node sz i indices =
  ('(bs, n') <- insert_all fuel node (loop_points points xs ys i indices) ;;
   Ok (n', (sz + Z.of_nat (length indices))%Z)).
Proof.
  induction indices as [|idx rest IH]; intros node sz i Hx Hy Hi.
  - cbn. rewrite Z.add_0_r. reflexivity.
  - cbn [length] in Hi. cbn [build_loop loop_points insert_all].
    rewrite (getitem_nth points i []) by lia.
    rewrite (getitem_nth xs i 0) by lia.
    rewrite (getitem_nth ys i 0) by lia.
    destruct (2 <? shape1 points)%nat; cbn [bind];
      (destruct (insert fuel node (nth i xs 0) (nth i ys 0) idx _) as [[b n1]| |];
       cbn [bind]; [|reflexivity|reflexivity];
       rewrite IH by (cbn; lia);
       destruct (insert_all fuel n1 _) as [[bs n2]| |]; cbn [bind length];
       [|reflexivity|reflexivity];
       do 2 f_equal; lia).
Qed.

Lemma loop_points_spec (points : ndarray) (xs ys : list Q) (indices : list Z) :
  forall i,
  map point_idx (loop_points points xs ys i indices) = indices /\
  forall p, In p (loop_points points xs ys i indices) ->
    exists k, (i <= k < i + length indices)%nat /\
              point_x p = nth k xs 0 /\ point_y p = nth k ys 0.
Proof.
  induction indices as [|idx rest IH]; intros i; cbn [loop_points].
  - split; [reflexivity|]. intros p [].
  - destruct (IH (S i)) as (Hm & Hp). split.
    + cbn. f_equal. exact Hm.
    + intros p [<- | Hin].
      * exists i. cbn. split; [lia|auto].
      * destruct (Hp p Hin) as (k & Hk & Hxy). exists k. cbn [length].
        split; [lia|exact Hxy].
Qed.


(** [build] on a fresh index, for a non-empty array that has the two
    configured columns: the root region, and the loop as a sequence of
    [insert] calls on points that the root contains. *)
Lemma build_unfold (fuel : nat) (xd yd cap maxd : Z) (points : ndarray)
      (indices : option (list Z)) (xs ys : list Q) :
  points <> [] ->
  column points xd = Ok xs -> column points yd = Ok ys ->
  (length (build_indices points indices) <= length points)%nat ->
  let ids := build_indices points indices in
  let ps := loop_points points xs ys 0 ids in
  exists xlo xhi ylo yhi r0,
    (is_min xlo xs /\ is_max xhi xs /\ is_min ylo ys /\ is_max yhi ys) /\
    r0 = new_node (xlo - (xhi - xlo) * pad_ratio) (xhi + (xhi - xlo) * pad_ratio)
                  (ylo - (yhi - ylo) * pad_ratio) (yhi + (yhi - ylo) * pad_ratio)
                  cap 0 maxd /\
    build fuel (new_quadtree xd yd cap maxd) points indices =
      ('(bs, r) <- insert_all fuel r0 ps ;;
       Ok (mkQuadtree xd yd cap maxd (Some r) (Z.of_nat (length ids)))) /\
    (forall k, (k < length points)%nat ->
               contains r0 (nth k xs 0) (nth k ys 0) = true) /\
    Forall (holds r0) ps.
Proof.
  intros Hne Hxs Hys Hlen ids ps.
  pose proof (column_length _ _ _ Hxs) as Lx.
  pose proof (column_length _ _ _ Hys) as Ly.
  assert (Hx : xs <> []) by (destruct xs, points; cbn in *; congruence).
  assert (Hy : ys <> []) by (destruct ys, points; cbn in *; congruence).
  destruct (build_root_spec (new_quadtree xd yd cap maxd) xs ys Hx Hy)
    as (xlo & xhi & ylo & yhi & M1 & M2 & M3 & M4 & Eroot).
  cbn [tree_capacity tree_max_depth new_quadtree] in Eroot.
  set (r0 := new_node _ _ _ _ cap 0 maxd) in Eroot.
  assert (Hin0 : forall k, (k < length points)%nat ->
                           contains r0 (nth k xs 0) (nth k ys 0) = true).
  { intros k Hk. apply (padded_box_contains xlo xhi ylo yhi); [reflexivity| | | |].
    - apply M1, nth_In. lia.
    - apply M2, nth_In. lia.
    - apply M3, nth_In. lia.
    - apply M4, nth_In. lia. }
  exists xlo, xhi, ylo, yhi, r0.
  split; [auto|]. split; [reflexivity|]. split; [|split; [exact Hin0|]].
  - unfold build. cbn [x_dim y_dim size tree_capacity tree_max_depth new_quadtree].
    rewrite Hxs, Hys. cbn [bind]. rewrite Eroot. cbn [bind].
    fold (build_indices points indices). fold ids.
    rewrite (build_loop_insert_all fuel points xs ys ids r0 0%Z 0 Lx Ly) by (cbn; exact Hlen).
    fold ps. destruct (insert_all fuel r0 ps) as [[bs r]| |]; reflexivity.
  - apply Forall_forall. intros q Hq.
    destruct (loop_points_spec points xs ys ids 0) as (_ & Hsp).
    destruct (Hsp q Hq) as (k & Hk & Hqx & Hqy).
    unfold holds. rewrite Hqx, Hqy. apply Hin0. fold ids in Hlen. lia.
Qed.




(** ** The default identifiers *)



(** ** Depth *)

Lemma node_levels_eq (n : QuadtreeNode) :
  node_levels n =
  if negb (is_divided n) then 1%Z
  else (1 + Z.max (Z.max (Z.max (_get_depth_recursive (nw n))
                                (_get_depth_recursive (ne n)))
                         (_get_depth_recursive (sw n)))
                  (_get_depth_recursive (se n)))%Z.
Proof. destruct n; reflexivity. Qed.

Lemma levels_bound : forall n,
  partition_inv n ->
  (node_levels n <= Z.max 0 (max_depth n - depth n) + 1)%Z.
Proof.
  induction n as [n IHa IHb IHc IHd] using node_ind'.
  intros Hp. rewrite node_levels_eq.
  apply partition_inv_eq in Hp.
  destruct (is_divided n); cbn [negb]; [|lia].
  destruct Hp as (_ & Hd & Hc). unfold children_ok in Hc.
  destruct (nw n) as [a|]; [|contradiction].
  destruct (ne n) as [b|]; [|contradiction].
  destruct (sw n) as [c|]; [|contradiction].
  destruct (se n) as [d|]; [|contradiction].
  destruct Hc as ((Fa & Fb & Fc & Fd) & Pa & Pb & Pc & Pd).
  cbn [opt_all _get_depth_recursive] in *.
  apply frame_fields in Fa, Fb, Fc, Fd. cbn in Fa, Fb, Fc, Fd.
  specialize (IHa Pa). specialize (IHb Pb). specialize (IHc Pc). specialize (IHd Pd).
  destruct Fa as (_ & _ & _ & _ & _ & Da & Ma), Fb as (_ & _ & _ & _ & _ & Db & Mb),
           Fc as (_ & _ & _ & _ & _ & Dc & Mc), Fd as (_ & _ & _ & _ & _ & Dd & Md).
  rewrite Da, Ma in IHa. rewrite Db, Mb in IHb.
  rewrite Dc, Mc in IHc. rewrite Dd, Md in IHd.
  lia.
Qed.

Lemma insert_all_inv (fuel : nat) (ps : list Point) : forall n bs n',
  partition_inv n -> insert_all fuel n ps = Ok (bs, n') ->
  partition_inv n' /\ frame n' = frame n.
Proof.
  induction ps as [|p ps IH]; intros n bs n' Hp E; cbn [insert_all] in E.
  - injection E as <- <-. auto.
  - destruct p as [[[x y] idx] fd].
    destruct (insert fuel n x y idx fd) as [[b n1]| |] eqn:E1; cbn [bind] in E;
      try discriminate E.
    destruct (insert_all fuel n1 ps) as [[bs2 n2]| |] eqn:E2; cbn [bind] in E;
      try discriminate E.
    injection E as <- <-.
    destruct (insert_returns _ _ _ _ _ _ _ _ Hp E1) as (m & Em & F1 & P1 & _).
    injection Em as _ <-.
    destruct (IH n1 bs2 n2 P1 E2) as (P2 & F2). split; [exact P2|congruence].
Qed.

(** C3 as the code has it: the depth reported by [get_depth] after [build],
    and after any further [insert] calls on the root, is at most
    [max_depth + 1] (at most 1 when [max_depth] is not positive): the root
    has depth 0 and nodes down to depth [max_depth] may exist, so the tree
    has up to [max_depth + 1] levels. *)
Theorem C3_depth_bound (fuel : nat) (self : Quadtree) (points : ndarray)
        (indices : option (list Z)) (t : Quadtree) :
  build fuel self points indices = Ok t ->
  (get_depth t <= Z.max (tree_max_depth t) 0 + 1)%Z /\
  forall r fuel' ps bs r',
    root t = Some r -> insert_all fuel' r ps = Ok (bs, r') ->
    (node_levels r' <= Z.max (tree_max_depth t) 0 + 1)%Z.
Proof.
  intros E. destruct (build_inv _ _ _ _ _ E) as (Hm & r & Er & Hp & _ & Hd & Hmx).
  rewrite Hm. split.
  - unfold get_depth. rewrite Er. cbn [_get_depth_recursive].
    pose proof (levels_bound r Hp). lia.
  - intros r1 fuel' ps bs r' Er1 Erun. rewrite Er in Er1. injection Er1 as <-.
    destruct (insert_all_inv _ _ _ _ _ Hp Erun) as (Hp' & F).
    apply frame_fields in F. destruct F as (_ & _ & _ & _ & _ & Fd & Fm).
    pose proof (levels_bound r' Hp'). lia.
Qed.

Lemma split_once_tree_built :
  build 2 (new_quadtree 0 1 1 1) two_rows None = Ok split_once_tree.
Proof. vm_compute. reflexivity. Qed.

Lemma C3_depth_bound_witness :
  build 2 (new_quadtree 0 1 1 1) two_rows None = Ok split_once_tree /\
  (get_depth split_once_tree <= Z.max (tree_max_depth split_once_tree) 0 + 1)%Z.
Proof.
  split; [exact split_once_tree_built|].
  exact (proj1 (C3_depth_bound 2 (new_quadtree 0 1 1 1) two_rows None
                  split_once_tree split_once_tree_built)).
Defined.

(** The reported depth exceeds [max_depth]: with [max_depth = 1] and
    [capacity = 1], two distinct points split the root once and
    [get_depth] is 2. *)
Lemma C3_counterexample :
  build 2 (new_quadtree 0 1 1 1) two_rows None = Ok split_once_tree /\
  tree_max_depth split_once_tree = 1%Z /\ get_depth split_once_tree = 2%Z /\
  ~ (get_depth split_once_tree <= tree_max_depth split_once_tree)%Z.
Proof.
  split; [exact split_once_tree_built|].
  split; [reflexivity|]. split; [reflexivity|].
  intros H. vm_compute in H. apply H. reflexivity.
Qed.

(** ** Coincident points *)

Lemma coincident_true (p0 : Point) (ps : list Point) :
  (2 <= length ps)%nat -> hd_error ps = Some p0 -> Forall (near p0) ps ->
  coincident ps = true.
Proof.
  intros Hlen Hhd Hall.
  destruct ps as [|q [|q' ps]]; cbn in Hlen; try lia.
  cbn in Hhd. injection Hhd as ->. cbn [coincident]. unfold all_same.
  apply forallb_forall. intros q Hq.
  rewrite Forall_forall in Hall. destruct (Hall q Hq) as (Hx & Hy).
  rewrite andb_true_iff, !Qlt_bool_iff. auto.
Qed.

Lemma set_points_same (n : QuadtreeNode) : set_points n (points n) = n.
Proof. destruct n; reflexivity. Qed.

(** On an undivided node, points near the first point held are appended,
    whatever their number, when the capacity is at least 2 or the node is
    at its maximum depth. *)
Lemma coincident_inserts (fuel : nat) (p0 : Point) (ps : list Point) : forall n,
  is_divided n = false ->
  (2 <= capacity n \/ max_depth n <= depth n)%Z ->
  Forall (near p0) (points n ++ ps) ->
  hd_error (points n ++ ps) = Some p0 ->
  Forall (holds n) ps ->
  insert_all (S fuel) n ps =
  Ok (map (fun _ => true) ps, set_points n (points n ++ ps)).
Proof.
  induction ps as [|p ps IH]; intros n Hdiv Hcap Hnear Hhd Hin.
  - cbn. rewrite app_nil_r, set_points_same. reflexivity.
  - destruct p as [[[x y] idx] fd].
    inversion Hin as [|? ? Hp Hps]; subst.
    assert (E : insert (S fuel) n x y idx fd =
                Ok (true, set_points n (points n ++ [(x, y, idx, fd)]))).
    { cbn [insert]. unfold insert_body. unfold holds in Hp. cbn in Hp.
      rewrite Hp, Hdiv. cbn [negb].
      destruct (Z.of_nat (length (points n)) <? capacity n)%Z eqn:Hlen; [reflexivity|].
      destruct (max_depth n <=? depth n)%Z eqn:Hmax; [reflexivity|].
      unfold subdivide_body. rewrite Hmax.
      apply Z.ltb_ge in Hlen. apply Z.leb_gt in Hmax.
      rewrite (coincident_true p0 (points n)).
      - cbn [bind]. rewrite Hdiv. reflexivity.
      - lia.
      - destruct (points n); [cbn in Hlen; lia|exact Hhd].
      - apply Forall_app in Hnear. apply Hnear. }
    cbn [insert_all]. rewrite E. cbn [bind].
    rewrite (IH (set_points n (points n ++ [(x, y, idx, fd)]))).
    + cbn [bind map set_points points]. rewrite <- app_assoc. reflexivity.
    + exact Hdiv.
    + exact Hcap.
    + cbn [set_points points]. rewrite <- app_assoc. exact Hnear.
    + cbn [set_points points]. rewrite <- app_assoc. exact Hhd.
    + exact Hps.
Qed.

Lemma near_same (p0 q : Point) :
  point_x q = point_x p0 -> point_y q = point_y p0 -> near p0 q.
Proof.
  unfold near, eps. intros -> ->.
  setoid_replace (point_x p0 - point_x p0) with 0 by ring.
  setoid_replace (point_y p0 - point_y p0) with 0 by ring.
  split; reflexivity.
Qed.

(** C4 as the code has it: with a capacity of at least 2 (or on a node
    already at its maximum depth), inserting any number of points that lie
    within [1e-10] of the first one on both axes, into a fresh node that
    contains them, returns [True] for each within a single call frame and
    leaves one undivided leaf that holds all of them in insertion order;
    this is what [build] does on an array whose rows have the same two
    coordinates. *)
Theorem C4_coincident_points (cap maxd : Z) :
  (forall fuel xmin xmax ymin ymax d p0 rest,
     let n0 := new_node xmin xmax ymin ymax cap d maxd in
     (2 <= cap \/ maxd <= d)%Z ->
     Forall (near p0) rest -> Forall (holds n0) (p0 :: rest) ->
     insert_all (S fuel) n0 (p0 :: rest) =
     Ok (map (fun _ => true) (p0 :: rest), set_points n0 (p0 :: rest))) /\
  (forall fuel xd yd pts indices xs ys x y,
     (2 <= cap \/ maxd <= 0)%Z ->
     pts <> [] ->
     column pts xd = Ok xs -> column pts yd = Ok ys ->
     (forall v, In v xs -> v = x) -> (forall v, In v ys -> v = y) ->
     (length (build_indices pts indices) <= length pts)%nat ->
     exists r,
       build (S fuel) (new_quadtree xd yd cap maxd) pts indices =
       Ok (mkQuadtree xd yd cap maxd (Some r)
                      (Z.of_nat (length (build_indices pts indices)))) /\
       is_divided r = false /\ no_children r /\
       points r = loop_points pts xs ys 0 (build_indices pts indices) /\
       insert_all (S fuel) (set_points r []) (points r) =
       Ok (map (fun _ => true) (points r), r)).
Proof.
  split.
  - intros fuel xmin xmax ymin ymax d p0 rest n0 Hcap Hnear Hin.
    apply (coincident_inserts fuel p0 (p0 :: rest) n0); auto.
    cbn. constructor; [|exact Hnear]. apply near_same; reflexivity.
  - intros fuel xd yd pts indices xs ys x y Hcap Hne Hxs Hys Hx Hy Hlen.
    destruct (build_unfold (S fuel) xd yd cap maxd pts indices xs ys Hne Hxs Hys Hlen)
      as (xlo & xhi & ylo & yhi & r0 & _ & Er0 & Eb & _ & Hall).
    cbv zeta in Eb, Hall.
    set (ids := build_indices pts indices) in *.
    set (ps := loop_points pts xs ys 0 ids) in *.
    assert (Hxy : forall q, In q ps -> point_x q = x /\ point_y q = y).
    { intros q Hq. destruct (loop_points_spec pts xs ys ids 0) as (_ & Hsp).
      destruct (Hsp q Hq) as (k & Hk & -> & ->).
      pose proof (column_length _ _ _ Hxs). pose proof (column_length _ _ _ Hys).
      split; [apply Hx|apply Hy]; apply nth_In; lia. }
    assert (Hrun : insert_all (S fuel) r0 ps = Ok (map (fun _ => true) ps, set_points r0 ps)).
    { subst r0. destruct ps as [|p0 rest] eqn:Eps; [reflexivity|].
      refine (coincident_inserts fuel p0 (p0 :: rest) (new_node _ _ _ _ cap 0 maxd)
                eq_refl Hcap _ eq_refl Hall).
      cbn [new_node points app]. apply Forall_forall. intros q Hq.
      destruct (Hxy q Hq) as (Hqx & Hqy).
      destruct (Hxy p0 (or_introl eq_refl)) as (Hpx & Hpy).
      apply near_same; congruence. }
    exists (set_points r0 ps). rewrite Eb, Hrun. cbn [bind].
    split; [reflexivity|]. subst r0. cbn [set_points new_node points is_divided].
    split; [reflexivity|]. split; [unfold no_children; cbn; auto|].
    split; [reflexivity|]. exact Hrun.
Qed.

Lemma C4_coincident_points_witness :
  insert_all 1 (new_node 0 1 0 1 2 0 25)
    [(0, 0, 0%Z, None); (0, 0, 1%Z, None); (0, 0, 2%Z, None)] =
  Ok ([true; true; true],
      set_points (new_node 0 1 0 1 2 0 25)
        [(0, 0, 0%Z, None); (0, 0, 1%Z, None); (0, 0, 2%Z, None)]).
Proof.
  apply (proj1 (C4_coincident_points 2 25) 0%nat 0 1 0 1 0%Z (0, 0, 0%Z, None)
           [(0, 0, 1%Z, None); (0, 0, 2%Z, None)]).
  - left. lia.
  - repeat constructor.
  - repeat constructor.
Defined.

Lemma same_rows_tree_built :
  build 26 (new_quadtree 0 1 1 25) same_rows None = Ok same_rows_tree.
Proof. vm_compute. reflexivity. Qed.

(** With [capacity = 1 < 2 = N] the second of two points at the origin
    splits the root: the tree is not a single leaf (it is 26 levels deep). *)
Lemma C4_counterexample :
  build 26 (new_quadtree 0 1 1 25) same_rows None = Ok same_rows_tree /\
  exists r, root same_rows_tree = Some r /\
            is_divided r = true /\ points r = [] /\
            get_depth same_rows_tree = 26%Z.
Proof.
  split; [exact same_rows_tree_built|].
  vm_compute. eexists. repeat split.
Qed.

(** ** Sample runs *)

Example run_two_points :
  (t <- build 2 (new_quadtree 0 1 1 1) [row2 0 0; row2 1 1] None ;;
   r <- tree_query_range t (0, 2) (0, 2) ;;
   Ok (r, get_depth t, size t)) = Ok ([1%Z; 0%Z], 2%Z, 2%Z).
Proof. vm_compute. reflexivity. Qed.


Example run_five_points :
  (t <- build 26 (new_quadtree 0 1 50 25) five_rows None ;;
   r <- tree_query_range t (0, 2) (0, 2) ;;
   Ok (r, get_depth t, size t)) = Ok ([0%Z; 1%Z], 1%Z, 5%Z).
Proof. vm_compute. reflexivity. Qed.

Example run_five_points_split :
  (t <- build 26 (new_quadtree 0 1 2 25) five_rows None ;;
   r <- tree_query_range t (0, 2) (0, 2) ;;
   all <- tree_query_range t (-1, 11) (-1, 11) ;;
   Ok (r, all, get_depth t)) =
  Ok ([0%Z; 1%Z], [2%Z; 3%Z; 4%Z; 0%Z; 1%Z], 2%Z).
Proof. vm_compute. reflexivity. Qed.

(** * Further properties of the module *)

(** ** What [insert] does to the stored points *)

Lemma subnode_inside (m n : QuadtreeNode) :
  subnode m n -> inside_inv n -> inside_inv m.
Proof.
  induction 1 as [|n c E _ IH|n c E _ IH|n c E _ IH|n c E _ IH]; intros Hi;
    [exact Hi| | | |];
    apply IH; apply inside_inv_eq in Hi;
    destruct Hi as (_ & Ha & Hb & Hc & Hd);
    rewrite E in *; assumption.
Qed.

(** X2: in a tree built by [__init__], [build] and [insert] calls, every
    point stored in a node or below it lies in the region of that node;
    this is what makes the pruning of [query_range] safe. *)
Theorem X2_points_inside_region (n m : QuadtreeNode) :
  reachable n -> subnode m n ->
  forall p, In p (contents m) -> contains m (point_x p) (point_y p) = true.
Proof.
  intros Hr Hm p Hp.
  destruct (reachable_inv n Hr) as (_ & Hi).
  pose proof (subnode_inside m n Hm Hi) as Him.
  apply inside_inv_eq in Him. destruct Him as (Hall & _).
  rewrite Forall_forall in Hall. exact (Hall p Hp).
Qed.

Lemma X2_points_inside_region_witness :
  In (1, 1, 1%Z, None) (contents two_point_node) /\
  contains two_point_node 1 1 = true.
Proof.
  assert (Hin : In (1, 1, 1%Z, @None (list Q)) (contents two_point_node))
    by (vm_compute; auto).
  split; [exact Hin|].
  exact (X2_points_inside_region two_point_node two_point_node
           two_point_node_reachable (sub_refl _) (1, 1, 1%Z, None) Hin).
Defined.

(** ** Range queries as filters *)

Lemma reachable_query (n : QuadtreeNode) (a b c d : Q) :
  reachable n -> query_range n a b c d = Ok (scan a b c d (contents n)).
Proof.
  intros Hr. destruct (reachable_inv n Hr) as (Hp & Hi).
  apply query_range_contents; assumption.
Qed.

Lemma scan_count_le (a b c d a' b' c' d' : Q) (l : list Point) (i : Z) :
  a' <= a -> b <= b' -> c' <= c -> d <= d' ->
  (count_occ Z.eq_dec (scan a b c d l) i <=
   count_occ Z.eq_dec (scan a' b' c' d' l) i)%nat.
Proof.
  intros Ha Hb Hc Hd. unfold scan.
  induction l as [|p l IH]; [cbn; lia|].
  cbn [filter].
  destruct (in_range a b c d p) eqn:E1.
  - assert (E2 : in_range a' b' c' d' p = true).
    { apply in_range_iff in E1. apply in_range_iff. unfold within in *.
      destruct E1 as (? & ? & ? & ?). repeat split; lra. }
    rewrite E2. cbn [map count_occ].
    destruct (Z.eq_dec (point_idx p) i); lia.
  - destruct (in_range a' b' c' d' p); [|exact IH].
    cbn [map count_occ]. destruct (Z.eq_dec (point_idx p) i); lia.
Qed.

Lemma scan_length_le (a b c d a' b' c' d' : Q) (l : list Point) :
  a' <= a -> b <= b' -> c' <= c -> d <= d' ->
  (length (scan a b c d l) <= length (scan a' b' c' d' l))%nat.
Proof.
  intros Ha Hb Hc Hd. unfold scan. rewrite !length_map.
  induction l as [|p l IH]; [cbn; lia|].
  cbn [filter].
  destruct (in_range a b c d p) eqn:E1.
  - assert (E2 : in_range a' b' c' d' p = true).
    { apply in_range_iff in E1. apply in_range_iff. unfold within in *.
      destruct E1 as (? & ? & ? & ?). repeat split; lra. }
    rewrite E2. cbn [length]. lia.
  - destruct (in_range a' b' c' d' p); cbn [length]; lia.
Qed.

Lemma scan_inverted (a b c d : Q) (l : list Point) :
  b < a \/ d < c -> scan a b c d l = [].
Proof.
  intros Hinv. unfold scan.
  induction l as [|p l IH]; [reflexivity|].
  cbn [filter]. destruct (in_range a b c d p) eqn:E; [|exact IH].
  exfalso. apply in_range_iff in E. unfold within in E.
  destruct E as (? & ? & ? & ?). destruct Hinv; lra.
Qed.

(** X3: on a tree built by [__init__], [build] and [insert] calls,
    [query_range] is monotone in the box: every identifier is returned by a
    query on a box at most as often as by a query on a box that includes it,
    so the smaller query never returns more results. *)
Theorem X3_query_range_monotone (n : QuadtreeNode) (a b c d a' b' c' d' : Q) :
  reachable n ->
  a' <= a -> b <= b' -> c' <= c -> d <= d' ->
  exists l l',
    query_range n a b c d = Ok l /\
    query_range n a' b' c' d' = Ok l' /\
    (forall i, (count_occ Z.eq_dec l i <= count_occ Z.eq_dec l' i)%nat) /\
    incl l l' /\ (length l <= length l')%nat.
Proof.
  intros Hr Ha Hb Hc Hd.
  exists (scan a b c d (contents n)), (scan a' b' c' d' (contents n)).
  split; [apply reachable_query, Hr|]. split; [apply reachable_query, Hr|].
  assert (Hcount : forall i,
             (count_occ Z.eq_dec (scan a b c d (contents n)) i <=
              count_occ Z.eq_dec (scan a' b' c' d' (contents n)) i)%nat).
  { intros i. apply scan_count_le; assumption. }
  split; [exact Hcount|]. split.
  - intros i Hi. apply (count_occ_In Z.eq_dec) in Hi.
    apply (count_occ_In Z.eq_dec). specialize (Hcount i). lia.
  - apply scan_length_le; assumption.
Qed.

Lemma X3_query_range_monotone_witness :
  exists l l',
    query_range two_point_node 0 (1 # 2) 0 (1 # 2) = Ok l /\
    query_range two_point_node 0 1 0 1 = Ok l' /\
    (forall i, (count_occ Z.eq_dec l i <= count_occ Z.eq_dec l' i)%nat) /\
    incl l l' /\ (length l <= length l')%nat.
Proof.
  apply (X3_query_range_monotone two_point_node 0 (1 # 2) 0 (1 # 2) 0 1 0 1
           two_point_node_reachable); discriminate.
Defined.

(** X4: on a tree built by [__init__], [build] and [insert] calls, a
    query box whose lower bound exceeds its upper bound on some axis returns
    the empty list; it is not an error. *)
Theorem X4_query_range_inverted_box (n : QuadtreeNode) (a b c d : Q) :
  reachable n -> b < a \/ d < c ->
  query_range n a b c d = Ok [].
Proof.
  intros Hr Hinv. rewrite (reachable_query n a b c d Hr).
  rewrite (scan_inverted a b c d _ Hinv). reflexivity.
Qed.

Lemma X4_query_range_inverted_box_witness :
  query_range two_point_node 1 0 0 1 = Ok [].
Proof.
  apply (X4_query_range_inverted_box two_point_node 1 0 0 1
           two_point_node_reachable).
  left. reflexivity.
Defined.

(** ** [build] on an index that was built before *)

Lemma build_loop_size (fuel : nat) (points : ndarray) (xs ys : list Q)
      (indices : list Z) : forall node sz i,
  build_loop fuel points xs ys node sz i indices =
  ('(n', s) <- build_loop fuel points xs ys node 0%Z i indices ;;
   Ok (n', (sz + s)%Z)).
Proof.
  induction indices as [|idx rest IH]; intros node sz i; cbn [build_loop].
  - cbn. rewrite Z.add_0_r. reflexivity.
  - destruct (if (2 <? shape1 points)%nat then _ else _) as [fd| |];
      cbn [bind]; try reflexivity.
    destruct (getitem xs i) as [x| |]; cbn [bind]; try reflexivity.
    destruct (getitem ys i) as [y| |]; cbn [bind]; try reflexivity.
    destruct (insert fuel node x y idx fd) as [[b n1]| |]; cbn [bind];
      try reflexivity.
    rewrite (IH n1 (sz + 1)%Z), (IH n1 (0 + 1)%Z).
    destruct (build_loop fuel points xs ys n1 0%Z (S i) rest) as [[n2 s]| |];
      cbn [bind]; try reflexivity.
    do 2 f_equal. lia.
Qed.

(** X8: [build] does not look at the root left by an earlier [build] and
    does not reset [size]: its outcome is the one on a fresh index with the
    same configuration, except that [size] is the earlier size plus the
    number of identifiers processed.  After a second [build] the tree holds
    the rows of the second array only, while [size] counts both. *)
Theorem X8_build_again (fuel : nat) (self : Quadtree) (pts : ndarray)
        (indices : option (list Z)) :
  build fuel self pts indices =
  (t <- build fuel (new_quadtree (x_dim self) (y_dim self)
                                 (tree_capacity self) (tree_max_depth self))
              pts indices ;;
   Ok (mkQuadtree (x_dim self) (y_dim self) (tree_capacity self)
                  (tree_max_depth self) (root t) (size self + size t)%Z)).
Proof.
  unfold build. cbn [x_dim y_dim tree_capacity tree_max_depth size new_quadtree].
  destruct (column pts (x_dim self)) as [xs| |]; cbn [bind]; try reflexivity.
  destruct (column pts (y_dim self)) as [ys| |]; cbn [bind]; try reflexivity.
  unfold build_root. cbn [tree_capacity tree_max_depth].
  destruct (array_min xs) as [a| |]; cbn [bind]; try reflexivity.
  destruct (array_max xs) as [b| |]; cbn [bind]; try reflexivity.
  destruct (array_min ys) as [c| |]; cbn [bind]; try reflexivity.
  destruct (array_max ys) as [d| |]; cbn [bind]; try reflexivity.
  rewrite build_loop_size.
  destruct (build_loop fuel pts xs ys _ 0%Z 0 _) as [[r s]| |]; cbn [bind];
    reflexivity.
Qed.

(** ** Exceptions of [build] *)

Lemma norm_index_invalid (n : nat) (d : Z) :
  ~ valid_column n d -> norm_index n d = Raise IndexError.
Proof.
  unfold valid_column, norm_index. intros H.
  destruct ((0 <=? d)%Z && (d <? Z.of_nat n)%Z) eqn:E1.
  { apply andb_true_iff in E1. lia. }
  destruct ((- Z.of_nat n <=? d)%Z && (d <? 0)%Z) eqn:E2; [|reflexivity].
  apply andb_true_iff in E2. lia.
Qed.

Lemma mapM_getitem_result {A : Type} (j : nat) (rows : list (list A)) :
  (exists l, mapM (fun row => getitem row j) rows = Ok l) \/
  mapM (fun row => getitem row j) rows = Raise IndexError.
Proof.
  induction rows as [|row rows IH]; cbn [mapM]; [left; eexists; reflexivity|].
  assert (G : (exists a, getitem row j = Ok a) \/ getitem row j = Raise IndexError).
  { unfold getitem. destruct (nth_error row j); eauto. }
  destruct G as [(a & G) | G]; rewrite G; cbn [bind].
  - destruct IH as [(l & E) | E]; rewrite E; cbn [bind].
    + left. eexists. reflexivity.
    + right. reflexivity.
  - right. reflexivity.
Qed.

Lemma column_result (points : ndarray) (d : Z) :
  (exists xs, column points d = Ok xs) \/ column points d = Raise IndexError.
Proof.
  unfold column, norm_index.
  destruct ((0 <=? d)%Z && _); cbn [bind]; [apply mapM_getitem_result|].
  destruct ((- Z.of_nat (shape1 points) <=? d)%Z && _); cbn [bind];
    [apply mapM_getitem_result|auto].
Qed.

(** X9: when [x_dim] or [y_dim] is not a column of the array (numpy's
    rule: from [-ncols] to [ncols - 1]), [build] on an array with rows
    raises [IndexError]; no index is returned. *)
Theorem X9_build_bad_column (fuel : nat) (self : Quadtree) (pts : ndarray)
        (indices : option (list Z)) :
  pts <> [] ->
  ~ valid_column (shape1 pts) (x_dim self) \/
  ~ valid_column (shape1 pts) (y_dim self) ->
  build fuel self pts indices = Raise IndexError.
Proof.
  intros _ [Hx | Hy]; unfold build.
  - unfold column at 1. rewrite (norm_index_invalid _ _ Hx). reflexivity.
  - destruct (column_result pts (x_dim self)) as [(xs & E) | E]; rewrite E;
      cbn [bind]; [|reflexivity].
    unfold column at 1. rewrite (norm_index_invalid _ _ Hy). reflexivity.
Qed.

Lemma X9_build_bad_column_witness :
  build 26 (new_quadtree 0 1 50 25) narrow_rows None = Raise IndexError.
Proof.
  apply (X9_build_bad_column 26 (new_quadtree 0 1 50 25) narrow_rows None).
  - discriminate.
  - right. unfold valid_column. cbn. lia.
Defined.

(** X10: [build] on an array without rows raises an exception, whatever
    the configuration and the identifiers: the bounding box of no points
    does not exist, and no empty index is returned. *)
Theorem X10_build_empty (fuel : nat) (self : Quadtree) (indices : option (list Z)) :
  exists e, build fuel self [] indices = Raise e.
Proof.
  exists IndexError. unfold build, column. cbn [shape1].
  rewrite norm_index_invalid; [reflexivity|].
  unfold valid_column. cbn. lia.
Qed.

Lemma build_loop_app (fuel : nat) (points : ndarray) (xs ys : list Q)
      (l1 l2 : list Z) : forall node sz i,
  build_loop fuel points xs ys node sz i (l1 ++ l2) =
  ('(n', s) <- build_loop fuel points xs ys node sz i l1 ;;
   build_loop fuel points xs ys n' s (i + length l1) l2).
Proof.
  induction l1 as [|idx rest IH]; intros node sz i; cbn [app build_loop length].
  - cbn [bind]. rewrite Nat.add_0_r. reflexivity.
  - destruct (if (2 <? shape1 points)%nat then _ else _) as [fd| |];
      cbn [bind]; try reflexivity.
    destruct (getitem xs i) as [x| |]; cbn [bind]; try reflexivity.
    destruct (getitem ys i) as [y| |]; cbn [bind]; try reflexivity.
    destruct (insert fuel node x y idx fd) as [[b n1]| |]; cbn [bind];
      try reflexivity.
    rewrite IH. replace (S i + length rest)%nat with (i + S (length rest))%nat by lia.
    reflexivity.
Qed.

Lemma getitem_out {A : Type} (xs : list A) (i : nat) :
  (length xs <= i)%nat -> getitem xs i = Raise IndexError.
Proof.
  intros H. unfold getitem.
  destruct (nth_error xs i) eqn:E; [|reflexivity].
  exfalso. assert (Hn : nth_error xs i <> None) by congruence.
  apply nth_error_Some in Hn. lia.
Qed.

(** X11: when [indices] has more entries than the array has rows, [build]
    on a fresh index raises [IndexError], at the first identifier that has
    no row. *)
Theorem X11_build_too_many_indices (fuel : nat) (xd yd cap maxd : Z)
        (pts : ndarray) (l : list Z) (xs ys : list Q) :
  pts <> [] ->
  column pts xd = Ok xs -> column pts yd = Ok ys ->
  (length pts < length l)%nat ->
  (Z.to_nat maxd < fuel)%nat ->
  build fuel (new_quadtree xd yd cap maxd) pts (Some l) = Raise IndexError.
Proof.
  intros Hne Hxs Hys Hlen Hfuel.
  pose proof (column_length _ _ _ Hxs) as Lx.
  pose proof (column_length _ _ _ Hys) as Ly.
  assert (Hx : xs <> []) by (destruct xs, pts; cbn in *; congruence).
  assert (Hy : ys <> []) by (destruct ys, pts; cbn in *; congruence).
  destruct (build_root_spec (new_quadtree xd yd cap maxd) xs ys Hx Hy)
    as (xlo & xhi & ylo & yhi & _ & _ & _ & _ & Eroot).
  cbn [tree_capacity tree_max_depth new_quadtree] in Eroot.
  set (r0 := new_node _ _ _ _ cap 0 maxd) in Eroot.
  unfold build. cbn [x_dim y_dim size new_quadtree].
  rewrite Hxs, Hys. cbn [bind]. rewrite Eroot. cbn [bind].
  rewrite <- (firstn_skipn (length pts) l).
  rewrite build_loop_app.
  assert (Hl1 : length (firstn (length pts) l) = length pts)
    by (rewrite length_firstn; lia).
  rewrite (build_loop_insert_all fuel pts xs ys _ r0 0%Z 0 Lx Ly) by (cbn; lia).
  destruct (insert_all_runs fuel
              (loop_points pts xs ys 0 (firstn (length pts) l)) r0)
    as (bs & r & Erun).
  { apply new_node_inv. }
  { unfold fits. cbn. rewrite Z.sub_0_r. exact Hfuel. }
  rewrite Erun. cbn [bind]. rewrite Hl1. cbn [Nat.add].
  destruct (skipn (length pts) l) as [|idx rest] eqn:Es.
  { exfalso. pose proof (f_equal (@length Z) Es) as Hs.
    rewrite length_skipn in Hs. cbn in Hs. lia. }
  cbn [build_loop].
  destruct (2 <? shape1 pts)%nat.
  - rewrite (getitem_out pts (length pts)) by lia. reflexivity.
  - cbn [bind]. rewrite (getitem_out xs (length pts)) by lia. reflexivity.
Qed.

Lemma X11_build_too_many_indices_witness :
  build 26 (new_quadtree 0 1 50 25) two_rows (Some [5%Z; 6%Z; 7%Z]) =
  Raise IndexError.
Proof.
  apply (X11_build_too_many_indices 26 0 1 50 25 two_rows [5%Z; 6%Z; 7%Z]
           [0; 1] [0; 1]).
  - discriminate.
  - reflexivity.
  - reflexivity.
  - cbn. lia.
  - vm_compute. lia.
Defined.

(** ** An index that never splits *)

Lemma under_capacity_inserts (fuel : nat) (ps : list Point) : forall n,
  is_divided n = false ->
  (Z.of_nat (length (points n) + length ps) <= capacity n)%Z ->
  Forall (holds n) ps ->
  insert_all (S fuel) n ps =
  Ok (map (fun _ => true) ps, set_points n (points n ++ ps)).
Proof.
  induction ps as [|p ps IH]; intros n Hdiv Hcap Hin.
  - cbn. rewrite app_nil_r, set_points_same. reflexivity.
  - destruct p as [[[x y] idx] fd].
    inversion Hin as [|? ? Hp Hps]; subst.
    assert (E : insert (S fuel) n x y idx fd =
                Ok (true, set_points n (points n ++ [(x, y, idx, fd)]))).
    { cbn [insert]. unfold insert_body. unfold holds in Hp. cbn in Hp.
      rewrite Hp, Hdiv. cbn [negb].
      destruct (Z.of_nat (length (points n)) <? capacity n)%Z eqn:Hlen; [reflexivity|].
      apply Z.ltb_ge in Hlen. cbn [length] in Hcap. lia. }
    cbn [insert_all]. rewrite E. cbn [bind].
    rewrite (IH (set_points n (points n ++ [(x, y, idx, fd)]))).
    + cbn [bind map set_points points]. rewrite <- app_assoc. reflexivity.
    + exact Hdiv.
    + cbn [set_points points capacity]. rewrite length_app. cbn [length] in *. lia.
    + exact Hps.
Qed.

(** X12: on a fresh index, when the number of identifiers does not exceed
    the capacity, [build] leaves a single undivided root that holds the
    points in row order; [get_depth] is 1 and every range query returns the
    identifiers of the rows in the box in row order. *)
Theorem X12_build_within_capacity (fuel : nat) (xd yd cap maxd : Z)
        (pts : ndarray) (indices : option (list Z)) (xs ys : list Q) :
  pts <> [] ->
  column pts xd = Ok xs -> column pts yd = Ok ys ->
  (length (build_indices pts indices) <= length pts)%nat ->
  (Z.of_nat (length (build_indices pts indices)) <= cap)%Z ->
  exists t r,
    build (S fuel) (new_quadtree xd yd cap maxd) pts indices = Ok t /\
    root t = Some r /\
    is_divided r = false /\ no_children r /\
    points r = loop_points pts xs ys 0 (build_indices pts indices) /\
    get_depth t = 1%Z /\
    forall a b c d,
      tree_query_range t (a, b) (c, d) = Ok (scan a b c d (points r)).
Proof.
  intros Hne Hxs Hys Hlen Hcap.
  destruct (build_unfold (S fuel) xd yd cap maxd pts indices xs ys Hne Hxs Hys Hlen)
    as (xlo & xhi & ylo & yhi & r0 & _ & Er0 & Eb & _ & Hall).
  cbv zeta in Eb, Hall.
  set (ids := build_indices pts indices) in *.
  set (ps := loop_points pts xs ys 0 ids) in *.
  assert (Hps : length ps = length ids).
  { unfold ps. rewrite <- (length_map point_idx).
    rewrite (proj1 (loop_points_spec pts xs ys ids 0)). reflexivity. }
  assert (Hrun : insert_all (S fuel) r0 ps =
                 Ok (map (fun _ => true) ps, set_points r0 ps)).
  { subst r0.
    refine (under_capacity_inserts fuel ps (new_node _ _ _ _ cap 0 maxd)
              eq_refl _ Hall).
    cbn [new_node points capacity length Nat.add]. lia. }
  rewrite Hrun in Eb. cbn [bind] in Eb.
  assert (Hnc : no_children (set_points r0 ps))
    by (subst r0; unfold no_children; cbn; auto).
  assert (Hleaf : is_divided (set_points r0 ps) = false) by (subst r0; reflexivity).
  assert (Hpts : points (set_points r0 ps) = ps) by reflexivity.
  eexists _, (set_points r0 ps).
  split; [exact Eb|]. split; [reflexivity|]. split; [exact Hleaf|].
  split; [exact Hnc|]. split; [exact Hpts|]. split.
  - unfold get_depth. cbn [root _get_depth_recursive].
    rewrite node_levels_eq, Hleaf. reflexivity.
  - intros a b c d. unfold tree_query_range. cbn [root fst snd].
    rewrite query_range_contents.
    + rewrite (contents_leaf _ Hnc). reflexivity.
    + apply partition_inv_eq. rewrite Hleaf. exact Hnc.
    + apply inside_inv_eq. rewrite (contents_leaf _ Hnc), Hpts.
      destruct Hnc as (-> & -> & -> & ->). cbn [opt_all].
      split; [|auto]. eapply Forall_impl; [|exact Hall].
      intros q Hq. exact Hq.
Qed.

Lemma X12_build_within_capacity_witness :
  exists t r,
    build 1 (new_quadtree 0 1 50 25) five_rows None = Ok t /\
    root t = Some r /\
    is_divided r = false /\ no_children r /\
    points r = loop_points five_rows [0; 1; 5; 9; 10] [0; 1; 5; 9; 10] 0
                           (build_indices five_rows None) /\
    get_depth t = 1%Z /\
    forall a b c d,
      tree_query_range t (a, b) (c, d) = Ok (scan a b c d (points r)).
Proof.
  apply (X12_build_within_capacity 0 0 1 50 25 five_rows None
           [0; 1; 5; 9; 10] [0; 1; 5; 9; 10]).
  - discriminate.
  - reflexivity.
  - reflexivity.
  - cbn. lia.
  - cbn. lia.
Defined.

(** ** The reported depth and the depth of the nodes *)

Lemma node_levels_pos : forall n, (1 <= node_levels n)%Z.
Proof.
  induction n as [n IHa IHb IHc IHd] using node_ind'.
  rewrite node_levels_eq. destruct (is_divided n); cbn [negb]; [|lia].
  destruct (nw n), (ne n), (sw n), (se n); cbn [opt_all _get_depth_recursive] in *;
    lia.
Qed.

Lemma divided_has_children (n : QuadtreeNode) :
  partition_inv n -> has_children n -> is_divided n = true.
Proof.
  intros Hp Hc. apply partition_inv_eq in Hp.
  destruct (is_divided n); [reflexivity|].
  destruct Hp as (H1 & H2 & H3 & H4). unfold has_children in Hc.
  rewrite H1, H2, H3, H4 in Hc. tauto.
Qed.

Lemma levels_ge_subnode (m n : QuadtreeNode) :
  subnode m n -> partition_inv n ->
  (depth m - depth n + 1 <= node_levels n)%Z.
Proof.
  induction 1 as [|n c E Hs IH|n c E Hs IH|n c E Hs IH|n c E Hs IH]; intros Hp.
  - pose proof (node_levels_pos m). lia.
  - assert (Hdiv : is_divided n = true)
      by (apply divided_has_children; [exact Hp|left; congruence]).
    destruct (divided_children n c Hp Hdiv) as (_ & Hd & _);
      [unfold children; rewrite E; cbn; auto|].
    assert (Hpc : partition_inv c)
      by (apply (subnode_inv c n); [eapply sub_nw; [exact E|apply sub_refl]|exact Hp]).
    specialize (IH Hpc). rewrite node_levels_eq, Hdiv, E. cbn [negb _get_depth_recursive].
    lia.
  - assert (Hdiv : is_divided n = true)
      by (apply divided_has_children; [exact Hp|right; left; congruence]).
    destruct (divided_children n c Hp Hdiv) as (_ & Hd & _);
      [unfold children; rewrite E; cbn; auto|].
    assert (Hpc : partition_inv c)
      by (apply (subnode_inv c n); [eapply sub_ne; [exact E|apply sub_refl]|exact Hp]).
    specialize (IH Hpc). rewrite node_levels_eq, Hdiv, E. cbn [negb _get_depth_recursive].
    lia.
  - assert (Hdiv : is_divided n = true)
      by (apply divided_has_children; [exact Hp|right; right; left; congruence]).
    destruct (divided_children n c Hp Hdiv) as (_ & Hd & _);
      [unfold children; rewrite E; cbn; auto|].
    assert (Hpc : partition_inv c)
      by (apply (subnode_inv c n); [eapply sub_sw; [exact E|apply sub_refl]|exact Hp]).
    specialize (IH Hpc). rewrite node_levels_eq, Hdiv, E. cbn [negb _get_depth_recursive].
    lia.
  - assert (Hdiv : is_divided n = true)
      by (apply divided_has_children; [exact Hp|right; right; right; congruence]).
    destruct (divided_children n c Hp Hdiv) as (_ & Hd & _);
      [unfold children; rewrite E; cbn; auto|].
    assert (Hpc : partition_inv c)
      by (apply (subnode_inv c n); [eapply sub_se; [exact E|apply sub_refl]|exact Hp]).
    specialize (IH Hpc). rewrite node_levels_eq, Hdiv, E. cbn [negb _get_depth_recursive].
    lia.
Qed.

Lemma levels_attained : forall n,
  partition_inv n ->
  exists m, subnode m n /\ is_divided m = false /\
            node_levels n = (depth m - depth n + 1)%Z.
Proof.
  induction n as [n IHa IHb IHc IHd] using node_ind'.
  intros Hp. destruct (is_divided n) eqn:Hdiv.
  2: { exists n. split; [apply sub_refl|]. split; [exact Hdiv|].
       rewrite node_levels_eq, Hdiv. cbn. lia. }
  pose proof Hp as Hp'. apply partition_inv_eq in Hp'. rewrite Hdiv in Hp'.
  destruct Hp' as (_ & _ & Hc). unfold children_ok in Hc.
  destruct (nw n) as [a|] eqn:Ea; [|contradiction].
  destruct (ne n) as [b|] eqn:Eb; [|contradiction].
  destruct (sw n) as [c|] eqn:Ec; [|contradiction].
  destruct (se n) as [d|] eqn:Ed; [|contradiction].
  destruct Hc as ((Fa & Fb & Fc & Fd) & Pa & Pb & Pc & Pd).
  cbn [opt_all] in *.
  apply frame_fields in Fa, Fb, Fc, Fd. cbn in Fa, Fb, Fc, Fd.
  destruct Fa as (_ & _ & _ & _ & _ & Da & _), Fb as (_ & _ & _ & _ & _ & Db & _),
           Fc as (_ & _ & _ & _ & _ & Dc & _), Fd as (_ & _ & _ & _ & _ & Dd & _).
  destruct (IHa Pa) as (ma & Sa & La & Ha), (IHb Pb) as (mb & Sb & Lb & Hb),
           (IHc Pc) as (mc & Sc & Lc & Hc), (IHd Pd) as (md & Sd & Ld & Hd).
  rewrite node_levels_eq, Hdiv, Ea, Eb, Ec, Ed. cbn [negb _get_depth_recursive].
  set (M := Z.max (Z.max (Z.max (node_levels a) (node_levels b)) (node_levels c))
                  (node_levels d)).
  assert (HM : M = node_levels a \/ M = node_levels b \/
               M = node_levels c \/ M = node_levels d) by (unfold M; lia).
  destruct HM as [HM | [HM | [HM | HM]]]; rewrite HM.
  - exists ma. split; [eapply sub_nw; eassumption|]. split; [exact La|lia].
  - exists mb. split; [eapply sub_ne; eassumption|]. split; [exact Lb|lia].
  - exists mc. split; [eapply sub_sw; eassumption|]. split; [exact Lc|lia].
  - exists md. split; [eapply sub_se; eassumption|]. split; [exact Ld|lia].
Qed.

(** X13: after [build], [get_depth] is one more than the depth of the
    deepest node of the tree (the root having depth 0): every node lies at a
    depth below [get_depth], and some leaf lies at depth [get_depth - 1]. *)
Theorem X13_get_depth_deepest (fuel : nat) (self : Quadtree) (pts : ndarray)
        (indices : option (list Z)) (t : Quadtree) :
  build fuel self pts indices = Ok t ->
  exists r,
    root t = Some r /\ depth r = 0%Z /\
    (forall m, subnode m r -> (depth m + 1 <= get_depth t)%Z) /\
    (exists m, subnode m r /\ is_divided m = false /\
               get_depth t = (depth m + 1)%Z).
Proof.
  intros E. destruct (build_inv _ _ _ _ _ E) as (_ & r & Er & Hp & _ & Hd & _).
  exists r. split; [exact Er|]. split; [exact Hd|].
  unfold get_depth. rewrite Er. cbn [_get_depth_recursive]. split.
  - intros m Hm. pose proof (levels_ge_subnode m r Hm Hp). lia.
  - destruct (levels_attained r Hp) as (m & Hm & Hl & Hlev).
    exists m. split; [exact Hm|]. split; [exact Hl|lia].
Qed.

Lemma X13_get_depth_deepest_witness :
  exists r,
    root split_once_tree = Some r /\ depth r = 0%Z /\
    (forall m, subnode m r -> (depth m + 1 <= get_depth split_once_tree)%Z) /\
    (exists m, subnode m r /\ is_divided m = false /\
               get_depth split_once_tree = (depth m + 1)%Z).
Proof.
  exact (X13_get_depth_deepest 2 (new_quadtree 0 1 1 1) two_rows None
           split_once_tree split_once_tree_built).
Defined.

(** ** Leaves over capacity *)

Lemma cap_inv_eq (n : QuadtreeNode) :
  cap_inv n <->
  leaf_cap n /\
  opt_all cap_inv (nw n) /\ opt_all cap_inv (ne n) /\
  opt_all cap_inv (sw n) /\ opt_all cap_inv (se n).
Proof. destruct n; reflexivity. Qed.

Section CapacitySpec.

Variable rec : QuadtreeNode -> Q -> Q -> Z -> option (list Q) ->
               result (bool * QuadtreeNode).

Hypothesis rec_cap : forall c x y idx fd b c',
  cap_inv c -> rec c x y idx fd = Ok (b, c') -> cap_inv c'.

Lemma insert_to_child_cap (n : QuadtreeNode) (p : Point) b n' :
  cap_inv n -> insert_to_child_body rec n p = Ok (b, n') ->
  cap_inv n' /\ is_divided n' = is_divided n /\ frame n' = frame n.
Proof.
  intros Hc H. pose proof Hc as Hc'. apply cap_inv_eq in Hc'.
  destruct Hc' as (Hl & Ha & Hb & Hcc & Hd).
  unfold insert_to_child_body in H. destruct p as [[[x y] idx] fd].
  assert (Hfin : forall c c' b', cap_inv c -> rec c x y idx fd = Ok (b', c') -> cap_inv c')
    by (intros; eapply rec_cap; eassumption).
  invert_child rec H.
  { split; [|split; reflexivity]. apply cap_inv_eq.
    cbn [set_nw nw ne sw se opt_all] in *.
    split; [exact Hl|]. split; [eapply Hfin; eassumption|auto]. }
  invert_child rec H.
  { split; [|split; reflexivity]. apply cap_inv_eq.
    cbn [set_ne nw ne sw se]. rewrite Ec. cbn [opt_all] in *.
    split; [exact Hl|]. split; [exact Ha|].
    split; [eapply Hfin; eassumption|auto]. }
  invert_child rec H.
  { split; [|split; reflexivity]. apply cap_inv_eq.
    cbn [set_sw nw ne sw se]. rewrite Ec, Ec0. cbn [opt_all] in *.
    split; [exact Hl|]. split; [exact Ha|]. split; [exact Hb|].
    split; [eapply Hfin; eassumption|auto]. }
  invert_child rec H.
  { split; [|split; reflexivity]. apply cap_inv_eq.
    cbn [set_se nw ne sw se]. rewrite Ec, Ec0, Ec1. cbn [opt_all] in *.
    split; [exact Hl|]. split; [exact Ha|]. split; [exact Hb|].
    split; [exact Hcc|]. eapply Hfin; eassumption. }
  injection H as <- <-. auto.
Qed.

Lemma redistribute_cap (ps : list Point) : forall n n',
  cap_inv n -> redistribute rec n ps = Ok n' ->
  cap_inv n' /\ is_divided n' = is_divided n /\ frame n' = frame n.
Proof.
  induction ps as [|p ps IH]; intros n n' Hc H; cbn [redistribute] in H.
  - injection H as <-. auto.
  - destruct (insert_to_child_body rec n p) as [[b n1]| |] eqn:E;
      cbn [bind] in H; try discriminate H.
    destruct (insert_to_child_cap n p b n1 Hc E) as (Hc1 & D1 & F1).
    destruct (IH n1 n' Hc1 H) as (Hc2 & D2 & F2).
    split; [exact Hc2|]. split; congruence.
Qed.

Lemma fresh_cap (xmin xmax ymin ymax : Q) (cap d maxd : Z) :
  cap_inv (new_node xmin xmax ymin ymax cap d maxd).
Proof.
  cbn. split; [|auto]. intros _. left. cbn. lia.
Qed.

Lemma subdivide_cap (n n' : QuadtreeNode) :
  cap_inv n -> subdivide_body rec n = Ok n' ->
  cap_inv n' /\
  (is_divided n' = false ->
   n' = n /\ ((max_depth n <= depth n)%Z \/ coincident (points n) = true)).
Proof.
  intros Hc H. unfold subdivide_body in H.
  destruct (max_depth n <=? depth n)%Z eqn:Hmax.
  { injection H as <-. apply Z.leb_le in Hmax. auto. }
  destruct (coincident (points n)) eqn:Hco.
  { injection H as <-. auto. }
  match type of H with
  | context [redistribute rec ?d ?ps] =>
      destruct (redistribute rec d ps) as [n1| |] eqn:E; cbn [bind] in H;
      try discriminate H;
      destruct (redistribute_cap ps d n1) as (Hc1 & D1 & _); [|exact E|]
  end.
  { apply cap_inv_eq. cbn [nw ne sw se opt_all].
    split; [intros Hd; discriminate Hd|].
    repeat split; apply fresh_cap. }
  injection H as <-. cbn [is_divided] in D1. split.
  - apply cap_inv_eq in Hc1. destruct Hc1 as (_ & Hch).
    apply cap_inv_eq. cbn [set_points nw ne sw se].
    split; [|exact Hch]. intros Hd. cbn in Hd. congruence.
  - cbn [set_points is_divided]. congruence.
Qed.

Lemma append_cap (n : QuadtreeNode) (p : Point) :
  cap_inv n ->
  ((Z.of_nat (length (points n)) < capacity n)%Z \/
   (max_depth n <= depth n)%Z \/ coincident (points n) = true) ->
  cap_inv (set_points n (points n ++ [p])).
Proof.
  intros Hc Hwhy. apply cap_inv_eq in Hc. destruct Hc as (_ & Hch).
  apply cap_inv_eq. cbn [set_points nw ne sw se]. split; [|exact Hch].
  intros _. cbn [set_points points capacity max_depth depth].
  rewrite removelast_last, length_app. cbn [length].
  destruct Hwhy as [H | [H | H]]; [left; lia|auto|auto].
Qed.

Lemma insert_body_cap (n : QuadtreeNode) x y idx fd b n' :
  cap_inv n -> insert_body rec n x y idx fd = Ok (b, n') -> cap_inv n'.
Proof.
  intros Hc H. unfold insert_body in H.
  destruct (negb (contains n x y)); [injection H as <- <-; exact Hc|].
  destruct (is_divided n) eqn:Hdiv; cbn [negb] in H.
  { eapply insert_to_child_cap; eassumption. }
  destruct (Z.of_nat (length (points n)) <? capacity n)%Z eqn:Hlen.
  { injection H as <- <-. apply append_cap; [exact Hc|].
    apply Z.ltb_lt in Hlen. auto. }
  destruct (max_depth n <=? depth n)%Z eqn:Hmax.
  { injection H as <- <-. apply append_cap; [exact Hc|].
    apply Z.leb_le in Hmax. auto. }
  destruct (subdivide_body rec n) as [n1| |] eqn:Es; cbn [bind] in H;
    try discriminate H.
  destruct (subdivide_cap n n1 Hc Es) as (Hc1 & Hsame).
  destruct (is_divided n1) eqn:D1; cbn [negb] in H.
  - eapply insert_to_child_cap; eassumption.
  - destruct (Hsame eq_refl) as (-> & Hwhy).
    injection H as <- <-. apply append_cap; [exact Hc|]. tauto.
Qed.

End CapacitySpec.

Lemma insert_cap (fuel : nat) : forall n x y idx fd b n',
  cap_inv n -> insert fuel n x y idx fd = Ok (b, n') -> cap_inv n'.
Proof.
  induction fuel as [|fuel IH]; intros n x y idx fd b n' Hc H.
  - discriminate H.
  - cbn [insert] in H. exact (insert_body_cap (insert fuel) IH _ _ _ _ _ _ _ Hc H).
Qed.

Lemma build_loop_cap (fuel : nat) (points : ndarray) (xs ys : list Q)
      (indices : list Z) : forall node sz i n' sz',
  cap_inv node ->
  build_loop fuel points xs ys node sz i indices = Ok (n', sz') -> cap_inv n'.
Proof.
  induction indices as [|idx rest IH]; intros node sz i n' sz' Hc E;
    cbn [build_loop] in E.
  - injection E as <- <-. exact Hc.
  - destruct (if (2 <? shape1 points)%nat then _ else _) as [fd| |];
      cbn [bind] in E; try discriminate E.
    destruct (getitem xs i) as [x| |]; cbn [bind] in E; try discriminate E.
    destruct (getitem ys i) as [y| |]; cbn [bind] in E; try discriminate E.
    destruct (insert fuel node x y idx fd) as [[b n1]| |] eqn:E1; cbn [bind] in E;
      try discriminate E.
    exact (IH _ _ _ _ _ (insert_cap _ _ _ _ _ _ _ _ Hc E1) E).
Qed.

Lemma reachable_cap (n : QuadtreeNode) : reachable n -> cap_inv n.
Proof.
  induction 1 as [xmin xmax ymin ymax cap d maxd
                 | fuel self pts indices t r Hb Hroot
                 | fuel n x y idx fd b n' Hr IH Hins].
  - apply fresh_cap.
  - unfold build in Hb.
    destruct (column pts (x_dim self)) as [xs| |]; cbn [bind] in Hb; try discriminate Hb.
    destruct (column pts (y_dim self)) as [ys| |]; cbn [bind] in Hb; try discriminate Hb.
    destruct (build_root self xs ys) as [r0| |] eqn:Er; cbn [bind] in Hb;
      try discriminate Hb.
    destruct (build_loop fuel pts xs ys r0 (size self) 0 _) as [[r1 sz]| |] eqn:El;
      cbn [bind] in Hb; try discriminate Hb.
    injection Hb as <-. cbn [root] in Hroot. injection Hroot as <-.
    unfold build_root in Er.
    destruct (array_min xs); cbn [bind] in Er; try discriminate Er.
    destruct (array_max xs); cbn [bind] in Er; try discriminate Er.
    destruct (array_min ys); cbn [bind] in Er; try discriminate Er.
    destruct (array_max ys); cbn [bind] in Er; try discriminate Er.
    injection Er as <-.
    exact (build_loop_cap _ _ _ _ _ _ _ _ _ _ (fresh_cap _ _ _ _ _ _ _) El).
  - exact (insert_cap _ _ _ _ _ _ _ _ IH Hins).
Qed.

Lemma subnode_cap (m n : QuadtreeNode) :
  subnode m n -> cap_inv n -> cap_inv m.
Proof.
  induction 1 as [|n c E _ IH|n c E _ IH|n c E _ IH|n c E _ IH]; intros Hc;
    [exact Hc| | | |];
    apply IH; apply cap_inv_eq in Hc;
    destruct Hc as (_ & Ha & Hb & Hcc & Hd);
    rewrite E in *; assumption.
Qed.

(** X14: in a tree built by [__init__], [build] and [insert] calls, an
    undivided node holds more points than its capacity only if it lies at
    the maximum depth or if all its points except the last one inserted are
    within [1e-10] of the first one on both axes (at least two of them). *)
Theorem X14_capacity_overflow (n m : QuadtreeNode) :
  reachable n -> subnode m n -> is_divided m = false ->
  (Z.max 0 (capacity m) < Z.of_nat (length (points m)))%Z ->
  (max_depth m <= depth m)%Z \/ coincident (removelast (points m)) = true.
Proof.
  intros Hr Hm Hleaf Hover.
  pose proof (subnode_cap m n Hm (reachable_cap n Hr)) as Hc.
  apply cap_inv_eq in Hc. destruct Hc as (Hl & _).
  destruct (Hl Hleaf) as [H | H]; [lia|exact H].
Qed.

Lemma crowded_node_reachable : reachable crowded_node.
Proof.
  apply (insert_all_reachable 1
           [(0, 0, 0%Z, None); (0, 0, 1%Z, None); (0, 0, 2%Z, None)]
           (new_node 0 1 0 1 2 0 25) [true; true; true] crowded_node).
  - apply reach_new.
  - reflexivity.
Qed.

Lemma X14_capacity_overflow_witness :
  (max_depth crowded_node <= depth crowded_node)%Z \/
  coincident (removelast (points crowded_node)) = true.
Proof.
  apply (X14_capacity_overflow crowded_node crowded_node crowded_node_reachable
           (sub_refl _) eq_refl).
  cbn. lia.
Defined.

(** ** [subdivide] called directly *)

(** X17: [subdivide] on a node that is already divided (and, as every
    divided node of a built tree, below the maximum depth and without points
    of its own) replaces the four children by empty leaves: the points
    stored below the node are dropped and a query finds nothing. *)
Theorem X17_subdivide_divided (fuel : nat) (n : QuadtreeNode) :
  partition_inv n -> is_divided n = true ->
  subdivide fuel n = Ok (emptied n) /\
  contents (emptied n) = [] /\
  forall a b c d, query_range (emptied n) a b c d = Ok [].
Proof.
  intros Hp Hdiv. apply partition_inv_eq in Hp. rewrite Hdiv in Hp.
  destruct Hp as (Hpts & Hd & _).
  split; [|split].
  - unfold subdivide, subdivide_body.
    apply Z.leb_gt in Hd. rewrite Hd, Hpts. cbn. reflexivity.
  - reflexivity.
  - intros a b c d. rewrite query_range_eq.
    destruct (negb (intersects (emptied n) a b c d)); [reflexivity|].
    cbn [emptied is_divided nw ne sw se points].
    rewrite !query_range_eq. cbn.
    destruct (negb (intersects (fresh_nw n) a b c d)),
             (negb (intersects (fresh_ne n) a b c d)),
             (negb (intersects (fresh_sw n) a b c d)),
             (negb (intersects (fresh_se n) a b c d)); reflexivity.
Qed.

Lemma X17_subdivide_divided_witness :
  subdivide 0 two_point_node = Ok (emptied two_point_node) /\
  contents (emptied two_point_node) = [] /\
  forall a b c d, query_range (emptied two_point_node) a b c d = Ok [].
Proof.
  exact (X17_subdivide_divided 0 two_point_node two_point_node_inv eq_refl).
Defined.

(** * Properties of the binary64 embedding *)

Module F64Facts.

Import F64.
#[local] Set Warnings "-inexact-float".
Local Open Scope float_scope.

(** ** Comparison of binary64 values *)

Lemma SFcompare_key (x y : spec_float) :
  x <> S754_nan -> y <> S754_nan ->
  match SFcompare x y with
  | Some Lt => key_lt (key x) (key y)
  | Some Eq => key x = key y
  | Some Gt => key_lt (key y) (key x)
  | None => False
  end.
Proof.
  intros Hx Hy.
  destruct x as [sx|sx| |sx mx ex], y as [sy|sy| |sy my ey]; try congruence;
    try destruct sx; try destruct sy; cbn; try lia; try reflexivity.
  - destruct (Z.compare_spec ex ey) as [E|E|E]; cbn; try lia.
    change (Pos.compare_cont Eq mx my) with (Pos.compare mx my).
    destruct (Pos.compare_spec mx my) as [F|F|F]; cbn; try lia.
    subst. reflexivity.
  - destruct (Z.compare_spec ex ey) as [E|E|E]; cbn; try lia.
    change (Pos.compare_cont Eq mx my) with (Pos.compare mx my).
    destruct (Pos.compare_spec mx my) as [F|F|F]; cbn; try lia.
    subst. reflexivity.
Qed.

Lemma SFleb_nan (x y : spec_float) :
  SFleb x y = true -> x <> S754_nan /\ y <> S754_nan.
Proof.
  unfold SFleb. destruct x, y; cbn; try discriminate; split; discriminate.
Qed.

Lemma SFltb_nan (x y : spec_float) :
  SFltb x y = true -> x <> S754_nan /\ y <> S754_nan.
Proof.
  unfold SFltb. destruct x, y; cbn; try discriminate; split; discriminate.
Qed.

Lemma key_lt_le k1 k2 : key_lt k1 k2 -> key_le k1 k2.
Proof. destruct k1 as [[? ?] ?], k2 as [[? ?] ?]. cbn. lia. Qed.

Lemma key_le_refl k : key_le k k.
Proof. destruct k as [[? ?] ?]. cbn. lia. Qed.

Lemma SFleb_key (x y : spec_float) :
  x <> S754_nan -> y <> S754_nan ->
  (SFleb x y = true <-> key_le (key x) (key y)).
Proof.
  intros Hx Hy. pose proof (SFcompare_key x y Hx Hy) as H. unfold SFleb.
  destruct (SFcompare x y) as [[ | | ]|]; [| | |contradiction].
  - rewrite H. split; [intros _; apply key_le_refl|reflexivity].
  - split; [intros _; apply key_lt_le, H|reflexivity].
  - split; [discriminate|].
    destruct (key x) as [[? ?] ?], (key y) as [[? ?] ?]. cbn in *. lia.
Qed.

Lemma SFltb_key (x y : spec_float) :
  x <> S754_nan -> y <> S754_nan ->
  (SFltb x y = true <-> key_lt (key x) (key y)).
Proof.
  intros Hx Hy. pose proof (SFcompare_key x y Hx Hy) as H. unfold SFltb.
  destruct (SFcompare x y) as [[ | | ]|]; [| | |contradiction].
  - rewrite H. split; [discriminate|].
    destruct (key y) as [[? ?] ?]. cbn. lia.
  - split; [intros _; exact H|reflexivity].
  - split; [discriminate|].
    destruct (key x) as [[? ?] ?], (key y) as [[? ?] ?]. cbn in *. lia.
Qed.

Lemma ordered_not_nan (f : float) : ordered f <-> Prim2SF f <> S754_nan.
Proof.
  unfold ordered. rewrite leb_spec. split.
  - intros H. apply SFleb_nan in H. apply H.
  - intros H. apply SFleb_key; [exact H|exact H|apply key_le_refl].
Qed.

Lemma leb_ordered (a b : float) : (a <=? b) = true -> ordered a /\ ordered b.
Proof.
  rewrite leb_spec, !ordered_not_nan. apply SFleb_nan.
Qed.

Lemma leb_trans (a b c : float) :
  (a <=? b) = true -> (b <=? c) = true -> (a <=? c) = true.
Proof.
  rewrite !leb_spec. intros H1 H2.
  destruct (SFleb_nan _ _ H1) as (Ha & Hb), (SFleb_nan _ _ H2) as (_ & Hc).
  apply SFleb_key in H1, H2; try assumption. apply SFleb_key; try assumption.
  destruct (key (Prim2SF a)) as [[? ?] ?], (key (Prim2SF b)) as [[? ?] ?],
           (key (Prim2SF c)) as [[? ?] ?].
  cbn in *. lia.
Qed.

Lemma ltb_leb_contra (a b : float) :
  (a <? b) = true -> (b <=? a) = true -> False.
Proof.
  rewrite ltb_spec, leb_spec. intros H1 H2.
  destruct (SFltb_nan _ _ H1) as (Ha & Hb).
  apply SFltb_key in H1; try assumption. apply SFleb_key in H2; try assumption.
  destruct (key (Prim2SF a)) as [[? ?] ?], (key (Prim2SF b)) as [[? ?] ?].
  cbn in *. lia.
Qed.

Lemma leb_total (a b : float) :
  ordered a -> ordered b -> (a <=? b) = true \/ (b <=? a) = true.
Proof.
  rewrite !ordered_not_nan, !leb_spec. intros Ha Hb.
  rewrite !SFleb_key by assumption.
  destruct (key (Prim2SF a)) as [[? ?] ?], (key (Prim2SF b)) as [[? ?] ?].
  cbn. lia.
Qed.

Lemma leb_both_eqb (a b : float) :
  (a <=? b) = true -> (b <=? a) = true -> (a =? b) = true.
Proof.
  rewrite !leb_spec, eqb_spec. intros H1 H2.
  destruct (SFleb_nan _ _ H1) as (Ha & Hb).
  apply SFleb_key in H1, H2; try assumption.
  pose proof (SFcompare_key _ _ Ha Hb) as H. unfold SFeqb.
  destruct (SFcompare (Prim2SF a) (Prim2SF b)) as [[ | | ]|];
    [reflexivity| | |contradiction];
    destruct (key (Prim2SF a)) as [[? ?] ?], (key (Prim2SF b)) as [[? ?] ?];
    cbn in *; lia.
Qed.

(** ** Midpoints *)

Lemma shr_1_nonneg (mrs : shr_record) :
  (0 <= shr_m mrs)%Z -> (0 <= shr_m (shr_1 mrs))%Z.
Proof.
  destruct mrs as [m r s]. cbn. destruct m as [|p|p]; cbn; intros H.
  - lia.
  - destruct p; cbn; lia.
  - lia.
Qed.

Lemma iter_shr_1_nonneg (p : positive) : forall mrs,
  (0 <= shr_m mrs)%Z -> (0 <= shr_m (iter_pos shr_1 p mrs))%Z.
Proof.
  induction p as [p IH|p IH|]; intros mrs H; cbn.
  - apply IH, IH, shr_1_nonneg, H.
  - apply IH, IH, H.
  - apply shr_1_nonneg, H.
Qed.

Lemma shr_fexp_nonneg (prec emax m e : Z) (l : location) :
  (0 <= m)%Z -> (0 <= shr_m (fst (shr_fexp prec emax m e l)))%Z.
Proof.
  intros H. unfold shr_fexp, shr.
  assert (H0 : (0 <= shr_m (shr_record_of_loc m l))%Z)
    by (destruct l as [|[ | | ]]; cbn; exact H).
  destruct (fexp prec emax (Zdigits2 m + e) - e)%Z; cbn [fst]; try exact H0.
  apply iter_shr_1_nonneg, H0.
Qed.

(** Rounding a non-negative mantissa never produces NaN. *)
Lemma binary_round_aux_not_nan (prec emax : Z) (sx : bool) (mx ex : Z)
      (lx : location) :
  (0 <= mx)%Z -> binary_round_aux prec emax sx mx ex lx <> S754_nan.
Proof.
  intros H. unfold binary_round_aux.
  pose proof (shr_fexp_nonneg prec emax mx ex lx H) as H1.
  destruct (shr_fexp prec emax mx ex lx) as [mrs' e']. cbn [fst] in H1.
  assert (H2 : (0 <= round_nearest_even (shr_m mrs') (loc_of_shr_record mrs'))%Z).
  { unfold round_nearest_even.
    destruct (loc_of_shr_record mrs') as [|[ | | ]]; try lia.
    destruct (Z.even (shr_m mrs')); lia. }
  pose proof (shr_fexp_nonneg prec emax _ e' loc_Exact H2) as H3.
  destruct (shr_fexp prec emax _ e' loc_Exact) as [mrs'' e'']. cbn [fst] in H3.
  destruct (shr_m mrs'') as [|m|m].
  - discriminate.
  - destruct (e'' <=? emax - prec)%Z; discriminate.
  - lia.
Qed.

Lemma binary_normalize_not_nan (prec emax m e : Z) (s : bool) :
  binary_normalize prec emax m e s <> S754_nan.
Proof.
  unfold binary_normalize, binary_round.
  destruct m as [|p|p]; [discriminate| |];
    destruct (shl_align _ _ _) as [mz ez];
    apply binary_round_aux_not_nan; lia.
Qed.

Lemma SFadd_not_nan (prec emax : Z) (x y : spec_float) :
  x <> S754_nan -> y <> S754_nan ->
  ~ (x = S754_infinity true /\ y = S754_infinity false) ->
  ~ (x = S754_infinity false /\ y = S754_infinity true) ->
  SFadd prec emax x y <> S754_nan.
Proof.
  intros Hx Hy H1 H2.
  destruct x as [sx|sx| |sx mx ex], y as [sy|sy| |sy my ey]; try congruence;
    cbn; try discriminate.
  - destruct sx, sy; discriminate.
  - destruct sx, sy; try discriminate; tauto.
  - apply binary_normalize_not_nan.
Qed.

Lemma SFdiv_finite_not_nan (prec emax : Z) (x : spec_float) (m : positive) (e : Z) :
  x <> S754_nan -> SFdiv prec emax x (S754_finite false m e) <> S754_nan.
Proof.
  intros Hx. destruct x as [sx|sx| |sx mx ex]; try congruence; cbn;
    try discriminate.
  unfold SFdiv_core_binary.
  set (s := (ex - e - _)%Z).
  set (m' := match s with Z0 => Zpos mx | Zpos _ => Z.shiftl (Zpos mx) s | Zneg _ => 0%Z end).
  assert (Hm : (0 <= m')%Z).
  { unfold m'. destruct s; try lia. apply Z.shiftl_nonneg. lia. }
  pose proof (Z.div_eucl_eq m' (Zpos m) ltac:(lia)) as Hq.
  pose proof (Z.mod_pos_bound m' (Zpos m) ltac:(lia)) as Hr.
  unfold Z.modulo in Hr.
  destruct (Z.div_eucl m' (Zpos m)) as [q r].
  apply binary_round_aux_not_nan. nia.
Qed.

Lemma two_spec : Prim2SF 2 = S754_finite false 4503599627370496 (-51).
Proof. vm_compute. reflexivity. Qed.

Lemma infinity_spec : Prim2SF infinity = S754_infinity false.
Proof. vm_compute. reflexivity. Qed.

Lemma neg_infinity_spec : Prim2SF neg_infinity = S754_infinity true.
Proof. vm_compute. reflexivity. Qed.

Lemma mid_spec (a b : float) :
  Prim2SF (mid a b) =
  SFdiv prec emax (SFadd prec emax (Prim2SF a) (Prim2SF b))
        (S754_finite false 4503599627370496 (-51)).
Proof.
  unfold mid. rewrite div_spec, add_spec, two_spec. reflexivity.
Qed.

Lemma unbounded_axis_spec (a b : float) :
  unbounded_axis a b = true <->
  Prim2SF a = S754_infinity true /\ Prim2SF b = S754_infinity false.
Proof.
  unfold unbounded_axis.
  rewrite andb_true_iff, !leb_spec, infinity_spec, neg_infinity_spec.
  destruct (Prim2SF a) as [sa|sa| |sa ma ea], (Prim2SF b) as [sb|sb| |sb mb eb];
    try destruct sa; try destruct sb; cbn; split; intros (H1 & H2);
    try discriminate; auto.
Qed.

(** The midpoint of an interval that holds a point and is not the whole
    line is not NaN. *)
Lemma mid_ordered (a b : float) :
  (a <=? b) = true -> unbounded_axis a b = false -> ordered (mid a b).
Proof.
  intros Hle Hb. apply ordered_not_nan. rewrite mid_spec.
  rewrite leb_spec in Hle.
  destruct (SFleb_nan _ _ Hle) as (Ha & Hbn).
  apply SFdiv_finite_not_nan. apply SFadd_not_nan; try assumption.
  - intros H. apply unbounded_axis_spec in H. congruence.
  - intros (H1 & H2). rewrite H1, H2 in Hle. discriminate Hle.
Qed.

(** Halving an interval that is not the whole line gives two intervals
    that are not the whole line. *)
Lemma mid_keeps_bounded (a b : float) :
  unbounded_axis a b = false ->
  unbounded_axis a (mid a b) = false /\ unbounded_axis (mid a b) b = false.
Proof.
  intros Hb.
  assert (Hn : ~ (Prim2SF a = S754_infinity true /\ Prim2SF b = S754_infinity false)).
  { intros H. apply unbounded_axis_spec in H. congruence. }
  split; apply not_true_is_false; intros H; apply unbounded_axis_spec in H;
    destruct H as (H1 & H2); rewrite mid_spec in *.
  - rewrite H1 in *.
    destruct (Prim2SF b) as [sb|sb| |sb mb eb]; try destruct sb; cbn in H2;
      try discriminate H2; try tauto.
  - rewrite H2 in *.
    destruct (Prim2SF a) as [sa|sa| |sa ma ea]; try destruct sa; cbn in H1;
      try discriminate H1; try tauto.
Qed.

(** ** Bounds tests over binary64 *)

Lemma contains_within (n : QuadtreeNode) (x y : float) :
  contains n x y = true <-> within (x_min n) (x_max n) (y_min n) (y_max n) x y.
Proof.
  unfold contains, within. rewrite !andb_true_iff. tauto.
Qed.

Lemma contains_same_frame (n m : QuadtreeNode) (x y : float) :
  frame n = frame m -> contains n x y = contains m x y.
Proof.
  unfold frame, contains. intros H. injection H as -> -> -> -> _ _ _. reflexivity.
Qed.

Lemma in_range_within (a b c d : float) (p : Point) :
  in_range a b c d p = true <-> within a b c d (point_x p) (point_y p).
Proof.
  unfold in_range, within. rewrite !andb_true_iff. tauto.
Qed.

Lemma frame_parts (n m : QuadtreeNode) :
  frame n = frame m ->
  x_min n = x_min m /\ x_max n = x_max m /\ y_min n = y_min m /\
  y_max n = y_max m /\ capacity n = capacity m /\ depth n = depth m /\
  max_depth n = max_depth m.
Proof. unfold frame. intros H. injection H. intuition. Qed.

Lemma bounded_same_frame (n m : QuadtreeNode) :
  frame n = frame m -> bounded n -> bounded m.
Proof.
  intros H. apply frame_parts in H.
  destruct H as (H1 & H2 & H3 & H4 & _). unfold bounded.
  rewrite H1, H2, H3, H4. tauto.
Qed.

(** ** Geometry of the quadrants of the computed midpoints *)

(** The quadrants of a region that is not the whole line on an axis are
    not the whole line on an axis either. *)
Lemma bounded_quadrants (n : QuadtreeNode) :
  bounded n ->
  bounded (fresh_nw n) /\ bounded (fresh_ne n) /\
  bounded (fresh_sw n) /\ bounded (fresh_se n).
Proof.
  intros (Hx & Hy).
  destruct (mid_keeps_bounded _ _ Hx) as (Hx1 & Hx2).
  destruct (mid_keeps_bounded _ _ Hy) as (Hy1 & Hy2).
  unfold bounded, fresh_nw, fresh_ne, fresh_sw, fresh_se, x_mid, y_mid. cbn.
  fold (mid (x_min n) (x_max n)). fold (mid (y_min n) (y_max n)).
  tauto.
Qed.

(** Every point of such a region lies in one of the four quadrants. *)
Lemma quadrants_reach (n : QuadtreeNode) (x y : float) :
  bounded n -> contains n x y = true ->
  contains (fresh_nw n) x y = true \/ contains (fresh_ne n) x y = true \/
  contains (fresh_sw n) x y = true \/ contains (fresh_se n) x y = true.
Proof.
  intros (Hbx & Hby) Hc. apply contains_within in Hc.
  destruct Hc as (H1 & H2 & H3 & H4).
  pose proof (mid_ordered _ _ (leb_trans _ _ _ H1 H2) Hbx) as Hmx.
  pose proof (mid_ordered _ _ (leb_trans _ _ _ H3 H4) Hby) as Hmy.
  fold (x_mid n) in Hmx. fold (y_mid n) in Hmy.
  destruct (leb_ordered _ _ H1) as (_ & Ox).
  destruct (leb_ordered _ _ H3) as (_ & Oy).
  rewrite !contains_within. unfold within. cbn.
  destruct (leb_total x (x_mid n) Ox Hmx) as [Hx | Hx];
    destruct (leb_total y (y_mid n) Oy Hmy) as [Hy | Hy]; tauto.
Qed.



(** ** Attribute updates and contents *)

Lemma contents_unfold (n : QuadtreeNode) :
  contents n = points n ++ sub_contents n.
Proof. destruct n; reflexivity. Qed.

Lemma contents_of_leaf (n : QuadtreeNode) :
  no_children n -> contents n = points n.
Proof.
  intros (H1 & H2 & H3 & H4). rewrite contents_unfold. unfold sub_contents.
  rewrite H1, H2, H3, H4. cbn. apply app_nil_r.
Qed.

Lemma inside_inv_unfold (n : QuadtreeNode) :
  inside_inv n <->
  Forall (holds n) (contents n) /\
  opt_all inside_inv (nw n) /\ opt_all inside_inv (ne n) /\
  opt_all inside_inv (sw n) /\ opt_all inside_inv (se n).
Proof. destruct n; reflexivity. Qed.

Lemma partition_inv_unfold (n : QuadtreeNode) :
  partition_inv n <->
  if is_divided n then
    points n = [] /\ (depth n < max_depth n)%Z /\ children_ok partition_inv n
  else no_children n.
Proof. destruct n; reflexivity. Qed.

Lemma holds_same_frame (n m : QuadtreeNode) (p : Point) :
  frame n = frame m -> holds n p <-> holds m p.
Proof.
  intros H. unfold holds. rewrite (contains_same_frame n m _ _ H). reflexivity.
Qed.

Lemma fits_of_child (fuel : nat) (n c : QuadtreeNode) :
  (depth n < max_depth n)%Z -> fits (S fuel) n ->
  depth c = (depth n + 1)%Z -> max_depth c = max_depth n ->
  fits fuel c.
Proof. unfold fits. intros Hd Hf -> ->. lia. Qed.

Lemma fresh_quadrants_ok (n : QuadtreeNode) (ps : list Point) (b : bool) :
  children_ok partition_inv
    (mkNode (x_min n) (x_max n) (y_min n) (y_max n)
            (capacity n) (depth n) (max_depth n) ps b
            (Some (fresh_nw n)) (Some (fresh_ne n))
            (Some (fresh_sw n)) (Some (fresh_se n))).
Proof.
  unfold children_ok. cbn.
  repeat split; reflexivity.
Qed.

(** ** The body of [insert] over a correct recursive call *)

Section InsertSpecF.

Variable rec : QuadtreeNode -> float -> float -> Z -> option (list float) ->
               result (bool * QuadtreeNode).
Variable fuel : nat.

Hypothesis rec_ok : forall c x y idx fd,
  partition_inv c -> fits fuel c -> insert_post c x y idx fd (rec c x y idx fd).

Lemma insert_to_child_spec (n : QuadtreeNode) (x y : float) (idx : Z)
      (fd : option (list float)) :
  children_ok partition_inv n -> (depth n < max_depth n)%Z -> fits (S fuel) n ->
  exists b n',
    insert_to_child_body rec n (x, y, idx, fd) = Ok (b, n') /\
    frame n' = frame n /\ points n' = points n /\ is_divided n' = is_divided n /\
    children_ok partition_inv n' /\
    (bounded n -> contains n x y = true ->
     b = true /\
     (children_inside n ->
      children_inside n' /\
      Permutation (sub_contents n') ((x, y, idx, fd) :: sub_contents n))).
Proof.
  intros Hc Hd Hf. unfold children_ok in Hc.
  destruct (nw n) as [a|] eqn:Ea; [|contradiction].
  destruct (ne n) as [b|] eqn:Eb; [|contradiction].
  destruct (sw n) as [c|] eqn:Ec; [|contradiction].
  destruct (se n) as [d|] eqn:Ed; [|contradiction].
  destruct Hc as ((Fa & Fb & Fc & Fd) & (Pa & Pb & Pc & Pd)).
  assert (Hfit : forall m q, frame m = frame q ->
            depth q = (depth n + 1)%Z -> max_depth q = max_depth n -> fits fuel m).
  { intros m q Fm Hq1 Hq2. apply frame_parts in Fm.
    apply (fits_of_child fuel n m Hd Hf); intuition congruence. }
  assert (Hbd : bounded n -> bounded a /\ bounded b /\ bounded c /\ bounded d).
  { intros Hb. destruct (bounded_quadrants n Hb) as (B1 & B2 & B3 & B4).
    split; [exact (bounded_same_frame _ _ (eq_sym Fa) B1)|].
    split; [exact (bounded_same_frame _ _ (eq_sym Fb) B2)|].
    split; [exact (bounded_same_frame _ _ (eq_sym Fc) B3)|].
    exact (bounded_same_frame _ _ (eq_sym Fd) B4). }
  unfold insert_to_child_body, children_inside, sub_contents.
  rewrite Ea, Eb, Ec, Ed. cbn [child bind opt_all child_contents].
  destruct (contains a x y) eqn:Ca.
  { destruct (rec_ok a x y idx fd Pa (Hfit _ _ Fa eq_refl eq_refl))
      as (r & a' & Hr & Fa' & Pa' & _ & Hin).
    rewrite Hr. cbn [bind]. exists r, (set_nw n a').
    split; [reflexivity|]. split; [reflexivity|]. split; [reflexivity|].
    split; [reflexivity|]. split.
    - unfold children_ok. cbn. rewrite Eb, Ec, Ed.
      repeat split; try assumption. rewrite Fa'. exact Fa.
    - intros Hb _. destruct (Hbd Hb) as (Ba & _).
      destruct (Hin Ba Ca) as (-> & Hin'). split; [reflexivity|].
      intros (Ia & Ib & Ic & Id). destruct (Hin' Ia) as (Ia' & Hperm).
      cbn. rewrite Eb, Ec, Ed. cbn. split; [tauto|].
      apply (perm_insert_mid _ _ _ [] _). exact Hperm. }
  destruct (contains b x y) eqn:Cb.
  { destruct (rec_ok b x y idx fd Pb (Hfit _ _ Fb eq_refl eq_refl))
      as (r & b' & Hr & Fb' & Pb' & _ & Hin).
    rewrite Hr. cbn [bind]. exists r, (set_ne n b').
    split; [reflexivity|]. split; [reflexivity|]. split; [reflexivity|].
    split; [reflexivity|]. split.
    - unfold children_ok. cbn. rewrite Ea, Ec, Ed.
      repeat split; try assumption. rewrite Fb'. exact Fb.
    - intros Hb _. destruct (Hbd Hb) as (_ & Bb & _).
      destruct (Hin Bb Cb) as (-> & Hin'). split; [reflexivity|].
      intros (Ia & Ib & Ic & Id). destruct (Hin' Ib) as (Ib' & Hperm).
      cbn. rewrite Ea, Ec, Ed. cbn. split; [tauto|].
      apply perm_insert_mid. exact Hperm. }
  destruct (contains c x y) eqn:Cc.
  { destruct (rec_ok c x y idx fd Pc (Hfit _ _ Fc eq_refl eq_refl))
      as (r & c' & Hr & Fc' & Pc' & _ & Hin).
    rewrite Hr. cbn [bind]. exists r, (set_sw n c').
    split; [reflexivity|]. split; [reflexivity|]. split; [reflexivity|].
    split; [reflexivity|]. split.
    - unfold children_ok. cbn. rewrite Ea, Eb, Ed.
      repeat split; try assumption. rewrite Fc'. exact Fc.
    - intros Hb _. destruct (Hbd Hb) as (_ & _ & Bc & _).
      destruct (Hin Bc Cc) as (-> & Hin'). split; [reflexivity|].
      intros (Ia & Ib & Ic & Id). destruct (Hin' Ic) as (Ic' & Hperm).
      cbn. rewrite Ea, Eb, Ed. cbn. split; [tauto|].
      rewrite !(app_assoc (contents a)).
      apply perm_insert_mid. exact Hperm. }
  destruct (contains d x y) eqn:Cd.
  { destruct (rec_ok d x y idx fd Pd (Hfit _ _ Fd eq_refl eq_refl))
      as (r & d' & Hr & Fd' & Pd' & _ & Hin).
    rewrite Hr. cbn [bind]. exists r, (set_se n d').
    split; [reflexivity|]. split; [reflexivity|]. split; [reflexivity|].
    split; [reflexivity|]. split.
    - unfold children_ok. cbn. rewrite Ea, Eb, Ec.
      repeat split; try assumption. rewrite Fd'. exact Fd.
    - intros Hb _. destruct (Hbd Hb) as (_ & _ & _ & Bd).
      destruct (Hin Bd Cd) as (-> & Hin'). split; [reflexivity|].
      intros (Ia & Ib & Ic & Id). destruct (Hin' Id) as (Id' & Hperm).
      cbn. rewrite Ea, Eb, Ec. cbn. split; [tauto|].
      rewrite !(app_assoc (contents a)), !(app_assoc (contents a ++ contents b)).
      rewrite <- (app_nil_r (contents d')), <- (app_nil_r (contents d)).
      apply perm_insert_mid. exact Hperm. }
  exists false, n.
  split; [reflexivity|]. split; [reflexivity|]. split; [reflexivity|].
  split; [reflexivity|]. split.
  - unfold children_ok. rewrite Ea, Eb, Ec, Ed. repeat split; assumption.
  - intros Hb Hcon. exfalso.
    destruct (quadrants_reach n x y Hb Hcon) as [H | [H | [H | H]]].
    + rewrite <- (contains_same_frame a _ x y Fa) in H. congruence.
    + rewrite <- (contains_same_frame b _ x y Fb) in H. congruence.
    + rewrite <- (contains_same_frame c _ x y Fc) in H. congruence.
    + rewrite <- (contains_same_frame d _ x y Fd) in H. congruence.
Qed.

Lemma redistribute_spec (ps : list Point) : forall n,
  children_ok partition_inv n -> (depth n < max_depth n)%Z -> fits (S fuel) n ->
  exists n',
    redistribute rec n ps = Ok n' /\
    frame n' = frame n /\ points n' = points n /\ is_divided n' = is_divided n /\
    children_ok partition_inv n' /\
    (bounded n -> children_inside n -> Forall (holds n) ps ->
     children_inside n' /\ Permutation (sub_contents n') (sub_contents n ++ ps)).
Proof.
  induction ps as [|p ps IH]; intros n Hc Hd Hf.
  - exists n. cbn. repeat split; auto; try apply H0.
    rewrite app_nil_r. reflexivity.
  - destruct p as [[[x y] idx] fd].
    destruct (insert_to_child_spec n x y idx fd Hc Hd Hf)
      as (b1 & n1 & E1 & F1 & P1 & D1 & C1 & I1).
    cbn [redistribute]. rewrite E1. cbn [bind].
    pose proof (frame_parts _ _ F1) as (_ & _ & _ & _ & _ & Hdep & Hmax).
    destruct (IH n1 C1) as (n2 & E2 & F2 & P2 & D2 & C2 & I2).
    { rewrite Hdep, Hmax. exact Hd. }
    { unfold fits in *. rewrite Hdep, Hmax. exact Hf. }
    exists n2. rewrite E2.
    split; [reflexivity|]. split; [congruence|]. split; [congruence|].
    split; [congruence|]. split; [exact C2|].
    intros Hb Hin Hall. inversion Hall as [|? ? Hp Hps]; subst.
    destruct (I1 Hb Hp) as (_ & I1').
    destruct (I1' Hin) as (Hin1 & Hperm1).
    destruct I2 as (Hin2 & Hperm2); auto.
    { exact (bounded_same_frame _ _ (eq_sym F1) Hb). }
    { eapply Forall_impl; [|exact Hps]. intros q. apply holds_same_frame. congruence. }
    split; [exact Hin2|].
    rewrite Hperm2, Hperm1. cbn. apply Permutation_middle.
Qed.

Lemma subdivide_spec (n : QuadtreeNode) :
  is_divided n = false -> no_children n -> fits (S fuel) n ->
  exists n',
    subdivide_body rec n = Ok n' /\
    frame n' = frame n /\ partition_inv n' /\
    (is_divided n' = false -> n' = n) /\
    (is_divided n' = false <->
     (max_depth n <= depth n)%Z \/ coincident (points n) = true) /\
    (is_divided n' = true -> points n' = []) /\
    (bounded n -> Forall (holds n) (points n) ->
     inside_inv n' /\ Permutation (contents n') (points n)).
Proof.
  intros Hleaf Hnc Hf.
  assert (Hself : partition_inv n)
    by (apply partition_inv_unfold; rewrite Hleaf; exact Hnc).
  assert (Hkeep : Forall (holds n) (points n) ->
                  inside_inv n /\ Permutation (contents n) (points n)).
  { intros Hall. rewrite inside_inv_unfold, (contents_of_leaf n Hnc).
    destruct Hnc as (-> & -> & -> & ->). cbn. intuition. }
  unfold subdivide_body.
  destruct (max_depth n <=? depth n)%Z eqn:Hmax.
  { exists n. apply Z.leb_le in Hmax. rewrite Hleaf.
    repeat split; auto; try discriminate; apply Hkeep; assumption. }
  destruct (coincident (points n)) eqn:Hco.
  { exists n. rewrite Hleaf.
    repeat split; auto; try discriminate; apply Hkeep; assumption. }
  apply Z.leb_gt in Hmax.
  set (dn := mkNode _ _ _ _ _ _ _ _ true _ _ _ _).
  destruct (redistribute_spec (points n) dn) as (n1 & E1 & F1 & P1 & D1 & C1 & I1).
  { apply fresh_quadrants_ok. }
  { exact Hmax. }
  { exact Hf. }
  rewrite E1. cbn [bind]. exists (set_points n1 []).
  assert (Hdiv : is_divided (set_points n1 []) = true) by (cbn; rewrite D1; reflexivity).
  pose proof (frame_parts _ _ F1) as (_ & _ & _ & _ & _ & Hdep & Hmx).
  split; [reflexivity|]. split; [exact F1|]. split; [|split; [|split; [|split]]].
  - apply partition_inv_unfold. rewrite Hdiv.
    split; [reflexivity|]. split; [|exact C1].
    cbn. rewrite Hdep, Hmx. exact Hmax.
  - rewrite Hdiv. discriminate.
  - rewrite Hdiv. split; [discriminate|]. intros [H | H]; [lia|discriminate].
  - reflexivity.
  - intros Hb Hall. destruct I1 as (Hin & Hperm).
    { exact Hb. }
    { cbn. unfold children_inside. cbn. rewrite !Forall_nil_iff. tauto. }
    { exact Hall. }
    assert (Hc : Permutation (contents (set_points n1 [])) (points n)).
    { rewrite contents_unfold. cbn [set_points points app].
      change (sub_contents (set_points n1 [])) with (sub_contents n1).
      rewrite Hperm. reflexivity. }
    split; [|exact Hc].
    apply inside_inv_unfold. split; [|exact Hin].
    rewrite Hc. eapply Forall_impl; [|exact Hall].
    intros q. apply holds_same_frame. first [exact F1 | symmetry; exact F1].
Qed.

Lemma insert_divided_spec (n : QuadtreeNode) (x y : float) (idx : Z)
      (fd : option (list float)) :
  partition_inv n -> is_divided n = true -> fits (S fuel) n ->
  contains n x y = true ->
  insert_post n x y idx fd (insert_to_child_body rec n (x, y, idx, fd)).
Proof.
  intros Hp Hdiv Hf Hcon.
  pose proof Hp as Hp'. apply partition_inv_unfold in Hp'. rewrite Hdiv in Hp'.
  destruct Hp' as (Hpts & Hd & Hc).
  destruct (insert_to_child_spec n x y idx fd Hc Hd Hf)
    as (b & n' & E & F & P & D & C & I).
  pose proof (frame_parts _ _ F) as (_ & _ & _ & _ & _ & Hdep & Hmx).
  exists b, n'. split; [exact E|]. split; [exact F|]. split; [|split].
  - apply partition_inv_unfold. rewrite D, Hdiv.
    split; [congruence|]. split; [|exact C]. rewrite Hdep, Hmx. exact Hd.
  - congruence.
  - intros Hb _. destruct (I Hb Hcon) as (-> & I'). split; [reflexivity|].
    intros Hin. apply inside_inv_unfold in Hin. destruct Hin as (Hall & Hci).
    destruct (I' Hci) as (Hci' & Hperm).
    assert (Hc' : Permutation (contents n') ((x, y, idx, fd) :: contents n)).
    { rewrite !contents_unfold, P, Hpts. cbn. exact Hperm. }
    split; [|exact Hc'].
    apply inside_inv_unfold. split; [|exact Hci'].
    rewrite Hc'. constructor.
    + unfold holds. cbn. rewrite (contains_same_frame _ _ _ _ F). exact Hcon.
    + eapply Forall_impl; [|exact Hall]. intros q. apply holds_same_frame.
      first [exact F | symmetry; exact F].
Qed.

Lemma append_spec (n : QuadtreeNode) (x y : float) (idx : Z)
      (fd : option (list float)) :
  is_divided n = false -> no_children n -> contains n x y = true ->
  insert_post n x y idx fd
    (Ok (true, set_points n (points n ++ [(x, y, idx, fd)]))).
Proof.
  intros Hdiv Hnc Hcon.
  exists true, (set_points n (points n ++ [(x, y, idx, fd)])).
  split; [reflexivity|]. split; [reflexivity|].
  split; [|split; [congruence|]].
  - apply partition_inv_unfold. cbn. rewrite Hdiv. exact Hnc.
  - intros _ _. split; [reflexivity|].
    intros Hin. apply inside_inv_unfold in Hin. destruct Hin as (Hall & Hci).
    rewrite (contents_of_leaf n Hnc) in *.
    assert (Hnc' : no_children (set_points n (points n ++ [(x, y, idx, fd)])))
      by exact Hnc.
    rewrite inside_inv_unfold, (contents_of_leaf _ Hnc').
    cbn [set_points points nw ne sw se].
    split; [split; [|exact Hci]|].
    + apply Forall_app. split.
      * exact Hall.
      * constructor; [exact Hcon|constructor].
    + symmetry. apply Permutation_cons_append.
Qed.

Lemma insert_body_spec (n : QuadtreeNode) (x y : float) (idx : Z)
      (fd : option (list float)) :
  partition_inv n -> fits (S fuel) n ->
  insert_post n x y idx fd (insert_body rec n x y idx fd).
Proof.
  intros Hp Hf. unfold insert_body.
  destruct (contains n x y) eqn:Hcon; cbn [negb].
  2: { exists false, n. split; [reflexivity|]. split; [reflexivity|].
       split; [exact Hp|]. split; [auto|congruence]. }
  destruct (is_divided n) eqn:Hdiv; cbn [negb].
  { apply insert_divided_spec; assumption. }
  pose proof Hp as Hnc. apply partition_inv_unfold in Hnc. rewrite Hdiv in Hnc.
  destruct (Z.of_nat (length (points n)) <? capacity n)%Z.
  { apply append_spec; assumption. }
  destruct (max_depth n <=? depth n)%Z.
  { apply append_spec; assumption. }
  destruct (subdivide_spec n Hdiv Hnc Hf) as (n1 & E & F & P1 & U & _ & _ & I).
  rewrite E. cbn [bind].
  destruct (is_divided n1) eqn:D1; cbn [negb].
  - pose proof (frame_parts _ _ F) as (_ & _ & _ & _ & _ & Hdep & Hmx).
    assert (Hf1 : fits (S fuel) n1) by (unfold fits in *; rewrite Hdep, Hmx; exact Hf).
    assert (Hcon1 : contains n1 x y = true)
      by (rewrite (contains_same_frame _ _ _ _ F); exact Hcon).
    destruct (insert_divided_spec n1 x y idx fd P1 D1 Hf1 Hcon1)
      as (b & n2 & E2 & F2 & P2 & U2 & I2).
    exists b, n2. split; [exact E2|]. split; [congruence|]. split; [exact P2|].
    split; [congruence|].
    intros Hb _.
    destruct (I2 (bounded_same_frame _ _ (eq_sym F) Hb) Hcon1) as (-> & I2').
    split; [reflexivity|].
    intros Hin. pose proof Hin as Hin'.
    apply inside_inv_unfold in Hin'. destruct Hin' as (Hall & _).
    rewrite (contents_of_leaf n Hnc) in *.
    destruct (I Hb Hall) as (Hin1 & Hperm1).
    destruct (I2' Hin1) as (Hin2 & Hperm2).
    split; [exact Hin2|]. rewrite Hperm2, Hperm1. reflexivity.
  - rewrite (U eq_refl). apply append_spec; assumption.
Qed.

End InsertSpecF.

(** ** [insert] meets its specification *)

Lemma insert_spec (fuel : nat) : forall n x y idx fd,
  partition_inv n -> fits fuel n ->
  insert_post n x y idx fd (insert fuel n x y idx fd).
Proof.
  induction fuel as [|fuel IH]; intros n x y idx fd Hp Hf.
  - unfold fits in Hf. lia.
  - cbn [insert]. apply (insert_body_spec (insert fuel) fuel IH); assumption.
Qed.

(** ** The result of [insert] does not depend on spare budget *)

(** One branch of [_insert_to_child] in a hypothesis [H] about the body over
    [rec1], given [le] that transports results of [rec1] to [rec2]. *)
Ltac step_quadrant rec1 le H :=
  match type of H with
  | context [child ?c] => destruct c; cbn [child bind] in H |- *; [|discriminate H]
  end;
  match type of H with
  | context [contains ?a ?x ?y] => destruct (contains a x y)
  end;
  [ match type of H with
    | context [rec1 ?a ?x ?y ?i ?d] =>
        let E := fresh "E" in
        destruct (rec1 a x y i d) eqn:E; cbn [bind] in H; try discriminate H;
        rewrite (le _ _ _ _ _ _ E); exact H
    end | ].

Section MonotoneF.

Variables rec1 rec2 : QuadtreeNode -> float -> float -> Z -> option (list float) ->
                      result (bool * QuadtreeNode).

Hypothesis rec_le : forall c x y idx fd r,
  rec1 c x y idx fd = Ok r -> rec2 c x y idx fd = Ok r.

Lemma insert_to_child_more (n : QuadtreeNode) (p : Point) r :
  insert_to_child_body rec1 n p = Ok r -> insert_to_child_body rec2 n p = Ok r.
Proof.
  unfold insert_to_child_body. destruct p as [[[x y] idx] fd]. intros H.
  do 4 step_quadrant rec1 rec_le H. exact H.
Qed.

Lemma redistribute_more (ps : list Point) : forall n r,
  redistribute rec1 n ps = Ok r -> redistribute rec2 n ps = Ok r.
Proof.
  induction ps as [|p ps IH]; intros n r H; cbn [redistribute] in *.
  - exact H.
  - destruct (insert_to_child_body rec1 n p) as [[b n1]| |] eqn:E;
      cbn [bind] in H; try discriminate H.
    rewrite (insert_to_child_more _ _ _ E). cbn [bind]. apply IH, H.
Qed.

Lemma subdivide_more (n : QuadtreeNode) r :
  subdivide_body rec1 n = Ok r -> subdivide_body rec2 n = Ok r.
Proof.
  unfold subdivide_body. intros H.
  destruct (max_depth n <=? depth n)%Z; [exact H|].
  destruct (coincident (points n)); [exact H|].
  match type of H with
  | context [redistribute rec1 ?d ?ps] =>
      destruct (redistribute rec1 d ps) eqn:E; cbn [bind] in H; try discriminate H;
      rewrite (redistribute_more _ _ _ E); exact H
  end.
Qed.

Lemma insert_body_more (n : QuadtreeNode) x y idx fd r :
  insert_body rec1 n x y idx fd = Ok r -> insert_body rec2 n x y idx fd = Ok r.
Proof.
  unfold insert_body. intros H.
  destruct (negb (contains n x y)); [exact H|].
  destruct (negb (is_divided n)); [|apply insert_to_child_more, H].
  destruct (Z.of_nat (length (points n)) <? capacity n)%Z; [exact H|].
  destruct (max_depth n <=? depth n)%Z; [exact H|].
  destruct (subdivide_body rec1 n) as [n1| |] eqn:E; cbn [bind] in H; try discriminate H.
  rewrite (subdivide_more _ _ E). cbn [bind].
  destruct (negb (is_divided n1)); [exact H|apply insert_to_child_more, H].
Qed.

End MonotoneF.

Lemma insert_more_one (fuel : nat) : forall n x y idx fd r,
  insert fuel n x y idx fd = Ok r -> insert (S fuel) n x y idx fd = Ok r.
Proof.
  induction fuel as [|fuel IH]; intros n x y idx fd r H.
  - discriminate H.
  - cbn [insert] in *. apply (insert_body_more (insert fuel) (insert (S fuel)) IH), H.
Qed.

Lemma insert_more (fuel fuel' : nat) n x y idx fd r :
  (fuel <= fuel')%nat ->
  insert fuel n x y idx fd = Ok r -> insert fuel' n x y idx fd = Ok r.
Proof.
  induction 1 as [|m Hle IH]; intros H.
  - exact H.
  - apply insert_more_one, IH, H.
Qed.

(** Whatever budget made [insert] return, the result is the specified one. *)
Lemma insert_result (fuel : nat) n x y idx fd b n' :
  partition_inv n -> insert fuel n x y idx fd = Ok (b, n') ->
  insert_post n x y idx fd (Ok (b, n')).
Proof.
  intros Hp H.
  set (big := Nat.max fuel (S (Z.to_nat (max_depth n - depth n)))).
  rewrite <- (insert_more fuel big n x y idx fd (b, n') (Nat.le_max_l _ _) H).
  apply insert_spec; [exact Hp|]. unfold fits, big. lia.
Qed.

(** ** Nodes of built trees *)

Lemma fresh_node_inv xmin xmax ymin ymax cap d maxd :
  let n := new_node xmin xmax ymin ymax cap d maxd in
  partition_inv n /\ inside_inv n /\ contents n = [].
Proof.
  cbn. unfold no_children. cbn. rewrite Forall_nil_iff. tauto.
Qed.

(** The loop of [build] keeps the partition invariant and the region. *)
Lemma build_loop_keeps (fuel : nat) (points : ndarray) (xs ys : list float)
      (indices : list Z) : forall node sz i n' sz',
  partition_inv node ->
  build_loop fuel points xs ys node sz i indices = Ok (n', sz') ->
  partition_inv n' /\ frame n' = frame node /\
  (bounded node -> inside_inv node -> inside_inv n').
Proof.
  induction indices as [|idx rest IH]; intros node sz i n' sz' Hp E;
    cbn [build_loop] in E.
  - injection E as <- <-. auto.
  - destruct (if (2 <? ncols points)%nat then _ else _) as [fd| |];
      cbn [bind] in E; try discriminate E.
    destruct (getitem xs i) as [x| |]; cbn [bind] in E; try discriminate E.
    destruct (getitem ys i) as [y| |]; cbn [bind] in E; try discriminate E.
    destruct (insert fuel node x y idx fd) as [[b n1]| |] eqn:E1; cbn [bind] in E;
      try discriminate E.
    destruct (insert_result _ _ _ _ _ _ _ _ Hp E1)
      as (b' & m & Em & F1 & P1 & U1 & I1).
    injection Em as <- <-.
    destruct (IH _ _ _ _ _ P1 E) as (P2 & F2 & I2).
    split; [exact P2|]. split; [congruence|].
    intros Hb Hi. apply I2; [exact (bounded_same_frame _ _ (eq_sym F1) Hb)|].
    destruct (contains node x y) eqn:Hcon.
    + apply I1; auto.
    + destruct (U1 eq_refl) as (_ & ->). exact Hi.
Qed.

Lemma build_root_fresh (self : Quadtree) (xs ys : list float) (r0 : QuadtreeNode) :
  build_root self xs ys = Ok r0 ->
  exists xmin xmax ymin ymax,
    r0 = new_node xmin xmax ymin ymax (tree_capacity self) 0 (tree_max_depth self).
Proof.
  unfold build_root. intros Er.
  destruct (array_min xs) as [q| |]; cbn [bind] in Er; try discriminate Er.
  destruct (array_max xs) as [q0| |]; cbn [bind] in Er; try discriminate Er.
  destruct (array_min ys) as [q1| |]; cbn [bind] in Er; try discriminate Er.
  destruct (array_max ys) as [q2| |]; cbn [bind] in Er; try discriminate Er.
  injection Er as <-. eauto.
Qed.

Lemma build_keeps (fuel : nat) (self : Quadtree) (points : ndarray)
      (indices : option (list Z)) (t : Quadtree) :
  build fuel self points indices = Ok t ->
  exists r, root t = Some r /\ partition_inv r /\
            (bounded r -> inside_inv r) /\
            depth r = 0%Z /\ max_depth r = tree_max_depth self.
Proof.
  unfold build. intros E.
  destruct (column points (x_dim self)) as [xs| |]; cbn [bind] in E; try discriminate E.
  destruct (column points (y_dim self)) as [ys| |]; cbn [bind] in E; try discriminate E.
  destruct (build_root self xs ys) as [r0| |] eqn:Er; cbn [bind] in E; try discriminate E.
  destruct (build_loop fuel points xs ys r0 (size self) 0 _) as [[r sz]| |] eqn:El;
    cbn [bind] in E; try discriminate E.
  injection E as <-.
  exists r. split; [reflexivity|].
  destruct (build_root_fresh _ _ _ _ Er) as (a & b & c & d & ->).
  destruct (fresh_node_inv a b c d (tree_capacity self) 0 (tree_max_depth self))
    as (Hp0 & Hi0 & _).
  destruct (build_loop_keeps _ _ _ _ _ _ _ _ _ _ Hp0 El) as (Hp & F & Hi).
  pose proof (frame_parts _ _ F) as (_ & _ & _ & _ & _ & Hd & Hm). cbn in Hd, Hm.
  split; [exact Hp|]. split; [|split; assumption].
  intros Hb. apply Hi; [|exact Hi0].
  exact (bounded_same_frame _ _ F Hb).
Qed.

(** Every node obtained from [__init__], [build] and [insert] calls
    satisfies the partition invariant; its points lie in its region when
    the region is not the whole line on an axis. *)
Lemma reachable_keeps (n : QuadtreeNode) :
  reachable n -> partition_inv n /\ (bounded n -> inside_inv n).
Proof.
  induction 1 as [xmin xmax ymin ymax cap d maxd
                 | fuel self pts indices t r Hb Hroot
                 | fuel n x y idx fd b n' Hr [IHp IHi] Hins].
  - cbn. unfold no_children. cbn. rewrite Forall_nil_iff. tauto.
  - destruct (build_keeps _ _ _ _ _ Hb) as (r' & Er & Hp & Hi & _).
    rewrite Er in Hroot. injection Hroot as <-. auto.
  - destruct (insert_result _ _ _ _ _ _ _ _ IHp Hins)
      as (b' & m & E & F & P & U & I).
    injection E as <- <-. split; [exact P|].
    intros Hbd. pose proof (bounded_same_frame _ _ F Hbd) as Hbn.
    destruct (contains n x y) eqn:Hcon.
    + apply I; auto.
    + destruct (U eq_refl) as (_ & ->). auto.
Qed.

(** ** [query_range] returns the stored points of the box *)

Lemma node_rect' (P : QuadtreeNode -> Prop) :
  (forall n, opt_all P (nw n) -> opt_all P (ne n) ->
             opt_all P (sw n) -> opt_all P (se n) -> P n) ->
  forall n, P n.
Proof.
  intros step. fix IH 1. intros n. apply step.
  - destruct (nw n) as [m|]; [apply IH|exact I].
  - destruct (ne n) as [m|]; [apply IH|exact I].
  - destruct (sw n) as [m|]; [apply IH|exact I].
  - destruct (se n) as [m|]; [apply IH|exact I].
Qed.

Lemma query_range_unfold (n : QuadtreeNode) (a b c d : float) :
  query_range n a b c d =
  if negb (intersects n a b c d) then Ok []
  else if is_divided n then
    r_nw <- match nw n with Some m => query_range m a b c d | None => Raise AttributeError end ;;
    r_ne <- match ne n with Some m => query_range m a b c d | None => Raise AttributeError end ;;
    r_sw <- match sw n with Some m => query_range m a b c d | None => Raise AttributeError end ;;
    r_se <- match se n with Some m => query_range m a b c d | None => Raise AttributeError end ;;
    Ok (scan a b c d (points n) ++ r_nw ++ r_ne ++ r_sw ++ r_se)
  else Ok (scan a b c d (points n)).
Proof. destruct n; reflexivity. Qed.

Lemma scan_append (a b c d : float) (l1 l2 : list Point) :
  scan a b c d (l1 ++ l2) = scan a b c d l1 ++ scan a b c d l2.
Proof. unfold scan. rewrite filter_app, map_app. reflexivity. Qed.

(** Pruning is safe: a box that misses the region of a node misses every
    point of that region. *)
Lemma scan_pruned (n : QuadtreeNode) (a b c d : float) (l : list Point) :
  intersects n a b c d = false -> Forall (holds n) l -> scan a b c d l = [].
Proof.
  intros Hint Hall. unfold scan.
  induction Hall as [|p l Hp _ IH]; [reflexivity|].
  cbn [filter]. destruct (in_range a b c d p) eqn:Hin; [|exact IH].
  exfalso. apply in_range_within in Hin. apply contains_within in Hp.
  unfold within in *. unfold intersects in Hint.
  apply negb_false_iff in Hint. rewrite !orb_true_iff in Hint.
  destruct Hin as (I1 & I2 & I3 & I4), Hp as (P1 & P2 & P3 & P4).
  destruct Hint as [[[H' | H'] | H'] | H'].
  - exact (ltb_leb_contra _ _ H' (leb_trans _ _ _ P1 I2)).
  - exact (ltb_leb_contra _ _ H' (leb_trans _ _ _ I1 P2)).
  - exact (ltb_leb_contra _ _ H' (leb_trans _ _ _ P3 I4)).
  - exact (ltb_leb_contra _ _ H' (leb_trans _ _ _ I3 P4)).
Qed.

Lemma query_range_scan : forall n a b c d,
  partition_inv n -> inside_inv n ->
  query_range n a b c d = Ok (scan a b c d (contents n)).
Proof.
  induction n as [n IHa IHb IHc IHd] using node_rect'.
  intros a b c d Hp Hi.
  rewrite query_range_unfold.
  apply inside_inv_unfold in Hi. destruct Hi as (Hall & Ia & Ib & Ic & Id).
  destruct (intersects n a b c d) eqn:Hint; cbn [negb].
  2: { rewrite (scan_pruned n a b c d _ Hint Hall). reflexivity. }
  apply partition_inv_unfold in Hp. rewrite contents_unfold. unfold sub_contents.
  destruct (is_divided n).
  - destruct Hp as (Hpts & _ & Hc). unfold children_ok in Hc.
    destruct (nw n) as [ca|]; [|contradiction].
    destruct (ne n) as [cb|]; [|contradiction].
    destruct (sw n) as [cc|]; [|contradiction].
    destruct (se n) as [cd|]; [|contradiction].
    destruct Hc as (_ & Pa & Pb & Pc & Pd). cbn [opt_all child_contents] in *.
    rewrite (IHa a b c d Pa Ia), (IHb a b c d Pb Ib),
            (IHc a b c d Pc Ic), (IHd a b c d Pd Id).
    cbn [bind]. rewrite !scan_append. reflexivity.
  - destruct Hp as (-> & -> & -> & ->). cbn [child_contents].
    rewrite !app_nil_r. reflexivity.
Qed.

(** ** Sequences of [insert] calls *)

Lemma insert_all_result (fuel : nat) (ps : list Point) : forall n bs n',
  partition_inv n -> bounded n -> inside_inv n ->
  insert_all fuel n ps = Ok (bs, n') ->
  bs = map (holdsb n) ps /\ frame n' = frame n /\
  partition_inv n' /\ inside_inv n' /\
  Permutation (contents n') (contents n ++ filter (holdsb n) ps).
Proof.
  induction ps as [|p ps IH]; intros n bs n' Hp Hbd Hi H; cbn [insert_all] in H.
  - injection H as <- <-. cbn. rewrite app_nil_r. auto.
  - destruct p as [[[x y] idx] fd].
    destruct (insert fuel n x y idx fd) as [[b n1]| |] eqn:E1; cbn [bind] in H;
      try discriminate H.
    destruct (insert_all fuel n1 ps) as [[bs2 n2]| |] eqn:E2; cbn [bind] in H;
      try discriminate H.
    injection H as <- <-.
    destruct (insert_result _ _ _ _ _ _ _ _ Hp E1)
      as (b' & m & Em & F1 & P1 & U1 & I1).
    injection Em as <- <-.
    assert (Hi1 : b = contains n x y /\ inside_inv n1 /\
                  Permutation (contents n1)
                    (contents n ++ filter (holdsb n) [(x, y, idx, fd)])).
    { cbn [filter]. unfold holdsb at 1. cbn [point_x point_y fst snd].
      destruct (contains n x y) eqn:Hcon.
      - destruct (I1 Hbd eq_refl) as (-> & I1').
        destruct (I1' Hi) as (Hi1 & Hperm). split; [reflexivity|].
        split; [exact Hi1|].
        rewrite Hperm. apply Permutation_cons_append.
      - destruct (U1 eq_refl) as (-> & ->). rewrite app_nil_r. auto. }
    destruct Hi1 as (Hb & Hi1 & Hperm1).
    destruct (IH n1 bs2 n2 P1 (bounded_same_frame _ _ (eq_sym F1) Hbd) Hi1 E2)
      as (Hbs & F2 & P2 & I2 & Hperm2).
    assert (Hsame : forall q, holdsb n1 q = holdsb n q)
      by (intros q; unfold holdsb; apply contains_same_frame, F1).
    split; [|split; [congruence|split; [exact P2|split; [exact I2|]]]].
    + cbn [map]. unfold holdsb at 1. cbn [point_x point_y fst snd].
      rewrite Hbs, Hb. f_equal. apply map_ext, Hsame.
    + change ((x, y, idx, fd) :: ps) with ([(x, y, idx, fd)] ++ ps).
      rewrite filter_app, Hperm2, Hperm1, <- app_assoc.
      rewrite (filter_ext _ _ Hsame). reflexivity.
Qed.

Lemma insert_all_total (fuel : nat) (ps : list Point) : forall n,
  partition_inv n -> fits fuel n ->
  exists bs n', insert_all fuel n ps = Ok (bs, n').
Proof.
  induction ps as [|p ps IH]; intros n Hp Hf; cbn [insert_all].
  - eauto.
  - destruct p as [[[x y] idx] fd].
    destruct (insert_spec fuel n x y idx fd Hp Hf) as (b & n1 & E1 & F1 & P1 & _).
    rewrite E1. cbn [bind].
    pose proof (frame_parts _ _ F1) as (_ & _ & _ & _ & _ & Hdep & Hmx).
    destruct (IH n1 P1) as (bs & n2 & E2).
    { unfold fits in *. rewrite Hdep, Hmx. exact Hf. }
    rewrite E2. cbn [bind]. eauto.
Qed.

Lemma accepted_holds (n : QuadtreeNode) (ps : list Point) :
  accepted ps (map (holdsb n) ps) = filter (holdsb n) ps.
Proof.
  unfold accepted. induction ps as [|p ps IH]; [reflexivity|].
  cbn. destruct (holdsb n p); cbn; rewrite IH; reflexivity.
Qed.

Lemma scan_members (a b c d : float) (l : list Point) (i : Z) :
  In i (scan a b c d l) <->
  exists q, In q l /\ point_idx q = i /\ within a b c d (point_x q) (point_y q).
Proof.
  unfold scan. rewrite in_map_iff. split.
  - intros (q & Hi & Hq). apply filter_In in Hq. destruct Hq as (Hq & Hr).
    exists q. rewrite <- in_range_within. auto.
  - intros (q & Hq & Hi & Hw). exists q. split; [exact Hi|].
    apply filter_In. rewrite in_range_within. auto.
Qed.

(** ** Points inside the region *)

(** C9: over binary64 coordinates, on a node that satisfies the partition
    invariant and whose region is not the whole line from minus infinity to
    plus infinity on either axis, [insert] of a point that the node contains
    returns [True]: both computed midpoints are numbers, so in a divided
    node one of the four children contains the point and [_insert_to_child]
    does not reach its final [return False]. *)
Theorem C9_insert_inside_bounded (fuel : nat) (n : QuadtreeNode) (x y : float)
        (idx : Z) (fd : option (list float)) :
  partition_inv n -> bounded n -> contains n x y = true -> fits fuel n ->
  (exists n', insert fuel n x y idx fd = Ok (true, n')) /\
  (is_divided n = true ->
   (exists c, In (Some c) [nw n; ne n; sw n; se n] /\ contains c x y = true) /\
   exists n', _insert_to_child (pred fuel) n (x, y, idx, fd) = Ok (true, n')).
Proof.
  intros Hp Hb Hcon Hf. split.
  - destruct (insert_spec fuel n x y idx fd Hp Hf) as (b & n' & E & _ & _ & _ & I).
    destruct (I Hb Hcon) as (-> & _). eauto.
  - intros Hdiv. pose proof Hp as Hp'.
    apply partition_inv_unfold in Hp'. rewrite Hdiv in Hp'.
    destruct Hp' as (_ & Hd & Hc). split.
    + unfold children_ok in Hc.
      destruct (nw n) as [a|]; [|contradiction].
      destruct (ne n) as [b|]; [|contradiction].
      destruct (sw n) as [c|]; [|contradiction].
      destruct (se n) as [d|]; [|contradiction].
      destruct Hc as ((Fa & Fb & Fc & Fd) & _).
      pose proof (quadrants_reach n x y Hb Hcon) as Hq.
      rewrite <- (contains_same_frame a _ x y Fa), <- (contains_same_frame b _ x y Fb),
              <- (contains_same_frame c _ x y Fc), <- (contains_same_frame d _ x y Fd)
        in Hq.
      cbn [In].
      destruct Hq as [H | [H | [H | H]]]; eauto 7.
    + destruct fuel as [|fuel]; [unfold fits in Hf; lia|]. cbn [pred].
      destruct (insert_divided_spec (insert fuel) fuel (insert_spec fuel)
                  n x y idx fd Hp Hdiv Hf Hcon) as (b & n' & E & _ & _ & _ & I).
      destruct (I Hb Hcon) as (-> & _). unfold _insert_to_child. eauto.
Qed.

Lemma two_point_node_partition : partition_inv two_point_node.
Proof.
  vm_compute. repeat split; reflexivity.
Qed.

Lemma two_point_node_bounded : bounded two_point_node.
Proof.
  vm_compute. split; reflexivity.
Qed.

Lemma C9_insert_inside_bounded_witness :
  partition_inv two_point_node /\
  bounded two_point_node /\
  contains two_point_node 0.25 0.25 = true /\
  fits 26 two_point_node /\
  exists n', insert 26 two_point_node 0.25 0.25 2 None = Ok (true, n').
Proof.
  split; [exact two_point_node_partition|].
  split; [exact two_point_node_bounded|].
  split; [vm_compute; reflexivity|].
  split; [unfold fits; vm_compute; lia|].
  assert (Hc : contains two_point_node 0.25 0.25 = true) by (vm_compute; reflexivity).
  assert (Hf : fits 26 two_point_node) by (unfold fits; vm_compute; lia).
  destruct (C9_insert_inside_bounded 26 two_point_node 0.25 0.25 2 None
              two_point_node_partition two_point_node_bounded Hc Hf) as (H & _).
  exact H.
Defined.

(** The rows [(-2^1023, 0)] and [(2^1023, 0)] with capacity one: [build]
    creates the root on the whole line, the first [insert] leaves a leaf
    with the partition invariant that contains the second point, and the
    second [insert] returns [False]. *)
Lemma C9_counterexample :
  exists n n',
    build_root (new_quadtree 0 1 1 25) [-0x1p1023; 0x1p1023] [0; 0] = Ok far_root /\
    insert 26 far_root (-0x1p1023) 0 0 None = Ok (true, n) /\
    partition_inv n /\
    contains n 0x1p1023 0 = true /\
    insert 26 n 0x1p1023 0 1 None = Ok (false, n').
Proof.
  exists (set_points far_root [(-0x1p1023, 0, 0%Z, None)]), (tree_root far_tree).
  vm_compute. repeat split; reflexivity.
Qed.

(** ** Containment correctness of range queries *)





(** ** Leaves and internal nodes *)








(** ** Building the index *)

Lemma column_rows (points : ndarray) (d : Z) (xs : list float) :
  column points d = Ok xs -> length xs = length (rows points).
Proof.
  unfold column. destruct (norm_index (ncols points) d); cbn [bind]; try discriminate.
  apply mapM_length.
Qed.

(** On non-empty columns [build] always gets its root: a fresh node at
    depth 0 with the capacity and depth limit of the index. *)
Lemma build_root_total (self : Quadtree) (xs ys : list float) :
  xs <> [] -> ys <> [] ->
  exists xmin xmax ymin ymax,
    build_root self xs ys =
    Ok (new_node xmin xmax ymin ymax (tree_capacity self) 0 (tree_max_depth self)).
Proof.
  intros Hx Hy. destruct xs as [|x xs]; [congruence|].
  destruct ys as [|y ys]; [congruence|].
  unfold build_root, array_min, array_max. cbn [bind]. eauto.
Qed.

Lemma build_loop_as_inserts (fuel : nat) (points : ndarray) (xs ys : list float)
      (indices : list Z) : forall node sz i,
  length xs = length (rows points) -> length ys = length (rows points) ->
  (i + length indices <= length (rows points))%nat ->
  build_loop fuel points xs ys node sz i indices =
  ('(bs, n') <- insert_all fuel node (loop_points points xs ys i indices) ;;
   Ok (n', (sz + Z.of_nat (length indices))%Z)).
Proof.
  induction indices as [|idx rest IH]; intros node sz i Hx Hy Hi.
  - cbn. rewrite Z.add_0_r. reflexivity.
  - cbn [length] in Hi. cbn [build_loop loop_points insert_all].
    rewrite (getitem_nth (rows points) i []) by lia.
    rewrite (getitem_nth xs i 0) by lia.
    rewrite (getitem_nth ys i 0) by lia.
    destruct (2 <? ncols points)%nat; cbn [bind];
      (destruct (insert fuel node (nth i xs 0) (nth i ys 0) idx _) as [[b n1]| |];
       cbn [bind]; [|reflexivity|reflexivity];
       rewrite IH by (cbn; lia);
       destruct (insert_all fuel n1 _) as [[bs n2]| |]; cbn [bind length];
       [|reflexivity|reflexivity];
       do 2 f_equal; lia).
Qed.


Lemma insert_all_frame (fuel : nat) (ps : list Point) : forall n bs n',
  partition_inv n -> insert_all fuel n ps = Ok (bs, n') ->
  frame n' = frame n /\ partition_inv n'.
Proof.
  induction ps as [|p ps IH]; intros n bs n' Hp H; cbn [insert_all] in H.
  - injection H as <- <-. auto.
  - destruct p as [[[x y] idx] fd].
    destruct (insert fuel n x y idx fd) as [[b n1]| |] eqn:E1; cbn [bind] in H;
      try discriminate H.
    destruct (insert_all fuel n1 ps) as [[bs2 n2]| |] eqn:E2; cbn [bind] in H;
      try discriminate H.
    injection H as <- <-.
    destruct (insert_result _ _ _ _ _ _ _ _ Hp E1) as (b' & m & Em & F1 & P1 & _).
    injection Em as <- <-.
    destruct (IH _ _ _ P1 E2) as (F2 & P2). split; [congruence|exact P2].
Qed.

(** [build] on a fresh index, for a non-empty array that has the two
    configured columns, returns; when the root region is not the whole line
    on an axis, the tree stores the tuples passed to [insert] that lie in
    the root region, each once. *)
Lemma build_result (fuel : nat) (xd yd cap maxd : Z) (points : ndarray)
      (indices : option (list Z)) (xs ys : list float) :
  rows points <> [] ->
  column points xd = Ok xs -> column points yd = Ok ys ->
  (length (build_indices points indices) <= length (rows points))%nat ->
  (Z.to_nat maxd < fuel)%nat ->
  let ids := build_indices points indices in
  let ps := loop_points points xs ys 0 ids in
  exists r0 r,
    build_root (new_quadtree xd yd cap maxd) xs ys = Ok r0 /\
    build fuel (new_quadtree xd yd cap maxd) points indices =
      Ok (mkQuadtree xd yd cap maxd (Some r) (Z.of_nat (length ids))) /\
    frame r = frame r0 /\ partition_inv r /\
    (bounded r ->
     inside_inv r /\ Permutation (contents r) (filter (holdsb r) ps)).
Proof.
  intros Hne Hxs Hys Hlen Hfuel ids ps.
  pose proof (column_rows _ _ _ Hxs) as Lx.
  pose proof (column_rows _ _ _ Hys) as Ly.
  assert (Hx : xs <> []) by (destruct xs, (rows points); cbn in *; congruence).
  assert (Hy : ys <> []) by (destruct ys, (rows points); cbn in *; congruence).
  destruct (build_root_total (new_quadtree xd yd cap maxd) xs ys Hx Hy)
    as (a & b & c & d & Eroot).
  cbn [tree_capacity tree_max_depth new_quadtree] in Eroot.
  set (r0 := new_node a b c d cap 0 maxd) in *.
  destruct (fresh_node_inv a b c d cap 0 maxd) as (Hp0 & Hi0 & Hc0).
  fold r0 in Hp0, Hi0, Hc0.
  assert (Hf : fits fuel r0)
    by (unfold fits; cbn; rewrite Z.sub_0_r; exact Hfuel).
  destruct (insert_all_total fuel ps r0 Hp0 Hf) as (bs & r & Erun).
  destruct (insert_all_frame _ _ _ _ _ Hp0 Erun) as (F & Hp).
  exists r0, r. split; [exact Eroot|]. split; [|split; [exact F|split; [exact Hp|]]].
  - unfold build. cbn [x_dim y_dim size tree_capacity tree_max_depth new_quadtree].
    rewrite Hxs, Hys. cbn [bind]. rewrite Eroot. cbn [bind].
    fold (build_indices points indices). fold ids.
    rewrite (build_loop_as_inserts fuel points xs ys ids r0 0%Z 0 Lx Ly)
      by (cbn; exact Hlen).
    fold ps. rewrite Erun. reflexivity.
  - intros Hb. pose proof (bounded_same_frame _ _ F Hb) as Hb0.
    destruct (insert_all_result _ _ _ _ _ Hp0 Hb0 Hi0 Erun)
      as (_ & _ & _ & Hi & Hperm).
    split; [exact Hi|]. rewrite Hc0 in Hperm. cbn [app] in Hperm.
    rewrite Hperm. rewrite (filter_ext (holdsb r0) (holdsb r)); [reflexivity|].
    intros q. unfold holdsb. symmetry. apply contains_same_frame, F.
Qed.

(** ** Coverage of the full region *)



Lemma two_rows_tree_result :
  build 26 (new_quadtree 0 1 50 25) two_rows None = Ok two_rows_tree.
Proof. vm_compute. reflexivity. Qed.



(** ** What [insert] does to the stored points *)

Lemma one_point_node_built : reachable one_point_node.
Proof.
  apply (reach_insert 1 unit_node 0 0 0%Z None true one_point_node).
  - apply reach_new.
  - vm_compute. reflexivity.
Qed.

(** X1: over binary64 coordinates, on a node built by [__init__], [build]
    and [insert] calls whose region is not the whole line on an axis, a
    call of [insert] returns, with the answer of [contains]; it never
    changes the region, capacity or depth of the node; on [True] the points
    stored in and below the node are the old ones and the new one, each
    once, also when the call subdivides; on [False] the node is
    untouched. *)
Theorem X1_insert_keeps_points (fuel : nat) (n : QuadtreeNode) (x y : float)
        (idx : Z) (fd : option (list float)) :
  reachable n -> bounded n -> fits fuel n ->
  exists b n',
    insert fuel n x y idx fd = Ok (b, n') /\
    b = contains n x y /\
    frame n' = frame n /\
    (b = true -> Permutation (contents n') ((x, y, idx, fd) :: contents n)) /\
    (b = false -> n' = n).
Proof.
  intros Hr Hb Hf.
  destruct (reachable_keeps n Hr) as (Hp & Hi).
  destruct (insert_spec fuel n x y idx fd Hp Hf) as (b & n' & E & F & _ & U & I).
  exists b, n'. split; [exact E|].
  destruct (contains n x y) eqn:Hcon.
  - destruct (I Hb eq_refl) as (-> & I').
    split; [reflexivity|]. split; [exact F|]. split; [|discriminate].
    intros _. apply I', Hi, Hb.
  - destruct (U eq_refl) as (-> & ->).
    split; [reflexivity|]. split; [reflexivity|]. split; [discriminate|reflexivity].
Qed.

Lemma X1_insert_keeps_points_witness :
  exists b n',
    insert 26 one_point_node 1 1 1%Z None = Ok (b, n') /\
    b = contains one_point_node 1 1 /\
    frame n' = frame one_point_node /\
    (b = true ->
     Permutation (contents n') ((1, 1, 1%Z, None) :: contents one_point_node)) /\
    (b = false -> n' = one_point_node).
Proof.
  assert (Hb : bounded one_point_node) by (vm_compute; split; reflexivity).
  assert (Hf : fits 26 one_point_node) by (unfold fits; vm_compute; lia).
  exact (X1_insert_keeps_points 26 one_point_node 1 1 1%Z None
           one_point_node_built Hb Hf).
Defined.

(** ** Which child receives a point *)

Lemma quadrant_choice (n : QuadtreeNode) (x y : float) :
  bounded n -> contains n x y = true ->
  match quadrant_of n x y with
  | NW => contains (fresh_nw n) x y = true
  | NE => contains (fresh_nw n) x y = false /\ contains (fresh_ne n) x y = true
  | SW => contains (fresh_nw n) x y = false /\ contains (fresh_ne n) x y = false /\
          contains (fresh_sw n) x y = true
  | SE => contains (fresh_nw n) x y = false /\ contains (fresh_ne n) x y = false /\
          contains (fresh_sw n) x y = false /\ contains (fresh_se n) x y = true
  end.
Proof.
  intros (Hbx & Hby) Hc. apply contains_within in Hc.
  destruct Hc as (H1 & H2 & H3 & H4).
  pose proof (mid_ordered _ _ (leb_trans _ _ _ H1 H2) Hbx) as Hmx.
  pose proof (mid_ordered _ _ (leb_trans _ _ _ H3 H4) Hby) as Hmy.
  fold (x_mid n) in Hmx. fold (y_mid n) in Hmy.
  destruct (leb_ordered _ _ H1) as (_ & Ox).
  destruct (leb_ordered _ _ H3) as (_ & Oy).
  unfold quadrant_of.
  destruct (x <=? x_mid n) eqn:Ex; destruct (y_mid n <=? y) eqn:Ey;
    unfold contains; cbn [fresh_nw fresh_ne fresh_sw fresh_se new_node
                          x_min x_max y_min y_max];
    rewrite ?H1, ?H2, ?H3, ?H4, ?Ex, ?Ey; cbn [andb].
  - reflexivity.
  - destruct (leb_total y (y_mid n) Oy Hmy) as [Hy | Hy]; [|congruence].
    rewrite Hy, !andb_false_r. auto.
  - destruct (leb_total x (x_mid n) Ox Hmx) as [Hx | Hx]; [congruence|].
    rewrite Hx. auto.
  - destruct (leb_total x (x_mid n) Ox Hmx) as [Hx | Hx]; [congruence|].
    destruct (leb_total y (y_mid n) Oy Hmy) as [Hy | Hy]; [|congruence].
    rewrite Hx, Hy, !andb_false_r. auto.
Qed.

(** X15: over binary64 coordinates, in a divided node with the partition
    invariant whose region is not the whole line on an axis, a contained
    point goes to the child given by comparing it with the computed
    midpoints, a point on a splitting line going to the west and to the
    north: NW when [x <= x_mid] and [y >= y_mid], NE when [x > x_mid] and
    [y >= y_mid], SW when [x <= x_mid] and [y < y_mid], SE otherwise.  That
    child accepts the point and the other three children are left as they
    were. *)
Theorem X15_child_choice (fuel : nat) (n : QuadtreeNode) (x y : float) (idx : Z)
        (fd : option (list float)) :
  partition_inv n -> bounded n -> is_divided n = true ->
  contains n x y = true -> fits (S fuel) n ->
  exists c c',
    child_at (quadrant_of n x y) n = Some c /\
    contains c x y = true /\
    insert fuel c x y idx fd = Ok (true, c') /\
    _insert_to_child fuel n (x, y, idx, fd) =
    Ok (true, set_child (quadrant_of n x y) n c').
Proof.
  intros Hp Hbd Hdiv Hcon Hf.
  pose proof Hp as Hp'. apply partition_inv_unfold in Hp'. rewrite Hdiv in Hp'.
  destruct Hp' as (_ & Hd & Hc). unfold children_ok in Hc.
  destruct (nw n) as [a|] eqn:Ea; [|contradiction].
  destruct (ne n) as [b|] eqn:Eb; [|contradiction].
  destruct (sw n) as [c|] eqn:Ec; [|contradiction].
  destruct (se n) as [d|] eqn:Ed; [|contradiction].
  destruct Hc as ((Fa & Fb & Fc & Fd) & Pa & Pb & Pc & Pd).
  assert (Hfit : forall m q, frame m = frame q ->
            depth q = (depth n + 1)%Z -> max_depth q = max_depth n -> fits fuel m).
  { intros m q Fm Hq1 Hq2. apply frame_parts in Fm.
    apply (fits_of_child fuel n m Hd Hf); intuition congruence. }
  destruct (bounded_quadrants n Hbd) as (B1 & B2 & B3 & B4).
  assert (Hins : forall m q, frame m = frame q -> bounded q ->
                   partition_inv m -> fits fuel m -> contains m x y = true ->
                   exists m', insert fuel m x y idx fd = Ok (true, m')).
  { intros m q Fm Bq Pm Hfm Cm.
    destruct (insert_spec fuel m x y idx fd Pm Hfm) as (r & m' & E & _ & _ & _ & I).
    destruct (I (bounded_same_frame _ _ (eq_sym Fm) Bq) Cm) as (-> & _). eauto. }
  pose proof (quadrant_choice n x y Hbd Hcon) as Hq.
  rewrite <- (contains_same_frame a _ x y Fa), <- (contains_same_frame b _ x y Fb),
          <- (contains_same_frame c _ x y Fc), <- (contains_same_frame d _ x y Fd) in Hq.
  unfold _insert_to_child, insert_to_child_body. rewrite Ea, Eb, Ec, Ed.
  cbn [child bind].
  destruct (quadrant_of n x y); cbn [child_at set_child].
  - destruct (Hins a _ Fa B1 Pa (Hfit _ _ Fa eq_refl eq_refl) Hq) as (a' & E).
    exists a, a'. rewrite Hq, E. auto.
  - destruct Hq as (H1 & H2).
    destruct (Hins b _ Fb B2 Pb (Hfit _ _ Fb eq_refl eq_refl) H2) as (b' & E).
    exists b, b'. rewrite H1, H2, E. auto.
  - destruct Hq as (H1 & H2 & H3).
    destruct (Hins c _ Fc B3 Pc (Hfit _ _ Fc eq_refl eq_refl) H3) as (c' & E).
    exists c, c'. rewrite H1, H2, H3, E. auto.
  - destruct Hq as (H1 & H2 & H3 & H4).
    destruct (Hins d _ Fd B4 Pd (Hfit _ _ Fd eq_refl eq_refl) H4) as (d' & E).
    exists d, d'. rewrite H1, H2, H3, H4, E. auto.
Qed.

Lemma X15_child_choice_witness :
  exists c c',
    child_at (quadrant_of two_point_node 0.5 0.5) two_point_node = Some c /\
    contains c 0.5 0.5 = true /\
    insert 25 c 0.5 0.5 2%Z None = Ok (true, c') /\
    _insert_to_child 25 two_point_node (0.5, 0.5, 2%Z, None) =
    Ok (true, set_child (quadrant_of two_point_node 0.5 0.5) two_point_node c').
Proof.
  apply (X15_child_choice 25 two_point_node 0.5 0.5 2%Z None).
  - exact two_point_node_partition.
  - exact two_point_node_bounded.
  - vm_compute. reflexivity.
  - vm_compute. reflexivity.
  - unfold fits. vm_compute. lia.
Defined.

Example centre_goes_north_west :
  quadrant_of two_point_node 0.5 0.5 = NW.
Proof. vm_compute. reflexivity. Qed.

(** ** [subdivide] called on a leaf *)

(** X16: over binary64 coordinates, [subdivide] on an undivided node of a
    tree built by [__init__], [build] and [insert] calls, whose region is
    not the whole line on an axis, returns the node unchanged exactly when
    the node is at the maximum depth or holds at least two points that all
    pass the coincidence test [abs(p - first) < 1e-10] on both axes;
    otherwise it returns a divided node on the same region with no points
    of its own, and the points stored below it are the points the node
    held, each once. *)
Theorem X16_subdivide_leaf (fuel : nat) (n : QuadtreeNode) :
  reachable n -> bounded n -> is_divided n = false -> fits (S fuel) n ->
  exists n',
    subdivide fuel n = Ok n' /\
    frame n' = frame n /\
    Permutation (contents n') (contents n) /\
    (is_divided n' = false <->
     (max_depth n <= depth n)%Z \/ coincident (points n) = true) /\
    (is_divided n' = false -> n' = n) /\
    (is_divided n' = true -> points n' = [] /\ partition_inv n').
Proof.
  intros Hr Hb Hleaf Hf.
  destruct (reachable_keeps n Hr) as (Hp & Hi). specialize (Hi Hb).
  pose proof Hp as Hnc. apply partition_inv_unfold in Hnc. rewrite Hleaf in Hnc.
  destruct (subdivide_spec (insert fuel) fuel (insert_spec fuel) n Hleaf Hnc Hf)
    as (n' & E & F & Hp' & U & W & N & I).
  exists n'. unfold subdivide. split; [exact E|]. split; [exact F|].
  assert (Hall : Forall (holds n) (points n)).
  { apply inside_inv_unfold in Hi. destruct Hi as (Hall & _).
    rewrite (contents_of_leaf n Hnc) in Hall. exact Hall. }
  split; [|split; [exact W|split; [exact U|]]].
  - destruct (I Hb Hall) as (_ & Hperm). rewrite (contents_of_leaf n Hnc). exact Hperm.
  - intros Hd. split; [exact (N Hd)|exact Hp'].
Qed.

Lemma X16_subdivide_leaf_witness :
  exists n',
    subdivide 25 one_point_node = Ok n' /\
    frame n' = frame one_point_node /\
    Permutation (contents n') (contents one_point_node) /\
    (is_divided n' = false <->
     (max_depth one_point_node <= depth one_point_node)%Z \/
     coincident (points one_point_node) = true) /\
    (is_divided n' = false -> n' = one_point_node) /\
    (is_divided n' = true -> points n' = [] /\ partition_inv n').
Proof.
  apply (X16_subdivide_leaf 25 one_point_node one_point_node_built).
  - vm_compute. split; reflexivity.
  - reflexivity.
  - unfold fits. vm_compute. lia.
Defined.

(** The coincidence test is the one of binary64: the points [(5e-27, 0)]
    and [(1e-10, 0)] differ by [1e-10] after rounding, so they do not pass
    it and a full leaf that holds them is divided. *)
Example close_points_split :
  coincident [(5e-27, 0, 0%Z, None); (1e-10, 0, 1%Z, None)] = false /\
  exists n',
    subdivide 25 (set_points (new_node 0 1 0 1 2 0 25)
                             [(5e-27, 0, 0%Z, None); (1e-10, 0, 1%Z, None)])
    = Ok n' /\ is_divided n' = true.
Proof.
  split; [vm_compute; reflexivity|].
  vm_compute. eexists. split; reflexivity.
Qed.

(** ** What [build] stores *)

Lemma loop_points_rows (points : ndarray) (xs ys : list float) (n : nat) :
  forall i,
  loop_points points xs ys i (map Z.of_nat (seq i n)) =
  map (row_point points xs ys) (seq i n).
Proof.
  induction n as [|n IH]; intros i; [reflexivity|].
  cbn [seq map loop_points]. rewrite IH. reflexivity.
Qed.

(** X6: over binary64 coordinates, on a fresh index and a non-empty array
    with the two configured columns, [build] without [indices] returns an
    index with a root; when the root region is not the whole line on an
    axis, the tree stores, in some order under the root, one tuple for each
    row whose projection lies in the root region: the two projected
    coordinates, the row number as identifier, and as [full_data] the whole
    row when the array has more than two columns and [None] otherwise. *)
Theorem X6_build_stores_rows (fuel : nat) (xd yd cap maxd : Z) (pts : ndarray)
        (xs ys : list float) :
  rows pts <> [] ->
  column pts xd = Ok xs -> column pts yd = Ok ys ->
  (Z.to_nat maxd < fuel)%nat ->
  exists t r,
    build fuel (new_quadtree xd yd cap maxd) pts None = Ok t /\
    root t = Some r /\
    (bounded r ->
     Permutation (contents r)
       (filter (holdsb r)
               (map (row_point pts xs ys) (seq 0 (length (rows pts)))))).
Proof.
  intros Hne Hxs Hys Hfuel.
  assert (Hlen : (length (build_indices pts None) <= length (rows pts))%nat).
  { cbn. unfold arange. rewrite length_map, length_seq. lia. }
  destruct (build_result fuel xd yd cap maxd pts None xs ys Hne Hxs Hys Hlen Hfuel)
    as (r0 & r & _ & Eb & _ & _ & Hst).
  cbv zeta in Eb, Hst. cbn [build_indices] in Hst. unfold arange in Hst.
  rewrite loop_points_rows in Hst.
  eexists _, r. split; [exact Eb|]. split; [reflexivity|].
  intros Hb. apply Hst, Hb.
Qed.

Lemma wide_rows_tree_result :
  exists t, build 26 (new_quadtree 0 1 50 25) wide_rows None = Ok t /\
            root t = Some (set_points (new_node (-0.01) 1.01 (-0.01) 1.01 50 0 25)
                             (map (row_point wide_rows [0; 1; 1] [0; 1; 0]) [0; 1; 2]%nat)).
Proof. vm_compute. eexists. split; reflexivity. Qed.

Lemma X6_build_stores_rows_witness :
  exists t r,
    build 26 (new_quadtree 0 1 50 25) wide_rows None = Ok t /\
    root t = Some r /\ bounded r /\
    Permutation (contents r)
      (map (row_point wide_rows [0; 1; 1] [0; 1; 0]) (seq 0 (length (rows wide_rows)))).
Proof.
  assert (H1 : rows wide_rows <> []) by discriminate.
  assert (H2 : (Z.to_nat 25 < 26)%nat) by (vm_compute; lia).
  destruct (X6_build_stores_rows 26 0 1 50 25 wide_rows [0; 1; 1] [0; 1; 0]
              H1 eq_refl eq_refl H2) as (t & r & Eb & Er & H).
  destruct wide_rows_tree_result as (t' & Eb' & Er').
  rewrite Eb' in Eb. injection Eb as <-. rewrite Er' in Er. injection Er as <-.
  assert (Hb : bounded (set_points (new_node (-0.01) 1.01 (-0.01) 1.01 50 0 25)
                 (map (row_point wide_rows [0; 1; 1] [0; 1; 0]) [0; 1; 2]%nat)))
    by (vm_compute; split; reflexivity).
  exists t', (set_points (new_node (-0.01) 1.01 (-0.01) 1.01 50 0 25)
                (map (row_point wide_rows [0; 1; 1] [0; 1; 0]) [0; 1; 2]%nat)).
  split; [exact Eb'|]. split; [exact Er'|]. split; [exact Hb|].
  exact (H Hb).
Defined.

(** ** Point queries *)

Lemma zero_spec : Prim2SF 0 = S754_zero false.
Proof. vm_compute. reflexivity. Qed.

(** Subtracting the tolerance [0.0] leaves a lower bound as it is. *)
Lemma leb_sub_zero (x p : float) : (x - 0 <=? p) = (x <=? p).
Proof.
  rewrite !leb_spec, sub_spec, zero_spec.
  destruct (Prim2SF x) as [s|s| |s m e]; try destruct s; reflexivity.
Qed.

(** Adding the tolerance [0.0] leaves an upper bound as it is, up to the
    sign of zero. *)
Lemma leb_add_zero (x p : float) : (p <=? x + 0) = (p <=? x).
Proof.
  rewrite !leb_spec, add_spec, zero_spec.
  destruct (Prim2SF x) as [s|s| |s m e]; try destruct s; reflexivity.
Qed.

Lemma eqb_leb (a b : float) :
  (a =? b) = true -> (a <=? b) = true /\ (b <=? a) = true.
Proof.
  rewrite eqb_spec, !leb_spec. unfold SFeqb. intros H.
  assert (Ha : Prim2SF a <> S754_nan)
    by (intros E; rewrite E in H; discriminate H).
  assert (Hb : Prim2SF b <> S754_nan)
    by (intros E; rewrite E in H; destruct (Prim2SF a); discriminate H).
  pose proof (SFcompare_key _ _ Ha Hb) as Hk.
  destruct (SFcompare (Prim2SF a) (Prim2SF b)) as [[ | | ]|]; try discriminate H.
  split; apply SFleb_key; try assumption; rewrite Hk; apply key_le_refl.
Qed.

Lemma in_range_zero_tolerance (x y : float) (p : Point) :
  in_range (x - 0) (x + 0) (y - 0) (y + 0) p = true <-> located_at x y p.
Proof.
  unfold in_range, located_at.
  rewrite !leb_sub_zero, !leb_add_zero, !andb_true_iff. split.
  - intros ((H1 & H2) & (H3 & H4)).
    split; apply leb_both_eqb; assumption.
  - intros (H1 & H2). apply eqb_leb in H1, H2. tauto.
Qed.

(** X5: over binary64 coordinates, after any sequence of [insert] calls on
    a fresh node whose region is not the whole line on an axis,
    [query_point(x, y, tolerance)] returns exactly the identifiers of the
    accepted points that lie in the box from [x - tolerance] to
    [x + tolerance] and from [y - tolerance] to [y + tolerance], the four
    bounds being the rounded results of these operations; with the default
    tolerance [0.0] it returns exactly the identifiers of the accepted
    points whose coordinates compare equal to [x] and [y]. *)
Theorem X5_node_query_point (xmin xmax ymin ymax : float) (cap d maxd : Z)
        (fuel : nat) (ps : list Point) (x y tol : float) :
  bounded (new_node xmin xmax ymin ymax cap d maxd) ->
  fits fuel (new_node xmin xmax ymin ymax cap d maxd) ->
  exists bs r ids,
    insert_all fuel (new_node xmin xmax ymin ymax cap d maxd) ps = Ok (bs, r) /\
    query_point r x y tol = Ok ids /\
    (forall i, In i ids <->
               exists p, In p (accepted ps bs) /\ point_idx p = i /\
                         within (x - tol) (x + tol) (y - tol) (y + tol)
                                (point_x p) (point_y p)) /\
    (tol = 0 ->
     forall i, In i ids <->
               exists p, In p (accepted ps bs) /\ point_idx p = i /\
                         located_at x y p).
Proof.
  intros Hb Hf.
  destruct (fresh_node_inv xmin xmax ymin ymax cap d maxd) as (Hp0 & Hi0 & Hc0).
  destruct (insert_all_total fuel ps _ Hp0 Hf) as (bs & r & Hrun).
  destruct (insert_all_result _ _ _ _ _ Hp0 Hb Hi0 Hrun)
    as (Hbs & _ & Hp1 & Hi1 & Hperm).
  rewrite Hc0 in Hperm. cbn [app] in Hperm.
  exists bs, r, (scan (x - tol) (x + tol) (y - tol) (y + tol) (contents r)).
  split; [exact Hrun|].
  rewrite Hbs, accepted_holds.
  split; [apply query_range_scan; assumption|].
  assert (Hgen : forall i,
             In i (scan (x - tol) (x + tol) (y - tol) (y + tol) (contents r)) <->
             exists p, In p (filter (holdsb (new_node xmin xmax ymin ymax cap d maxd)) ps) /\
                       point_idx p = i /\
                       within (x - tol) (x + tol) (y - tol) (y + tol)
                              (point_x p) (point_y p)).
  { intros i. rewrite scan_members. split.
    - intros (q & Hq & Hidx & Hw). exists q.
      split; [apply (Permutation_in _ Hperm), Hq|auto].
    - intros (q & Hq & Hidx & Hw). exists q.
      split; [apply (Permutation_in _ (Permutation_sym Hperm)), Hq|auto]. }
  split; [exact Hgen|].
  intros -> i. rewrite Hgen. split.
  - intros (p & Hp & Hidx & Hw). exists p. split; [exact Hp|]. split; [exact Hidx|].
    apply in_range_zero_tolerance, in_range_within, Hw.
  - intros (p & Hp & Hidx & Hw). exists p. split; [exact Hp|]. split; [exact Hidx|].
    apply in_range_within, in_range_zero_tolerance, Hw.
Qed.

Lemma X5_node_query_point_witness :
  exists bs r ids,
    insert_all 26 (new_node 0 1 0 1 1 0 25)
               [(0, 0, 0%Z, None); (1, 1, 1%Z, None)] = Ok (bs, r) /\
    query_point r 1 1 0 = Ok ids /\
    (forall i, In i ids <->
               exists p, In p (accepted [(0, 0, 0%Z, None); (1, 1, 1%Z, None)] bs) /\
                         point_idx p = i /\
                         within (1 - 0) (1 + 0) (1 - 0) (1 + 0)
                                (point_x p) (point_y p)) /\
    (0 = 0 ->
     forall i, In i ids <->
               exists p, In p (accepted [(0, 0, 0%Z, None); (1, 1, 1%Z, None)] bs) /\
                         point_idx p = i /\ located_at 1 1 p).
Proof.
  assert (Hb : bounded (new_node 0 1 0 1 1 0 25)) by (vm_compute; split; reflexivity).
  assert (Hf : fits 26 (new_node 0 1 0 1 1 0 25)) by (unfold fits; vm_compute; lia).
  exact (X5_node_query_point 0 1 0 1 1 0 25 26
           [(0, 0, 0%Z, None); (1, 1, 1%Z, None)] 1 1 0 Hb Hf).
Defined.

(** The bounds of the box are rounded: [0.1 + 0.2] is
    [0.30000000000000004], so a point at that abscissa is returned by
    [query_point(0.1, 0.5, 0.2)]. *)
Example query_point_rounds :
  query_point (set_points unit_node [(0.30000000000000004, 0.5, 0%Z, None)])
              0.1 0.5 0.2 = Ok [0%Z] /\
  (0.2 <? 0.30000000000000004 - 0.1) = true.
Proof. vm_compute. split; reflexivity. Qed.

(** X7: over binary64 coordinates, on a fresh index and a non-empty array
    with the two configured columns, after [build] without [indices], when
    the root region is not the whole line on an axis,
    [Quadtree.query_point] returns the number of a row exactly when the
    projected row lies in the root region and in the box of the query, whose
    bounds are the rounded [x - tolerance], [x + tolerance],
    [y - tolerance] and [y + tolerance]; in particular each row that lies in
    the root region is found at its own coordinates with tolerance [0.0]. *)
Theorem X7_build_then_query_point (fuel : nat) (xd yd cap maxd : Z)
        (pts : ndarray) (xs ys : list float) :
  rows pts <> [] ->
  column pts xd = Ok xs -> column pts yd = Ok ys ->
  (Z.to_nat maxd < fuel)%nat ->
  exists t r,
    build fuel (new_quadtree xd yd cap maxd) pts None = Ok t /\
    root t = Some r /\
    (bounded r ->
     (forall x y tol, exists ids,
         tree_query_point t x y tol = Ok ids /\
         forall k, In (Z.of_nat k) ids <->
                   (k < length (rows pts))%nat /\
                   contains r (nth k xs 0) (nth k ys 0) = true /\
                   within (x - tol) (x + tol) (y - tol) (y + tol)
                          (nth k xs 0) (nth k ys 0)) /\
     (forall k, (k < length (rows pts))%nat ->
                contains r (nth k xs 0) (nth k ys 0) = true ->
                exists ids,
                  tree_query_point t (nth k xs 0) (nth k ys 0) 0 = Ok ids /\
                  In (Z.of_nat k) ids)).
Proof.
  intros Hne Hxs Hys Hfuel.
  assert (Hlen : (length (build_indices pts None) <= length (rows pts))%nat).
  { cbn. unfold arange. rewrite length_map, length_seq. lia. }
  destruct (build_result fuel xd yd cap maxd pts None xs ys Hne Hxs Hys Hlen Hfuel)
    as (r0 & r & _ & Eb & _ & Hp & Hst).
  cbv zeta in Eb, Hst. cbn [build_indices] in Hst. unfold arange in Hst.
  rewrite loop_points_rows in Hst.
  eexists _, r. split; [exact Eb|]. split; [reflexivity|].
  intros Hb. destruct (Hst Hb) as (Hi & Hperm).
  assert (Hq : forall x y tol, exists ids,
             query_point r x y tol = Ok ids /\
             forall k, In (Z.of_nat k) ids <->
                       (k < length (rows pts))%nat /\
                       contains r (nth k xs 0) (nth k ys 0) = true /\
                       within (x - tol) (x + tol) (y - tol) (y + tol)
                              (nth k xs 0) (nth k ys 0)).
  { intros x y tol.
    exists (scan (x - tol) (x + tol) (y - tol) (y + tol) (contents r)).
    split; [apply query_range_scan; assumption|].
    intros k. rewrite scan_members. split.
    - intros (q & Hq & Hidx & Hw).
      apply (Permutation_in _ Hperm) in Hq. apply filter_In in Hq.
      destruct Hq as (Hq & Hh). apply in_map_iff in Hq.
      destruct Hq as (j & <- & Hj). apply in_seq in Hj.
      cbn in Hidx. apply Nat2Z.inj in Hidx. subst j.
      split; [lia|]. split; [exact Hh|exact Hw].
    - intros (Hk & Hh & Hw). exists (row_point pts xs ys k). split.
      + apply (Permutation_in _ (Permutation_sym Hperm)).
        apply filter_In. split; [|exact Hh].
        apply in_map. apply in_seq. lia.
      + split; [reflexivity|exact Hw]. }
  split.
  - intros x y tol. unfold tree_query_point. cbn [root]. apply Hq.
  - intros k Hk Hh. unfold tree_query_point. cbn [root].
    destruct (Hq (nth k xs 0) (nth k ys 0) 0) as (ids & E & Hin).
    exists ids. split; [exact E|]. apply Hin. split; [exact Hk|].
    split; [exact Hh|].
    apply (in_range_within _ _ _ _ (nth k xs 0, nth k ys 0, 0%Z, None)).
    apply in_range_zero_tolerance. unfold located_at. cbn [point_x point_y fst snd].
    apply contains_within in Hh. destruct Hh as (H1 & H2 & H3 & H4).
    destruct (leb_ordered _ _ H1) as (_ & Ox).
    destruct (leb_ordered _ _ H3) as (_ & Oy).
    split; apply leb_both_eqb; assumption.
Qed.

Lemma X7_build_then_query_point_witness :
  exists ids,
    tree_query_point two_rows_tree 1 1 0 = Ok ids /\ In 1%Z ids.
Proof.
  assert (H1 : rows two_rows <> []) by discriminate.
  assert (H2 : (Z.to_nat 25 < 26)%nat) by (vm_compute; lia).
  destruct (X7_build_then_query_point 26 0 1 50 25 two_rows [0; 1] [0; 1]
              H1 eq_refl eq_refl H2) as (t & r & Eb & Er & H).
  rewrite two_rows_tree_result in Eb. injection Eb as <-.
  vm_compute in Er. injection Er as <-.
  assert (Hb : bounded (tree_root two_rows_tree)) by (vm_compute; split; reflexivity).
  destruct (H Hb) as (_ & Hfind).
  apply (Hfind 1%nat).
  - vm_compute. lia.
  - vm_compute. reflexivity.
Defined.

End F64Facts.
